(** * open-mateo-wrapper: the /water-savings endpoint of [app.js]

    A shallow embedding of [src/app.js] and of the JavaScript built-ins and
    npm libraries it calls, followed by the properties of the water-savings
    computation, the weather cache and the error paths.

    Conventions.
    - A JavaScript Number is an IEEE-754 binary64 value, modelled by
      [spec_float] with precision 53 and maximal exponent 1024; every
      arithmetic operator of the source is the correctly rounded operation
      of [SpecFloat].
    - A JavaScript string is a [string] (the UTF-8 bytes of the text).
    - The payload of the upstream API is an arbitrary JSON value.  What
      the cache hands out is a JSON value as long as no object of the
      payload has a member named [__proto__] (see [clone]).
    - An exception is a value of [js_error]; code that may throw returns a
      [result]. *)

From Stdlib Require Import ZArith Lia String Ascii List DecimalString.
From Stdlib Require DecimalN.
From Stdlib Require Import Floats.SpecFloat.
From stdpp Require Import base option list strings gmap.

Open Scope Z_scope.

(** ** JavaScript numbers *)

Module JsNum.

Definition prec : Z := 53.
Definition emax : Z := 1024.

Abbreviation num := spec_float.

Definition add : num -> num -> num := SFadd prec emax.
Definition mul : num -> num -> num := SFmul prec emax.
Definition div : num -> num -> num := SFdiv prec emax.

Definition zero : num := S754_zero false.
Definition nan : num := S754_nan.

(** The Number nearest to the integer [z] (ties to even). *)
Definition of_Z (z : Z) : num := binary_normalize prec emax z 0 false.

(** The Number nearest to [m * 10^e]: the value of a decimal literal with
    digits [m] and decimal exponent [e], as in source text, JSON text and
    [parseFloat]. *)
Definition of_decimal (s : bool) (m : positive) (e : Z) : num :=
  match e with
  | Zneg k =>
      let '(q, e', l) := SFdiv_core_binary prec emax (Zpos m) 0 (Zpos (10 ^ k)) 0 in
      binary_round_aux prec emax s q e' l
  | _ => binary_round prec emax s (m * Z.to_pos (10 ^ e)) 0
  end.

(** [isNaN(x)] for a Number [x]. *)
Definition isNaN (x : num) : bool :=
  match x with S754_nan => true | _ => false end.

(** [x <= y] *)
Definition leb : num -> num -> bool := SFleb.

(** ToBoolean on a Number: [+0], [-0] and [NaN] are falsy. *)
Definition truthy (x : num) : bool :=
  match x with
  | S754_zero _ | S754_nan => false
  | _ => true
  end.

(** [Number.isFinite(x)] *)
Definition is_finite (x : num) : bool :=
  match x with
  | S754_zero _ | S754_finite _ _ _ => true
  | _ => false
  end.

(** [x === y] on Numbers: [+0] and [-0] are equal, [NaN] equals
    nothing. *)
Definition strict_equal : num -> num -> bool := SFeqb.

(** The integer part of a finite Number, towards zero; zero for the
    others. *)
Definition truncate (x : num) : Z :=
  match x with
  | S754_finite s m e =>
      let a := if e <? 0 then Zpos m / 2 ^ (- e) else Zpos m * 2 ^ e in
      if s then - a else a
  | _ => 0
  end.

End JsNum.

Import JsNum.

(** The numeric literals of [app.js]. *)
Definition lit_0 : num := zero.
Definition lit_1000 : num := of_Z 1000.
Definition lit_0_0929 : num := of_decimal false 929 (-4).

(** [const WATER_COST_PER_1000_LITRES = 1.50] *)
Definition WATER_COST_PER_1000_LITRES : num := of_decimal false 150 (-2).

(** ** Strings and the numeric string grammar of ECMAScript *)

Module JsText.

Definition code (c : ascii) : Z := Z.of_N (N_of_ascii c).

Definition digit_of (c : ascii) : option Z :=
  let n := code c in
  if (48 <=? n) && (n <=? 57) then Some (n - 48) else None.

Definition hex_digit_of (c : ascii) : option Z :=
  let n := code c in
  if (48 <=? n) && (n <=? 57) then Some (n - 48)
  else if (65 <=? n) && (n <=? 70) then Some (n - 55)
  else if (97 <=? n) && (n <=? 102) then Some (n - 87)
  else None.

(** WhiteSpace and LineTerminator code points of one, two and three UTF-8
    bytes: TAB LF VT FF CR SP; U+00A0; U+1680, U+2000..U+200A, U+2028,
    U+2029, U+202F, U+205F, U+3000, U+FEFF. *)
Definition ws1 (a : Z) : bool :=
  ((9 <=? a) && (a <=? 13)) || (a =? 32).

Definition ws2 (a b : Z) : bool := (a =? 194) && (b =? 160).

Definition ws3 (a b c : Z) : bool :=
  ((a =? 225) && (b =? 154) && (c =? 128))
  || ((a =? 226) && (b =? 128)
      && (((128 <=? c) && (c <=? 138)) || (c =? 168) || (c =? 169) || (c =? 175)))
  || ((a =? 226) && (b =? 129) && (c =? 159))
  || ((a =? 227) && (b =? 128) && (c =? 128))
  || ((a =? 239) && (b =? 187) && (c =? 191)).

(** TrimString(s, start) *)
Fixpoint skip_ws (s : string) : string :=
  match s with
  | EmptyString => s
  | String a s1 =>
      if ws1 (code a) then skip_ws s1
      else
        match s1 with
        | EmptyString => s
        | String b s2 =>
            if ws2 (code a) (code b) then skip_ws s2
            else
              match s2 with
              | EmptyString => s
              | String c s3 =>
                  if ws3 (code a) (code b) (code c) then skip_ws s3 else s
              end
        end
  end.

Definition all_ws (s : string) : bool :=
  match skip_ws s with EmptyString => true | _ => false end.

(** DecimalDigits: the digits read so far have value [acc] and number
    [cnt]. *)
Fixpoint take_digits (s : string) (acc cnt : Z) : Z * Z * string :=
  match s with
  | EmptyString => (acc, cnt, s)
  | String c s' =>
      match digit_of c with
      | Some d => take_digits s' (10 * acc + d) (cnt + 1)
      | None => (acc, cnt, s)
      end
  end.

Definition take_sign (s : string) : bool * string :=
  match s with
  | String "+" r => (false, r)
  | String "-" r => (true, r)
  | _ => (false, s)
  end.

(** ExponentPart(opt): an indicator with no digit behind it is not part of
    the literal. *)
Definition take_exponent (s : string) : Z * string :=
  match s with
  | String c s1 =>
      if (code c =? 101) || (code c =? 69) then
        let '(neg, s2) := take_sign s1 in
        let '(v, n, s3) := take_digits s2 0 0 in
        if n =? 0 then (0, s) else ((if neg then - v else v), s3)
      else (0, s)
  | EmptyString => (0, s)
  end.

Fixpoint drop_chars (n : nat) (s : string) : string :=
  match n, s with
  | S n', String _ s' => drop_chars n' s'
  | _, _ => s
  end.

(** The mathematical value of a StrUnsignedDecimalLiteral. *)
Inductive literal :=
  | LInfinity
  | LDecimal (m : Z) (e10 : Z).

(** The longest prefix of [s] that is a StrUnsignedDecimalLiteral. *)
Definition take_unsigned (s : string) : option (literal * string) :=
  if String.prefix "Infinity" s then Some (LInfinity, drop_chars 8 s)
  else
    let '(iv, ic, s1) := take_digits s 0 0 in
    match s1 with
    | String "." s2 =>
        let '(fv, fc, s3) := take_digits s2 iv 0 in
        if (ic =? 0) && (fc =? 0) then None
        else
          let '(ev, s4) := take_exponent s3 in
          Some (LDecimal fv (ev - fc), s4)
    | _ =>
        if ic =? 0 then None
        else
          let '(ev, s4) := take_exponent s1 in
          Some (LDecimal iv ev, s4)
    end.

(** StringNumericValue, rounded to the nearest Number.  (For more than 20
    significant digits ECMAScript lets an engine round from a truncation;
    the engines round the exact value, as here.) *)
Definition literal_value (neg : bool) (l : literal) : num :=
  match l with
  | LInfinity => S754_infinity neg
  | LDecimal (Zpos m) e => of_decimal neg m e
  | LDecimal _ _ => S754_zero neg
  end.

(** [parseFloat(s)] for a string [s] *)
Definition parseFloat (s : string) : num :=
  let '(neg, s1) := take_sign (skip_ws s) in
  match take_unsigned s1 with
  | Some (l, _) => literal_value neg l
  | None => nan
  end.

Fixpoint take_radix (digit : ascii -> option Z) (radix : Z)
    (s : string) (acc cnt : Z) : Z * Z * string :=
  match s with
  | EmptyString => (acc, cnt, s)
  | String c s' =>
      match digit c with
      | Some d => if d <? radix then take_radix digit radix s' (radix * acc + d) (cnt + 1)
                  else (acc, cnt, s)
      | None => (acc, cnt, s)
      end
  end.

(** NonDecimalIntegerLiteral: 0x.., 0o.., 0b.. *)
Definition take_nondecimal (s : string) : option (Z * string) :=
  match s with
  | String "0" (String c s1) =>
      let n := code c in
      let radix :=
        if (n =? 120) || (n =? 88) then 16
        else if (n =? 111) || (n =? 79) then 8
        else if (n =? 98) || (n =? 66) then 2
        else 0 in
      if radix =? 0 then None
      else
        let '(v, cnt, s2) := take_radix hex_digit_of radix s1 0 0 in
        if cnt =? 0 then None else Some (v, s2)
  | _ => None
  end.

(** StringToNumber: ToNumber applied to a string. *)
Definition StringToNumber (s : string) : num :=
  let s0 := skip_ws s in
  match s0 with
  | EmptyString => zero
  | _ =>
      match take_nondecimal s0 with
      | Some (v, rest) => if all_ws rest then of_Z v else nan
      | None =>
          let '(neg, s1) := take_sign s0 in
          match take_unsigned s1 with
          | Some (l, rest) => if all_ws rest then literal_value neg l else nan
          | None => nan
          end
      end
  end.

(** The decimal digits of a non-negative integer. *)
Definition dec_string (n : Z) : string :=
  NilEmpty.string_of_uint (N.to_uint (Z.to_N n)).

Fixpoint zeros (n : nat) : string :=
  match n with
  | O => EmptyString
  | S n' => String "0" (zeros n')
  end.

(** [n] left-padded with zeros to at least [w] digits. *)
Definition pad_left (w : nat) (n : Z) : string :=
  let d := dec_string n in
  (zeros (w - String.length d) ++ d)%string.

End JsText.

Import JsText.

(** ** [Number.prototype.toFixed(2)] *)

Module ToFixed.

(** The integer [n] for which [n / 100 - m * 2^e] is closest to zero, the
    larger one when there are two (ECMAScript 21.1.3.3, step 11). *)
Definition hundredths (m : positive) (e : Z) : Z :=
  if e <? 0 then (200 * Zpos m + 2 ^ (- e)) / 2 ^ (1 - e)
  else 100 * Zpos m * 2 ^ e.

(** The digits of [n] with a decimal point before the last two, after
    padding to at least three digits. *)
Definition fixed_point (n : Z) : string :=
  let m := dec_string n in
  let m := if (String.length m <=? 2)%nat then (zeros (3 - String.length m) ++ m)%string else m in
  let k := String.length m in
  (substring 0 (k - 2) m ++ "." ++ substring (k - 2) 2 m)%string.

(** Number::toString for a Number at or above [10^21]: the shortest
    decimal [s * 10^(n - k)], [k] digits, that reads back as [x]; of two
    such the one nearest to [x].  [big] is [floor x], [n] its number of
    digits. *)
Definition candidate (x : num) (big : Z) (n k : Z) : option (Z * Z) :=
  let scale := 10 ^ (n - k) in
  let lo := big / scale in
  let hi := lo + 1 in
  let reads_back (s : Z) : bool :=
    match s with
    | Zpos p => SFeqb (of_decimal false p (n - k)) x
    | _ => false
    end in
  let ok_lo := reads_back lo in
  let hi' := if hi =? 10 ^ k then (10 ^ (k - 1), n + 1) else (hi, n) in
  let ok_hi := reads_back hi in
  match ok_lo, ok_hi with
  | true, true => if big - lo * scale <=? hi * scale - big then Some (lo, n) else Some hi'
  | true, false => Some (lo, n)
  | false, true => Some hi'
  | false, false => None
  end.

Fixpoint shortest (x : num) (big : Z) (n : Z) (k : Z) (fuel : nat) : Z * Z :=
  match fuel with
  | O => (big / 10 ^ (n - k), n)
  | S fuel' =>
      match candidate x big n k with
      | Some r => r
      | None => shortest x big n (k + 1) fuel'
      end
  end.

Definition exponential (s : Z) (n : Z) : string :=
  let d := dec_string s in
  match d with
  | String c EmptyString => (String c EmptyString ++ "e+" ++ dec_string (n - 1))%string
  | String c r => (String c EmptyString ++ "." ++ r ++ "e+" ++ dec_string (n - 1))%string
  | EmptyString => d
  end.

Definition toString_large (m : positive) (e : Z) : string :=
  let x := S754_finite false m e in
  let big := Z.shiftl (Zpos m) e in
  let n := Z.of_nat (String.length (dec_string big)) in
  let '(s, n') := shortest x big n 1 17 in
  exponential s n'.

(** [x.toFixed(2)] *)
Definition toFixed2 (x : num) : string :=
  match x with
  | S754_nan => "NaN"
  | S754_infinity false => "Infinity"
  | S754_infinity true => "-Infinity"
  | S754_zero _ => "0.00"
  | S754_finite s m e =>
      let sign : string := if s then "-" else "" in
      let digits : string :=
        if 10 ^ 21 <=? Z.shiftl (Zpos m) e then toString_large m e
        else fixed_point (hundredths m e) in
      (sign ++ digits)%string
  end.

End ToFixed.

Import ToFixed.

(** ** JSON values, exceptions and coercions *)

#[warnings="-register-all"] Inductive json :=
  | JNull
  | JBool (b : bool)
  | JNum (x : num)
  | JStr (s : string)
  | JArr (l : list json)
  | JObj (o : list (string * json)).

(** A JavaScript value of the handler: [None] is [undefined]. *)
Abbreviation jsval := (option json).

(** A thrown [Error] object; only its [message] is observed. *)
Record js_error := Thrown { message : string }.

Inductive result (A : Type) :=
  | Ok (a : A)
  | Throw (e : js_error).
Arguments Ok {A} a.
Arguments Throw {A} e.

(** Sequencing: a thrown error skips the rest ([x ← r; k]). *)
#[global] Instance result_bind : MBind result := fun A B k r =>
  match r with
  | Ok a => k a
  | Throw e => Throw e
  end.

#[global] Instance result_ret : MRet result := fun A a => Ok a.

Module Js.

(** The members of an object, in document order, with distinct keys. *)
Fixpoint own (name : string) (o : list (string * json)) : jsval :=
  match o with
  | [] => None
  | (k, v) :: o' => if String.eqb k name then Some v else own name o'
  end.

Definition has_own (name : string) (o : list (string * json)) : bool :=
  match own name o with Some _ => true | None => false end.

(** ToBoolean *)
Definition ToBoolean (v : jsval) : bool :=
  match v with
  | None | Some JNull => false
  | Some (JBool b) => b
  | Some (JNum x) => truthy x
  | Some (JStr s) => match s with EmptyString => false | _ => true end
  | Some (JArr _) | Some (JObj _) => true
  end.

(** [v.name] for a name that no prototype defines ([hourly], [time],
    [precipitation]): an own member of an object, [undefined] on any other
    value, a TypeError on [null] and [undefined]. *)
Definition get_prop (v : jsval) (name : string) : result jsval :=
  match v with
  | None =>
      Throw (Thrown ("Cannot read properties of undefined (reading '" ++ name ++ "')"))
  | Some JNull =>
      Throw (Thrown ("Cannot read properties of null (reading '" ++ name ++ "')"))
  | Some (JObj o) => Ok (own name o)
  | Some _ => Ok None
  end.

(** The UTF-16 code units of a text, each given as a text of its own: a
    character of the basic plane is one unit (one, two or three bytes); a
    character beyond it (four bytes) is two units, its surrogates, each
    written as the three bytes of its code.  A truncated last character is
    one unit. *)
Definition surrogates (a b c d : Z) : list string :=
  let cp := 262144 * (a mod 8) + 4096 * (b mod 64) + 64 * (c mod 64) + d mod 64 in
  let v := cp - 65536 in
  let unit (x : Z) : string :=
    String (ascii_of_N (Z.to_N (224 + x / 4096)))
      (String (ascii_of_N (Z.to_N (128 + (x / 64) mod 64)))
         (String (ascii_of_N (Z.to_N (128 + x mod 64))) EmptyString)) in
  [unit (55296 + v / 1024); unit (56320 + v mod 1024)].

Fixpoint code_units (s : string) : list string :=
  match s with
  | EmptyString => []
  | String a s1 =>
      if code a <? 192 then String a EmptyString :: code_units s1
      else
        match s1 with
        | EmptyString => [s]
        | String b s2 =>
            if code a <? 224 then String a (String b EmptyString) :: code_units s2
            else
              match s2 with
              | EmptyString => [s]
              | String c s3 =>
                  if code a <? 240
                  then String a (String b (String c EmptyString)) :: code_units s3
                  else
                    match s3 with
                    | EmptyString => [s]
                    | String d s4 =>
                        surrogates (code a) (code b) (code c) (code d) ++ code_units s4
                    end
              end
        end
  end.

(** [v[index]] for a non-negative integer [index]: an element of an
    array, a code unit of a string, the member of that name of an
    object. *)
Definition get_index (v : jsval) (index : nat) : result jsval :=
  let reading (what : string) : js_error :=
    Thrown ("Cannot read properties of " ++ what ++ " (reading '"
            ++ dec_string (Z.of_nat index) ++ "')") in
  match v with
  | None => Throw (reading "undefined")
  | Some JNull => Throw (reading "null")
  | Some (JArr l) => Ok (l !! index)
  | Some (JStr s) =>
      Ok (match code_units s !! index with
          | Some u => Some (JStr u)
          | None => None
          end)
  | Some (JObj o) => Ok (own (dec_string (Z.of_nat index)) o)
  | Some (JBool _) | Some (JNum _) => Ok None
  end.

Definition not_primitive : js_error :=
  Thrown "Cannot convert object to primitive value".

(** ToString throws on an object that has an own member [toString] (a JSON
    member is never callable, and [Object.prototype.valueOf] returns the
    object), and on an array that holds such an object. *)
Fixpoint ToString_throws (v : json) : bool :=
  match v with
  | JObj o => has_own "toString" o
  | JArr l => existsb ToString_throws l
  | _ => false
  end.

(** ToNumber(ToString(v)).  ToString of a Number reads back as that
    Number, [-0] as [+0]; an array is joined with commas, [null] members
    as the empty string; a plain object is ["[object Object]"]. *)
Fixpoint text_number (v : json) : result num :=
  match v with
  | JNull | JBool _ => Ok nan
  | JNum x => Ok (match x with S754_zero _ => zero | _ => x end)
  | JStr s => Ok (StringToNumber s)
  | JArr l =>
      match l with
      | [] => Ok zero
      | [x] => match x with JNull => Ok zero | _ => text_number x end
      | _ => if existsb ToString_throws l then Throw not_primitive else Ok nan
      end
  | JObj o => if has_own "toString" o then Throw not_primitive else Ok nan
  end.

(** ToNumber *)
Definition ToNumber (v : jsval) : result num :=
  match v with
  | None => Ok nan
  | Some JNull => Ok zero
  | Some (JBool b) => Ok (if b then of_Z 1 else zero)
  | Some (JNum x) => Ok x
  | Some (JStr s) => Ok (StringToNumber s)
  | Some (JArr l) => text_number (JArr l)
  | Some (JObj o) => if has_own "toString" o then Throw not_primitive else Ok nan
  end.

(** The names of the own properties of [Object.prototype] that hold a
    value (all but the accessor [__proto__]). *)
Definition prototype_names : list string :=
  ["constructor"; "__defineGetter__"; "__defineSetter__"; "hasOwnProperty";
   "__lookupGetter__"; "__lookupSetter__"; "isPrototypeOf"; "propertyIsEnumerable";
   "toString"; "valueOf"; "toLocaleString"]%string.

(** The members that [clone] does not copy: for each enumerable name [i] it
    skips the assignment when the prototype has an own property [i]
    without a setter; under the name [__proto__] the assignment reaches the
    setter of [Object.prototype] and creates no member. *)
Definition not_copied (name : string) : bool :=
  existsb (String.eqb name) prototype_names || String.eqb name "__proto__".

(** [clone(value)] of the package clone, which node-cache applies to what
    it stores and to what it returns: a primitive is returned as it is, an
    array and an object are copied member by member, in depth.

    When the value of a member [__proto__] is an object, an array or
    [null], the setter makes it the prototype of the copy, which then is
    more than a JSON value: what is said of copies is said of payloads
    without a member of that name ([ordinary]). *)
Fixpoint clone (v : json) : json :=
  match v with
  | JArr l => JArr (List.map clone l)
  | JObj o =>
      JObj ((fix members (o : list (string * json)) : list (string * json) :=
               match o with
               | [] => []
               | (k, x) :: o' =>
                   if not_copied k then members o' else (k, clone x) :: members o'
               end) o)
  | _ => v
  end.

(** No object of the value has a member named [__proto__]. *)
Fixpoint ordinary (v : json) : bool :=
  match v with
  | JArr l => forallb ordinary l
  | JObj o =>
      (fix members (o : list (string * json)) : bool :=
         match o with
         | [] => true
         | (k, x) :: o' => negb (String.eqb k "__proto__") && ordinary x && members o'
         end) o
  | _ => true
  end.

End Js.

Import Js.

(** ** node-cache: [new NodeCache({ stdTTL: 3600 })]

    The store maps a key to [{ t, v }]: a copy of the value set and the
    time (in milliseconds, as [Date.now()]) after which it is no longer
    served; [t = 0] would mean no expiry.  With the default [useClones]
    the cache copies what it stores and what it returns. *)

Module NodeCache.

Record entry := { v : json; t : Z }.

Definition stdTTL : Z := 3600.

(** [_check]: the entry is too old. *)
Definition expired (now : Z) (d : entry) : bool :=
  negb (t d =? 0) && (t d <? now).

(** [cache.get(key)] at time [now]: an expired entry is deleted and
    [undefined] returned; a live one is returned as a copy. *)
Definition get (now : Z) (key : string) (c : gmap string entry) : jsval * gmap string entry :=
  match c !! key with
  | Some d => if expired now d then (None, delete key c) else (Some (clone (v d)), c)
  | None => (None, c)
  end.

(** [cache.set(key, value)] at time [now]: a copy of the value is
    stored. *)
Definition set (now : Z) (key : string) (value : json) (c : gmap string entry) : gmap string entry :=
  <[key := {| v := clone value; t := now + stdTTL * 1000 |}]> c.

(** [_checkData]: the periodic sweep that deletes the expired entries. *)
Definition checkData (now : Z) (c : gmap string entry) : gmap string entry :=
  filter (fun kd => expired now kd.2 = false) c.

End NodeCache.

(** ** The process state and the environment of one request *)

(** The cache, the upstream requests issued so far (newest first, by
    their parameters), the console output (newest first) and the number of
    callback invocations of the aggregation loop. *)
Record world := {
  cache : gmap string NodeCache.entry;
  calls : list (string * string * string * string);
  console : list string;
  iterations : nat
}.

(** One HTTP attempt at the upstream API: a 2xx response with its parsed
    body, or a failure with the [message] of its error; the failure is
    [retryable] when axios-retry would try again (a network error, or a 5xx
    answer to this GET). *)
Inductive attempt :=
  | Response (data : json)
  | Failure (retryable : bool) (message : string).

(** What one request meets: the clock when it looks into the cache, the
    outcomes of the successive HTTP attempts, and the clock when
    [axios.get] settles. *)
Record env := {
  now : Z;
  attempts : nat -> attempt;
  arrival : Z
}.

(** [axiosRetry(axios, { retries: 5, ... })] *)
Definition retries : nat := 5.

(** [axios.get] under the retry policy, from attempt [k] with [left]
    retries left: [response.data], or the message of the error thrown. *)
Fixpoint request (outcome : nat -> attempt) (k left : nat) : json + string :=
  match outcome k with
  | Response data => inl data
  | Failure retryable msg =>
      match left with
      | S left' => if retryable then request outcome (S k) left' else inr msg
      | O => inr msg
      end
  end.

(** The outcome of [axios.get(API_URL, { params })] for the request. *)
Definition upstream (E : env) : json + string := request (attempts E) 0 retries.
Arguments upstream : simpl never.

(** ** The handler of [GET /water-savings] *)

(** [req.query]: each of the five parameters is absent or a string. *)
Record query := {
  latitude : option string;
  longitude : option string;
  startDate : option string;
  endDate : option string;
  areaSqFt : option string
}.

(** The body of a 200 answer, and the body [{ error }] of the others. *)
Record report := {
  monthlyWaterCollected : list (string * num);
  totalWaterCollected : string;
  moneySaved : string;
  waterCostPer1000LitrePounds : num;
  waterCollectedFormula : string
}.

Inductive body :=
  | ErrorBody (error : string)
  | ReportBody (r : report).

Record response := { status : Z; payload : body }.

Definition missing_parameters : string :=
  "Missing required parameters (latitude, longitude, startDate, endDate, areaSqFt)".

Definition formula_text : string :=
  "Water Collected (litres) = Area (sq. ft.) × Rainfall (mm) × 0.0929 (1 sq. ft. = 0.0929 m²)".

(** [!param] for a query parameter: absent, or the empty string. *)
Definition absent (p : option string) : bool :=
  match p with
  | None | Some EmptyString => true
  | Some _ => false
  end.

Definition text (p : option string) : string := default EmptyString p.

(** Line 61: [!latitude || !longitude || !startDate || !endDate ||
    !areaSqFt] *)
Definition missing (q : query) : bool :=
  absent (latitude q) || absent (longitude q) || absent (startDate q)
  || absent (endDate q) || absent (areaSqFt q).

Definition cacheKey (latitude longitude startDate endDate : string) : string :=
  (latitude ++ "," ++ longitude ++ "," ++ startDate ++ "," ++ endDate)%string.

(** [getWeatherData] *)
Definition getWeatherData (E : env) (latitude longitude startDate endDate : string)
    (w : world) : result json * world :=
  let key := cacheKey latitude longitude startDate endDate in
  let '(cachedData, c) := NodeCache.get (now E) key (cache w) in
  let hit := match cachedData with
             | Some d => if ToBoolean cachedData then Some d else None
             | None => None
             end in
  match hit with
  | Some d =>
      (Ok d, {| cache := c; calls := calls w;
                console := "Returning cached data"%string :: console w;
                iterations := iterations w |})
  | None =>
      let issued := (latitude, longitude, startDate, endDate) :: calls w in
      match upstream E with
      | inl data =>
          (Ok data, {| cache := NodeCache.set (arrival E) key data c; calls := issued;
                       console := console w; iterations := iterations w |})
      | inr msg =>
          (Throw (Thrown msg),
           {| cache := c; calls := issued;
              console := ("Error fetching weather data: " ++ msg)%string :: console w;
              iterations := iterations w |})
      end
  end.

(** The object [monthlyWaterCollected]: its members in insertion order. *)
Fixpoint bucket_get {A} (month : string) (m : list (string * A)) : option A :=
  match m with
  | [] => None
  | (k, x) :: m' => if String.eqb k month then Some x else bucket_get month m'
  end.

Fixpoint bucket_set {A} (month : string) (x : A) (m : list (string * A)) : list (string * A) :=
  match m with
  | [] => [(month, x)]
  | (k, y) :: m' =>
      if String.eqb k month then (k, x) :: m' else (k, y) :: bucket_set month x m'
  end.

(** The accumulation scheme of lines 90 to 97 over any numbers: the bucket
    of the month is set to zero when it is missing or falsy, then the
    increment is added to the bucket and to the total. *)
Section Accumulate.

Context {A : Type}.
Variable plus : A -> A -> A.
Variable nought : A.
Variable falsy : A -> bool.

(** [!monthlyWaterCollected[month]] *)
Definition bucket_falsy (month : string) (m : list (string * A)) : bool :=
  match bucket_get month m with
  | Some x => falsy x
  | None => true
  end.

Definition accumulate_step (st : list (string * A) * A) (inc : string * A)
  : list (string * A) * A :=
  let '(monthly, total) := st in
  let '(month, w) := inc in
  let monthly := if bucket_falsy month monthly then bucket_set month nought monthly else monthly in
  (bucket_set month (plus (default nought (bucket_get month monthly)) w) monthly,
   plus total w).

Definition accumulate (incs : list (string * A)) : list (string * A) * A :=
  fold_left accumulate_step incs ([], nought).

(** The sum of the values of the bucket map, in member order. *)
Definition sum_values (m : list (string * A)) : A :=
  fold_left plus (map snd m) nought.

End Accumulate.

(** [!x] for a Number *)
Definition falsy_num (x : num) : bool := negb (truthy x).

(** [area * rainfallMm * 0.0929] *)
Definition waterCollected (area : num) (rainfallMm : jsval) : result num :=
  r ← ToNumber rainfallMm;
  Ok (mul (mul area r) lit_0_0929).

Section Handler.

(** [moment(date).format('YYYY-MM')]: the month label of a timestamp, or
    the error that moment throws on it.  A label is a year and a month, or
    ["Invalid date"]: never the name of a member of [Object.prototype]. *)
Variable moment_format : json -> result string.

(** The callback of [dates.forEach], on the state of the two
    accumulators. *)
Definition callback (area : num) (precipitation : jsval)
    (st : list (string * num) * num) (date : json) (index : nat)
  : result (list (string * num) * num) :=
  let '(monthly, total) := st in
  month ← moment_format date;
  rainfallMm ← get_index precipitation index;
  let monthly :=
    if bucket_falsy falsy_num month monthly then bucket_set month lit_0 monthly else monthly in
  w ← waterCollected area rainfallMm;
  Ok (bucket_set month (add (default lit_0 (bucket_get month monthly)) w) monthly,
      add total w).

(** [dates.forEach(callback)] from position [index] on; the count of
    invocations is threaded along. *)
Fixpoint forEach (area : num) (precipitation : jsval) (dates : list json) (index : nat)
    (st : list (string * num) * num) (n : nat)
  : result (list (string * num) * num) * nat :=
  match dates with
  | [] => (Ok st, n)
  | date :: rest =>
      match callback area precipitation st date index with
      | Ok st' => forEach area precipitation rest (S index) st' (S n)
      | Throw e => (Throw e, S n)
      end
  end.

(** Lines 83 to 98: the two accumulators after the loop.  Only an array
    has a [forEach]. *)
Definition aggregate (area : num) (dates precipitation : jsval) (n : nat)
  : result (list (string * num) * num) * nat :=
  match dates with
  | Some (JArr ds) => forEach area precipitation ds 0 ([], lit_0) n
  | Some JNull => (Throw (Thrown "Cannot read properties of null (reading 'forEach')"), n)
  | None => (Throw (Thrown "Cannot read properties of undefined (reading 'forEach')"), n)
  | Some _ => (Throw (Thrown "dates.forEach is not a function"), n)
  end.

Definition invalid_structure : response :=
  {| status := 500; payload := ErrorBody "Invalid weather data structure" |}.

(** Line 75: [!weatherData.hourly || !weatherData.hourly.time ||
    !weatherData.hourly.precipitation] *)
Definition invalid_shape (weatherData : json) : result bool :=
  hourly ← get_prop (Some weatherData) "hourly";
  if negb (ToBoolean hourly) then Ok true
  else
    time ← get_prop hourly "time";
    if negb (ToBoolean time) then Ok true
    else
      precipitation ← get_prop hourly "precipitation";
      Ok (negb (ToBoolean precipitation)).

(** Lines 80 and 81: [weatherData.hourly.time] and
    [weatherData.hourly.precipitation] *)
Definition series (weatherData : json) : result (jsval * jsval) :=
  hourly ← get_prop (Some weatherData) "hourly";
  dates ← get_prop hourly "time";
  precipitation ← get_prop hourly "precipitation";
  Ok (dates, precipitation).

(** Lines 100 to 110: the body sent with status 200. *)
Definition savings (monthly : list (string * num)) (total : num) : response :=
  let money := mul (div total lit_1000) WATER_COST_PER_1000_LITRES in
  {| status := 200;
     payload := ReportBody
       {| monthlyWaterCollected := monthly;
          totalWaterCollected := toFixed2 total;
          moneySaved := toFixed2 money;
          waterCostPer1000LitrePounds := WATER_COST_PER_1000_LITRES;
          waterCollectedFormula := formula_text |} |}.

(** Lines 74 to 110: the [try] block after the fetch; [n] counts the
    invocations of the loop callback. *)
Definition process (area : num) (weatherData : json) (n : nat) : result response * nat :=
  match invalid_shape weatherData with
  | Throw e => (Throw e, n)
  | Ok true => (Ok invalid_structure, n)
  | Ok false =>
      match series weatherData with
      | Throw e => (Throw e, n)
      | Ok (dates, precipitation) =>
          match aggregate area dates precipitation n with
          | (Ok (monthly, total), n') => (Ok (savings monthly total), n')
          | (Throw e, n') => (Throw e, n')
          end
      end
  end.

(** [app.get('/water-savings', async (req, res) => ...)] *)
Definition water_savings (E : env) (q : query) (w : world) : response * world :=
  if missing q
  then ({| status := 400; payload := ErrorBody missing_parameters |}, w)
  else
    let area := parseFloat (text (areaSqFt q)) in
    if isNaN area || leb area lit_0
    then ({| status := 400; payload := ErrorBody "Invalid area value" |}, w)
    else
      let '(fetched, w1) :=
        getWeatherData E (text (latitude q)) (text (longitude q))
          (text (startDate q)) (text (endDate q)) w in
      match fetched with
      | Throw e => ({| status := 500; payload := ErrorBody (message e) |}, w1)
      | Ok weatherData =>
          let '(r, n) := process area weatherData (iterations w1) in
          let w2 := {| cache := cache w1; calls := calls w1; console := console w1;
                       iterations := n |} in
          match r with
          | Ok res => (res, w2)
          | Throw e => ({| status := 500; payload := ErrorBody (message e) |}, w2)
          end
      end.

End Handler.

(** ** moment: [moment(date).format('YYYY-MM')]

    [moment(string)] reads an ISO-8601 date, or date and time, as local
    time unless the text carries a UTC offset, in which case it denotes
    that instant; [format] then prints the fields of the instant in the
    local time of the server.  The texts modelled are the extended
    calendar forms without leading white space:
    [YYYY-MM], and [YYYY-MM-DD] alone or followed by [T] or a space and a
    time [HH], [HH:mm], [HH:mm:ss] or [HH:mm:ss] with a fraction behind a
    point or a comma, the time optionally followed by [Z], [±HH],
    [±HH:mm] or [±HHmm] with at most 14 hours and 59 minutes.  Every
    other text (basic, week and ordinal dates, RFC 2822 dates, and what
    is left to the [Date] parser of the engine) is outside the model.
    The local zone of the server is a fixed offset [zone], in minutes
    east of UTC. *)

Module Moment.

Record stamp := {
  year : Z; month : Z; day : Z;
  hour : Z; minute : Z; second : Z; millisecond : Z;
  offset : option Z
}.

Definition two_digits (a b : ascii) : option Z :=
  match digit_of a, digit_of b with
  | Some x, Some y => Some (10 * x + y)
  | _, _ => None
  end.

Definition four_digits (a b c d : ascii) : option Z :=
  match two_digits a b, two_digits c d with
  | Some x, Some y => Some (100 * x + y)
  | _, _ => None
  end.

(** The UTC offset in minutes: [Z], [±HH], [±HH:mm], [±HHmm]. *)
Definition parse_offset (s : string) : option Z :=
  match s with
  | String "Z" EmptyString => Some 0
  | String sg (String h1 (String h2 r)) =>
      let sign := if Ascii.eqb sg "+" then Some 1
                  else if Ascii.eqb sg "-" then Some (-1) else None in
      let mins := match r with
                  | EmptyString => Some 0
                  | String ":" (String m1 (String m2 EmptyString)) => two_digits m1 m2
                  | String m1 (String m2 EmptyString) => two_digits m1 m2
                  | _ => None
                  end in
      match sign, two_digits h1 h2, mins with
      | Some sg', Some h, Some m =>
          if (h <=? 14) && (m <=? 59) then Some (sg' * (60 * h + m)) else None
      | _, _, _ => None
      end
  | _ => None
  end.

Definition parse_zone (s : string) : option (option Z) :=
  match s with
  | EmptyString => Some None
  | _ => match parse_offset s with Some o => Some (Some o) | None => None end
  end.

(** The leading decimal digits of a text, and the rest. *)
Fixpoint digit_prefix (s : string) : string * string :=
  match s with
  | EmptyString => (EmptyString, s)
  | String c s' =>
      match digit_of c with
      | Some _ => let '(d, r) := digit_prefix s' in (String c d, r)
      | None => (EmptyString, s)
      end
  end.

(** [toInt(('0.' + input) * 1000)]: the milliseconds of a fraction. *)
Definition fraction_ms (input : string) : Z :=
  truncate (mul (StringToNumber ("0." ++ input)) lit_1000).

Definition with_zone (h mi sec ms : Z) (r : string) : option (Z * Z * Z * Z * option Z) :=
  match parse_zone r with
  | Some z => Some (h, mi, sec, ms, z)
  | None => None
  end.

(** Behind the seconds: a fraction, then the offset. *)
Definition after_seconds (h mi sec : Z) (r : string) : option (Z * Z * Z * Z * option Z) :=
  match r with
  | String c r' =>
      if Ascii.eqb c "." || Ascii.eqb c "," then
        let '(input, r'') := digit_prefix r' in
        match input with
        | EmptyString => None
        | _ => with_zone h mi sec (fraction_ms input) r''
        end
      else with_zone h mi sec 0 r
  | EmptyString => with_zone h mi sec 0 r
  end.

(** Behind the minutes: the seconds, or the offset. *)
Definition after_minutes (h mi : Z) (r : string) : option (Z * Z * Z * Z * option Z) :=
  match r with
  | String c (String s1 (String s2 r')) =>
      if Ascii.eqb c ":" then
        match two_digits s1 s2 with
        | Some sec => after_seconds h mi sec r'
        | None => None
        end
      else with_zone h mi 0 0 r
  | _ => with_zone h mi 0 0 r
  end.

(** The time of day and the offset behind [T] or a space. *)
Definition parse_time (s : string) : option (Z * Z * Z * Z * option Z) :=
  match s with
  | String h1 (String h2 r) =>
      match two_digits h1 h2 with
      | Some h =>
          match r with
          | String c (String m1 (String m2 r')) =>
              if Ascii.eqb c ":" then
                match two_digits m1 m2 with
                | Some mi => after_minutes h mi r'
                | None => None
                end
              else with_zone h 0 0 0 r
          | _ => with_zone h 0 0 0 r
          end
      | None => None
      end
  | _ => None
  end.

Definition parse_iso (s : string) : option stamp :=
  match s with
  | String y1 (String y2 (String y3 (String y4 (String c1 (String m1 (String m2 r0)))))) =>
      match Ascii.eqb c1 "-", four_digits y1 y2 y3 y4, two_digits m1 m2 with
      | true, Some y, Some m =>
          match r0 with
          | EmptyString =>
              Some {| year := y; month := m; day := 1;
                      hour := 0; minute := 0; second := 0; millisecond := 0;
                      offset := None |}
          | String c2 (String d1 (String d2 r)) =>
              match Ascii.eqb c2 "-", two_digits d1 d2 with
              | true, Some d =>
                  match r with
                  | EmptyString =>
                      Some {| year := y; month := m; day := d;
                              hour := 0; minute := 0; second := 0; millisecond := 0;
                              offset := None |}
                  | String sep r' =>
                      if Ascii.eqb sep "T" || Ascii.eqb sep " " then
                        match parse_time r' with
                        | Some (h, mi, sec, ms, z) =>
                            Some {| year := y; month := m; day := d;
                                    hour := h; minute := mi; second := sec;
                                    millisecond := ms; offset := z |}
                        | None => None
                        end
                      else None
                  end
              | _, _ => None
              end
          | _ => None
          end
      | _, _, _ => None
      end
  | _ => None
  end.

Definition isLeapYear (y : Z) : bool :=
  ((y mod 4 =? 0) && negb (y mod 100 =? 0)) || (y mod 400 =? 0).

Definition daysInMonth (y m : Z) : Z :=
  if m =? 2 then (if isLeapYear y then 29 else 28)
  else if (m =? 4) || (m =? 6) || (m =? 9) || (m =? 11) then 30
  else 31.

(** [checkOverflow]: a field out of range makes the moment invalid. *)
Definition overflow (p : stamp) : bool :=
  (month p <? 1) || (12 <? month p)
  || (day p <? 1) || (daysInMonth (year p) (month p) <? day p)
  || (24 <? hour p)
  || ((hour p =? 24)
      && (negb (minute p =? 0) || negb (second p =? 0) || negb (millisecond p =? 0)))
  || (59 <? minute p) || (59 <? second p) || (999 <? millisecond p).

Definition next_day (d : Z * Z * Z) : Z * Z * Z :=
  let '(y, m, dd) := d in
  if dd <? daysInMonth y m then (y, m, dd + 1)
  else if m <? 12 then (y, m + 1, 1)
  else (y + 1, 1, 1).

Definition prev_day (d : Z * Z * Z) : Z * Z * Z :=
  let '(y, m, dd) := d in
  if 1 <? dd then (y, m, dd - 1)
  else if 1 <? m then (y, m - 1, daysInMonth y (m - 1))
  else (y - 1, 12, 31).

(** The calendar date [delta] days away. *)
Definition shift_days (delta : Z) (d : Z * Z * Z) : Z * Z * Z :=
  match delta with
  | Z0 => d
  | Zpos n => Pos.iter next_day d n
  | Zneg n => Pos.iter prev_day d n
  end.

(** The token [YYYY]: [zeroFill(y, 4)], the digits of the year padded to
    four, behind a minus sign for a year before zero. *)
Definition format_year (y : Z) : string :=
  let sign : string := if y <? 0 then "-" else "" in
  (sign ++ pad_left 4 (Z.abs y))%string.

(** The tokens [YYYY-MM] *)
Definition format_date (d : Z * Z * Z) : string :=
  let '(y, m, _) := d in
  (format_year y ++ "-" ++ pad_left 2 m)%string.

(** The local calendar date of the moment: the fields as read when the
    text has no offset; hour 24 is midnight of the next day. *)
Definition local_date (zone : Z) (p : stamp) : Z * Z * Z :=
  let nextDay := hour p =? 24 in
  let h := if nextDay then 0 else hour p in
  let moved := match offset p with
               | Some o => zone - o
               | None => 0
               end in
  let delta := (60 * h + minute p + moved) / 1440 + (if nextDay then 1 else 0) in
  shift_days delta (year p, month p, day p).

(** [moment(s).format('YYYY-MM')] for a text [s] of the forms modelled;
    [None] for any other text. *)
Definition format_YYYY_MM (zone : Z) (s : string) : option string :=
  match parse_iso s with
  | None => None
  | Some p =>
      if overflow p then Some "Invalid date"%string
      else Some (format_date (local_date zone p))
  end.

(** [moment(x)] for a Number [x] is [new Date(x)]: the instant [x]
    milliseconds from the epoch, invalid beyond 8.64e15. *)
Definition epoch_label (zone : Z) (x : num) : string :=
  if is_finite x && (Z.abs (truncate x) <=? 8640000000000000) then
    format_date (shift_days ((truncate x + 60000 * zone) / 86400000) (1970, 1, 1))
  else "Invalid date".

(** [moment(date).format('YYYY-MM')] where it is modelled: [null], the
    empty text, a Number, a text of the forms above, and an array that
    holds an entry without a conversion to a string, on which the
    [parseInt(obj, 10)] of [configFromInput] throws. *)
Definition format (zone : Z) (date : json) : option (result string) :=
  match date with
  | JNull => Some (Ok "Invalid date"%string)
  | JNum x => Some (Ok (epoch_label zone x))
  | JStr EmptyString => Some (Ok "Invalid date"%string)
  | JStr s =>
      match format_YYYY_MM zone s with
      | Some l => Some (Ok l)
      | None => None
      end
  | JArr l => if existsb ToString_throws l then Some (Throw not_primitive) else None
  | _ => None
  end.

(** One label function that agrees with the model, to run the handler
    on examples: where moment is not modelled it answers as for an invalid
    date. *)
Definition label (zone : Z) (date : json) : result string :=
  default (Ok "Invalid date"%string) (format zone date).

End Moment.

(** ** Vocabulary of the properties *)

(** The member [name] of a JSON object; no other value has members. *)
Definition field (name : string) (data : json) : option json :=
  match data with
  | JObj o => own name o
  | _ => None
  end.

(** The payload lacks [hourly], [hourly.time] or [hourly.precipitation]. *)
Definition lacks_series (data : json) : Prop :=
  match field "hourly" data with
  | None => True
  | Some hourly => field "time" hourly = None \/ field "precipitation" hourly = None
  end.

(** The payload is [{ hourly: { time: ds, precipitation: ps } }], with
    arrays [ds] and [ps], among other members. *)
Definition has_series (data : json) (ds ps : list json) : Prop :=
  exists hourly,
    field "hourly" data = Some hourly
    /\ field "time" hourly = Some (JArr ds)
    /\ field "precipitation" hourly = Some (JArr ps).

(** A precipitation entry that multiplies without throwing: a number,
    [null], a boolean, a string, and any array or object whose conversion
    to a primitive succeeds. *)
Definition coercible (p : json) : Prop := exists r, ToNumber (Some p) = Ok r.

(** [isNaN(area) || area <= 0] on the parsed [areaSqFt] *)
Definition invalid_area (q : query) : bool :=
  let area := parseFloat (text (areaSqFt q)) in
  isNaN area || leb area lit_0.

(** The four parameters of the fetch, and its cache key. *)
Definition fetch_params (q : query) : string * string * string * string :=
  (text (latitude q), text (longitude q), text (startDate q), text (endDate q)).

Definition key_of (q : query) : string :=
  cacheKey (text (latitude q)) (text (longitude q)) (text (startDate q)) (text (endDate q)).

(** A zero of either sign. *)
Definition is_zero (x : num) : bool :=
  match x with S754_zero _ => true | _ => false end.

(** The same Number, up to the sign of a zero. *)
Definition same_number (x y : num) : Prop :=
  x = y \/ (is_zero x = true /\ is_zero y = true).

(** The sum, in series order, of the litres of the hours labelled
    [month]. *)
Definition month_total (month : string) (incs : list (string * num)) : num :=
  fold_left add (map snd (List.filter (fun inc => String.eqb inc.1 month) incs)) lit_0.

(** Every bucket holds the sum of the litres of its month, up to the sign
    of a zero, and the months that have a bucket are the months met. *)
Definition buckets_hold (incs monthly : list (string * num)) : Prop :=
  forall k, match bucket_get k monthly with
            | Some b => same_number b (month_total k incs) /\ In k (map fst incs)
            | None => ~ In k (map fst incs)
            end.

(** The value of a finite Number in units of [2^-1074], the least
    positive double; zero for the others. *)
Definition units (x : num) : Z :=
  match x with
  | S754_finite s m e => cond_Zopp s (Zpos m * 2 ^ (e + 1074))
  | _ => 0
  end.

(** The exponent of a double is at least -1074: its value is a whole
    number of units. *)
Definition is_double (x : num) : Prop :=
  match x with
  | S754_finite _ _ e => -1074 <= e
  | _ => True
  end.

(** The sum of [f] over a list. *)
Definition sum_over {A} (f : A -> Z) (l : list A) : Z :=
  fold_right (fun x s => f x + s) 0 l.

(** The exact sum of the values of some Numbers, and of their
    magnitudes, in units. *)
Definition units_sum (ws : list num) : Z := sum_over units ws.

Definition units_abs (ws : list num) : Z := sum_over (fun w => Z.abs (units w)) ws.

(** The litres of the hours labelled [month], in series order. *)
Definition month_litres (month : string) (incs : list (string * num)) : list num :=
  map snd (List.filter (fun inc => String.eqb inc.1 month) incs).

(** [(1 + 2^-52)^n - 1], the relative error that [n] rounded additions
    can build up, times [2^(52 n)]. *)
Definition slack (n : Z) : Z := (2 ^ 52 + 1) ^ n - (2 ^ 52) ^ n.

(** moment returns a label for every timestamp of the series. *)
Definition labelled (fmt : json -> result string) (ds : list json) : Prop :=
  Forall (fun d => exists l, fmt d = Ok l) ds.

(** The labels of the timestamps, in order. *)
Fixpoint labels_of (fmt : json -> result string) (ds : list json) : result (list string) :=
  match ds with
  | [] => Ok []
  | d :: rest =>
      l ← fmt d;
      ls ← labels_of fmt rest;
      Ok (l :: ls)
  end.

(** The answer to a validated request over [area] whose fetch returns
    [data]. *)
Definition answer_for (fmt : json -> result string) (area : num) (data : json) : response :=
  match (process fmt area data 0).1 with
  | Ok res => res
  | Throw e => {| status := 500; payload := ErrorBody (message e) |}
  end.

(** The fetch of [q] finds nothing usable in the cache at the time of
    [E]: no entry under its key, an expired one, or a falsy value. *)
Definition cache_miss (E : env) (q : query) (w : world) : Prop :=
  ToBoolean (NodeCache.get (now E) (key_of q) (cache w)).1 = false.

(** What a lookup at time [t] returns, without the deletion. *)
Definition served (t : Z) (key : string) (c : gmap string NodeCache.entry) : jsval :=
  (NodeCache.get t key c).1.

(** The time to live in milliseconds. *)
Definition ttl_ms : Z := NodeCache.stdTTL * 1000.

(** What happens to the process between two fetches: a request is served
    in its environment, or the timer of the cache sweeps the expired
    entries at some time. *)
Inductive event :=
  | Served (E : env) (q : query)
  | Sweep (t : Z).

Definition time_of (ev : event) : Z :=
  match ev with
  | Served E _ => now E
  | Sweep t => t
  end.

Definition happen (fmt : json -> result string) (w : world) (ev : event) : world :=
  match ev with
  | Served E q => (water_savings fmt E q w).2
  | Sweep t =>
      {| cache := NodeCache.checkData t (cache w); calls := calls w;
         console := console w; iterations := iterations w |}
  end.

(** The events one after the other. *)
Definition serve (fmt : json -> result string) (evs : list event) (w : world) : world :=
  fold_left (happen fmt) evs w.

(** A world with an empty cache, before any request. *)
Definition fresh : world :=
  {| cache := ∅; calls := []; console := []; iterations := 0 |}.

(** The per-hour increments of a series: the month label and the litres of
    each timestamp, from position [index] on. *)
Fixpoint increments (fmt : json -> result string) (area : num) (precipitation : jsval)
    (dates : list json) (index : nat) : result (list (string * num)) :=
  match dates with
  | [] => Ok []
  | date :: rest =>
      month ← fmt date;
      v ← get_index precipitation index;
      w ← waterCollected area v;
      incs ← increments fmt area precipitation rest (S index);
      Ok ((month, w) :: incs)
  end.

(** The bucket a step adds to: the old value, or zero when the month is
    new or its bucket is falsy. *)
Definition bucket_before (month : string) (monthly : list (string * num)) : num :=
  match bucket_get month monthly with
  | Some x => if truthy x then x else lit_0
  | None => lit_0
  end.








(** The ten digits. *)
Definition digits : list Z := [0; 1; 2; 3; 4; 5; 6; 7; 8; 9].



(** ** Worked requests *)

(** The worked example: 1000 sq ft, one hourly entry of 10 mm on
    1 January 2024, fetched from upstream into an empty cache. *)
Definition example_query : query :=
  {| latitude := Some "51.5"%string; longitude := Some "-0.12"%string;
     startDate := Some "2024-01-01"%string; endDate := Some "2024-01-01"%string;
     areaSqFt := Some "1000"%string |}.

Definition example_payload : json :=
  JObj [("hourly"%string,
         JObj [("time"%string, JArr [JStr "2024-01-01T00:00"]);
               ("precipitation"%string, JArr [JNum (of_Z 10)])])].

Definition example_env : env :=
  {| now := 1704067200000; attempts := fun _ => Response example_payload;
     arrival := 1704067200250 |}.


(** Two timestamps and one precipitation entry. *)
Definition short_payload (entry : json) : json :=
  JObj [("hourly"%string,
         JObj [("time"%string, JArr [JStr "2024-01-01T00:00"; JStr "2024-01-01T01:00"]);
               ("precipitation"%string, JArr [entry])])].

(** Two timestamps, the first one an array that holds an object with a
    member [toString], and one reading of 10 mm. *)
Definition unreadable_time_payload : json :=
  JObj [("hourly"%string,
         JObj [("time"%string,
                JArr [JArr [JObj [("toString"%string, JNull)]]; JStr "2024-01-01T01:00"]);
               ("precipitation"%string, JArr [JNum (of_Z 10)])])].

Definition env_of (data : json) : env :=
  {| now := 1704067200000; attempts := fun _ => Response data;
     arrival := 1704067200250 |}.

(** The world after a fetch of the example query into an empty cache. *)
Definition fetched (E : env) (data : json) : world :=
  {| cache := NodeCache.set (arrival E) (key_of example_query) data ∅;
     calls := [fetch_params example_query];
     console := []; iterations := 0 |}.

(** The series of the counterexample to C1: three hours around midnight
    of 1 February 2024, with 1.5 mm, 0.2 mm and 0.3 mm of rain, over
    1000 sq ft. *)
Definition midnight_dates : list json :=
  [JStr "2024-01-31T23:00"; JStr "2024-02-01T00:00"; JStr "2024-02-01T01:00"].

Definition midnight_rain : list json :=
  [JNum (of_decimal false 15 (-1)); JNum (of_decimal false 2 (-1));
   JNum (of_decimal false 3 (-1))].

(** The upstream answers 200 with an empty body: [response.data] is the
    empty string. *)
Definition empty_body_env : env :=
  {| now := 1704067200000; attempts := fun _ => Response (JStr "");
     arrival := 1704067200250 |}.

(** The same request again, one minute later. *)
Definition minute_later_env : env :=
  {| now := 1704067260000; attempts := fun _ => Response (JStr "");
     arrival := 1704067260250 |}.

(** The network is down: every attempt fails, and the sixth failure is
    final. *)
Definition failing_env : env :=
  {| now := 1704067200000; attempts := fun _ => Failure true "Network Error";
     arrival := 1704067231000 |}.

(** ** Further vocabulary *)

(** The text has no comma, the separator of the cache key. *)
Fixpoint comma_free (s : string) : bool :=
  match s with
  | EmptyString => true
  | String c s' => negb (Ascii.eqb c ",") && comma_free s'
  end.

(** [k] is among the keys. *)
Definition among (keys : list string) (k : string) : bool := existsb (String.eqb k) keys.

(** The labels in the order in which each one is first met. *)
Fixpoint first_seen (labels : list string) : list string :=
  match labels with
  | [] => []
  | k :: rest => k :: List.filter (fun k' => negb (String.eqb k' k)) (first_seen rest)
  end.

(** A precipitation entry with [null] read as zero. *)
Definition null_as_zero (p : json) : json :=
  match p with
  | JNull => JNum lit_0
  | _ => p
  end.

(** The payload has an object [hourly] whose members [time] and
    [precipitation] are [dates] and [precipitation]. *)
Definition has_members (data : json) (dates precipitation : json) : Prop :=
  exists hourly,
    field "hourly" data = Some hourly
    /\ field "time" hourly = Some dates
    /\ field "precipitation" hourly = Some precipitation.

(** [dates] is an array, the only values of the model with a [forEach]. *)
Definition is_array (v : json) : bool :=
  match v with
  | JArr _ => true
  | _ => false
  end.

(** The buckets and the total of a completed loop. *)
Definition buckets_of (r : result (list (string * num) * num)) : list (string * num) :=
  match r with
  | Ok (monthly, _) => monthly
  | Throw _ => []
  end.

Definition total_of (r : result (list (string * num) * num)) : num :=
  match r with
  | Ok (_, total) => total
  | Throw _ => lit_0
  end.

(** ** Further worked requests *)

(** Two minutes after the worked example, with an upstream that is not
    to be asked. *)
Definition two_minutes_later_env : env :=
  {| now := 1704067320000; attempts := fun _ => Failure false "unused";
     arrival := 1704067320000 |}.

(** One millisecond after the entry of the worked example has expired. *)
Definition after_expiry_env : env :=
  {| now := 1704070800251; attempts := fun _ => Response example_payload;
     arrival := 1704070800500 |}.

(** The worked example over twice the area. *)
Definition double_area_query : query :=
  {| latitude := Some "51.5"%string; longitude := Some "-0.12"%string;
     startDate := Some "2024-01-01"%string; endDate := Some "2024-01-01"%string;
     areaSqFt := Some "2000"%string |}.

(** A payload whose [time] and [precipitation] are the given values. *)
Definition payload_of (dates precipitation : json) : json :=
  JObj [("hourly"%string,
         JObj [("time"%string, dates); ("precipitation"%string, precipitation)])].

(** Two retryable failures, then the payload of the worked example. *)
Definition recovering_env : env :=
  {| now := 1704067200000;
     attempts := fun i => if (i <? 2)%nat then Failure true "timeout"
                          else Response example_payload;
     arrival := 1704067200900 |}.

(** A series of one hour whose precipitation entry is an object with a
    member [toString]: the entry cannot be converted to a number, its copy
    can. *)
Definition unprintable_payload : json :=
  payload_of (JArr [JStr "2024-01-01T00:00"]) (JArr [JObj [("toString"%string, JNull)]]).


(** * Properties *)

(** ** The bucket map *)

Section Buckets.

Context {A : Type}.
Implicit Types (m : list (string * A)) (k : string) (x : A).

Lemma bucket_get_set_eq m k x : bucket_get k (bucket_set k x m) = Some x.
Proof.
  induction m as [|[k' y] m IH]; simpl.
  - by rewrite String.eqb_refl.
  - destruct (String.eqb k' k) eqn:Hk; simpl; rewrite Hk; [done | apply IH].
Qed.

Lemma bucket_get_set_ne m k k' x :
  k' <> k -> bucket_get k' (bucket_set k x m) = bucket_get k' m.
Proof.
  intros Hne. induction m as [|[k0 y] m IH]; simpl.
  - destruct (String.eqb k k') eqn:Hk; [|done].
    apply String.eqb_eq in Hk. congruence.
  - destruct (String.eqb k0 k) eqn:Hk; simpl.
    + apply String.eqb_eq in Hk. subst k0.
      destruct (String.eqb k k') eqn:Hk'; [|done].
      apply String.eqb_eq in Hk'. congruence.
    + destruct (String.eqb k0 k'); [done | apply IH].
Qed.

End Buckets.

(** ** The litres of one hour (C2) *)

Section Litres.

Variable fmt : json -> result string.

(** The callback is one step of the accumulation scheme at IEEE doubles,
    with the litres of the hour as increment. *)
Lemma callback_step area precipitation st date index month v w :
  fmt date = Ok month ->
  get_index precipitation index = Ok v ->
  waterCollected area v = Ok w ->
  callback fmt area precipitation st date index
  = Ok (accumulate_step add lit_0 falsy_num st (month, w)).
Proof.
  intros Hl Hv Hw. destruct st as [monthly total].
  unfold callback. rewrite Hl. simpl. rewrite Hv. simpl. rewrite Hw. reflexivity.
Qed.

End Litres.

(** The factor of the formula is the double nearest to 0.0929. *)
Lemma factor_is_0_0929 :
  lit_0_0929 = S754_finite false 6694150486123505 (-56)
  /\ Z.abs (10000 * 6694150486123505 - 929 * 2 ^ 56) <= 5000.
Proof. split; [reflexivity | vm_compute; discriminate]. Qed.

(** What one invocation of the callback does to the two accumulators. *)
Lemma callback_effect (fmt : json -> result string) (area : num) (ps : list json)
    (monthly : list (string * num)) (total : num) (date : json) (index : nat)
    (month : string) (r : num) :
  fmt date = Ok month ->
  ToNumber (ps !! index) = Ok r ->
  exists monthly',
    callback fmt area (Some (JArr ps)) (monthly, total) date index
    = Ok (monthly', add total (mul (mul area r) lit_0_0929))
    /\ bucket_get month monthly'
       = Some (add (bucket_before month monthly) (mul (mul area r) lit_0_0929))
    /\ forall month', month' <> month ->
                      bucket_get month' monthly' = bucket_get month' monthly.
Proof.
  intros Hl Hr.
  eexists. split; [|split].
  - erewrite callback_step; [reflexivity | exact Hl | reflexivity |].
    unfold waterCollected. by rewrite Hr.
  - rewrite bucket_get_set_eq. f_equal. f_equal.
    unfold bucket_before, bucket_falsy, falsy_num.
    destruct (bucket_get month monthly) as [x|] eqn:Hx; simpl.
    + destruct (truthy x); simpl.
      * by rewrite Hx.
      * by rewrite bucket_get_set_eq.
    + by rewrite bucket_get_set_eq.
  - intros month' Hne. rewrite bucket_get_set_ne by done.
    unfold bucket_falsy. destruct (bucket_get month monthly) as [x|]; simpl.
    + destruct (falsy_num x); [by rewrite bucket_get_set_ne | done].
    + by rewrite bucket_get_set_ne.
Qed.

(** C2.  For every timestamp [date] at position [index] of the series for
    which moment returns the label [month], and its rainfall, read as the
    number [r] (the entry itself when it is a Number, of either sign or
    zero), the callback succeeds, adds [area * r * 0.0929] to the grand
    total and to the bucket of [month] (a bucket that is missing or falsy
    counts as zero), and leaves every other bucket as it was: the product
    enters unclamped.  The factor is the double nearest to 0.0929, and the
    two products are correctly rounded. *)
Theorem callback_adds_litres (fmt : json -> result string) (area : num) (ps : list json)
    (monthly : list (string * num)) (total : num) (date : json) (index : nat)
    (month : string) (r : num) :
  fmt date = Ok month ->
  ToNumber (ps !! index) = Ok r ->
  let factor := S754_finite false 6694150486123505 (-56) in
  let litres := mul (mul area r) factor in
  Z.abs (10000 * 6694150486123505 - 929 * 2 ^ 56) <= 5000
  /\ (forall rainfallMm : num, ps !! index = Some (JNum rainfallMm) -> r = rainfallMm)
  /\ exists monthly',
      callback fmt area (Some (JArr ps)) (monthly, total) date index
      = Ok (monthly', add total litres)
      /\ bucket_get month monthly'
         = Some (add (bucket_before month monthly) litres)
      /\ forall month', month' <> month ->
                        bucket_get month' monthly' = bucket_get month' monthly.
Proof.
  intros Hl Hr factor litres.
  destruct factor_is_0_0929 as [Hfactor Hnear].
  split; [exact Hnear|]. split.
  - intros x Hx. rewrite Hx in Hr. simpl in Hr. congruence.
  - subst litres factor. rewrite <- Hfactor. by apply callback_effect.
Qed.

(** ** Additions of doubles *)

Section Additions.

Lemma add_nan_l x : add nan x = nan.
Proof. by destruct x. Qed.

Lemma add_nan_r x : add x nan = nan.
Proof. by destruct x. Qed.

Lemma mul_nan_r x : mul x nan = nan.
Proof. by destruct x. Qed.

Lemma mul_nan_l x : mul nan x = nan.
Proof. by destruct x. Qed.

Lemma shr_1_nonneg mrs : 0 <= shr_m mrs -> 0 <= shr_m (shr_1 mrs).
Proof. destruct mrs as [m r s]. destruct m as [|[p|p|]|[p|p|]]; simpl; lia. Qed.

Lemma iter_pos_nonneg p mrs : 0 <= shr_m mrs -> 0 <= shr_m (SpecFloat.iter_pos shr_1 p mrs).
Proof.
  revert mrs. induction p as [p IH|p IH|]; intros mrs Hm; simpl.
  - apply IH, IH. by apply shr_1_nonneg.
  - by apply IH, IH.
  - by apply shr_1_nonneg.
Qed.

Lemma shr_fexp_nonneg m e l : 0 <= m -> 0 <= shr_m (shr_fexp prec emax m e l).1.
Proof.
  intros Hm. unfold shr_fexp, shr.
  assert (0 <= shr_m (shr_record_of_loc m l)) as H0 by (by destruct l as [|[]]).
  destruct (fexp prec emax (Zdigits2 m + e) - e); simpl; try done.
  by apply iter_pos_nonneg.
Qed.

(** Rounding a non-negative mantissa never yields NaN. *)
Lemma binary_round_aux_not_nan s m e l :
  0 <= m -> binary_round_aux prec emax s m e l <> S754_nan.
Proof.
  intros Hm. unfold binary_round_aux.
  pose proof (shr_fexp_nonneg m e l Hm) as H1.
  destruct (shr_fexp prec emax m e l) as [mrs' e']. simpl in H1.
  assert (0 <= round_nearest_even (shr_m mrs') (loc_of_shr_record mrs')) as H2.
  { unfold round_nearest_even.
    destruct (loc_of_shr_record mrs') as [|[]]; try lia.
    destruct (Z.even (shr_m mrs')); lia. }
  pose proof (shr_fexp_nonneg _ e' loc_Exact H2) as H3.
  destruct (shr_fexp prec emax _ e' loc_Exact) as [mrs'' e'']. simpl in H3.
  destruct (shr_m mrs''); [done | | lia].
  by destruct (e'' <=? emax - prec).
Qed.

Lemma binary_normalize_not_nan m e : binary_normalize prec emax m e false <> S754_nan.
Proof.
  destruct m as [|p|p]; simpl; [done| |];
    unfold binary_round;
    destruct (shl_align _ _ _) as [mz ez]; by apply binary_round_aux_not_nan.
Qed.

(** The sum of two finite Numbers is a Number. *)
Lemma add_finite_not_nan x y :
  is_finite x = true -> is_finite y = true -> isNaN (add x y) = false.
Proof.
  destruct x as [sx| | |sx mx ex], y as [sy| | |sy my ey]; try done.
  - by destruct sx, sy.
  - intros _ _. unfold add, SFadd.
    pose proof (binary_normalize_not_nan
      (cond_Zopp sx (Z.pos (shl_align mx ex (Z.min ex ey)).1)
       + cond_Zopp sy (Z.pos (shl_align my ey (Z.min ex ey)).1)) (Z.min ex ey)) as H.
    by destruct (binary_normalize _ _ _ _ _).
Qed.

Lemma add_not_nan a w :
  isNaN a = false -> is_finite w = true -> isNaN (add a w) = false.
Proof.
  intros Ha Hw.
  destruct (is_finite a) eqn:Hfa; [by apply add_finite_not_nan|].
  destruct a as [| sa | |]; try done. by destruct w.
Qed.

(** A finite sum has finite terms. *)
Lemma add_finite_inv x y :
  is_finite (add x y) = true -> is_finite x = true /\ is_finite y = true.
Proof.
  destruct x as [sx|sx| |sx mx ex], y as [sy|sy| |sy my ey]; try done.
  by destruct sx, sy.
Qed.

Lemma fold_add_finite_inv ws a :
  is_finite (fold_left add ws a) = true ->
  is_finite a = true /\ Forall (fun w => is_finite w = true) ws.
Proof.
  revert a. induction ws as [|w ws IH]; intros a Hf; cbn [fold_left] in *; [done|].
  apply IH in Hf as [Haw Hws]. apply add_finite_inv in Haw as [Ha Hw].
  split; [done|]. by constructor.
Qed.

Lemma fold_add_nan ws : fold_left add ws nan = nan.
Proof. induction ws as [|w ws IH]; cbn [fold_left]; [done|]. by rewrite add_nan_l. Qed.

Lemma fold_add_not_nan_start ws a :
  isNaN (fold_left add ws a) = false -> isNaN a = false.
Proof.
  destruct a; try done. change S754_nan with nan. by rewrite fold_add_nan.
Qed.

Lemma fold_add_not_nan ws a :
  isNaN a = false -> Forall (fun w => is_finite w = true) ws ->
  isNaN (fold_left add ws a) = false.
Proof.
  intros Ha Hws. revert a Ha.
  induction Hws as [|w ws Hw Hws IH]; intros a Ha; cbn [fold_left]; [done|].
  apply IH. by apply add_not_nan.
Qed.

Lemma same_number_refl x : same_number x x.
Proof. by left. Qed.

(** Adding to a zero of either sign. *)
Lemma add_zero_same a b w :
  is_zero a = true -> is_zero b = true -> same_number (add a w) (add b w).
Proof.
  destruct a as [sa| | |]; try done. destruct b as [sb| | |]; try done.
  intros _ _. destruct w as [sw|sw| |sw mw ew]; try by left.
  right. by destruct sa, sb, sw.
Qed.

(** What is added to a bucket that holds [b], against the same addition
    to a Number [p] that is [b] up to the sign of a zero. *)
Lemma add_bucket_same b p w :
  same_number b p -> isNaN p = false ->
  same_number (add (if truthy b then b else lit_0) w) (add p w).
Proof.
  intros [->|[Hb Hp]] Hnan.
  - destruct (truthy p) eqn:Ht; [by left|].
    destruct p as [sp| | |]; try done. by apply add_zero_same.
  - destruct b as [sb| | |]; try done. by apply add_zero_same.
Qed.

Lemma strict_equal_refl x : isNaN x = false -> strict_equal x x = true.
Proof.
  destruct x as [s|s| |s m e]; try done; intros _.
  - by destruct s.
  - unfold strict_equal, SFeqb, SFcompare.
    rewrite Z.compare_refl, Pos.compare_cont_refl. by destruct s.
Qed.

Lemma strict_equal_same x y :
  same_number x y -> isNaN x = false -> strict_equal x y = true.
Proof.
  intros [<-|[Hx Hy]] Hnan; [by apply strict_equal_refl|].
  destruct x; try done. by destruct y.
Qed.

(** Zero plus a Number is that Number, up to the sign of a zero. *)
Lemma add_zero_l x : same_number (add lit_0 x) x.
Proof.
  destruct x as [s| | |]; try by left. right. by destruct s.
Qed.

Lemma same_number_trans x y z : same_number x y -> same_number y z -> same_number x z.
Proof.
  intros [->|[Hx Hy]] [->|[Hy' Hz]]; try (by left); by right.
Qed.

Lemma same_number_sym x y : same_number x y -> same_number y x.
Proof. intros [->|[Hx Hy]]; [by left | by right]. Qed.

End Additions.

(** ** The rounding of an addition *)

Section Rounding.

Lemma digits2_bounds p :
  2 ^ (Zpos (digits2_pos p) - 1) <= Zpos p < 2 ^ Zpos (digits2_pos p).
Proof.
  induction p as [p IH|p IH|]; cbn [digits2_pos].
  - rewrite Pos2Z.inj_succ, Pos2Z.inj_xI.
    replace (Z.succ (Zpos (digits2_pos p)) - 1) with (Z.succ (Zpos (digits2_pos p) - 1)) by lia.
    rewrite !Z.pow_succ_r by lia. lia.
  - rewrite Pos2Z.inj_succ. change (Zpos p~0) with (2 * Zpos p).
    replace (Z.succ (Zpos (digits2_pos p)) - 1) with (Z.succ (Zpos (digits2_pos p) - 1)) by lia.
    rewrite !Z.pow_succ_r by lia. lia.
  - change (2 ^ 0 <= 1 < 2 ^ 1). lia.
Qed.

Lemma digits2_unique p k :
  2 ^ (k - 1) <= Zpos p < 2 ^ k -> Zpos (digits2_pos p) = k.
Proof.
  intros [Hlo Hhi]. pose proof (digits2_bounds p) as [Hlo' Hhi'].
  assert (0 < k) as Hk.
  { destruct (Z.ltb_spec 0 k) as [|Hle]; [done|].
    destruct (Z.eq_dec k 0) as [->|]; [simpl in Hhi; lia|].
    rewrite Z.pow_neg_r in Hhi by lia. lia. }
  destruct (Z.lt_trichotomy (Zpos (digits2_pos p)) k) as [Hlt|[Heq|Hgt]]; [|done|].
  - assert (2 ^ Zpos (digits2_pos p) <= 2 ^ (k - 1)) by (apply Z.pow_le_mono_r; lia). lia.
  - assert (2 ^ k <= 2 ^ (Zpos (digits2_pos p) - 1)) by (apply Z.pow_le_mono_r; lia). lia.
Qed.

Lemma iter_xO_value m d : Zpos (Pos.iter xO m d) = Zpos m * 2 ^ Zpos d.
Proof.
  induction d as [|d IH] using Pos.peano_ind.
  - simpl. lia.
  - rewrite Pos.iter_succ.
    change (Zpos (Pos.iter xO m d)~0) with (2 * Zpos (Pos.iter xO m d)).
    rewrite IH, Pos2Z.inj_succ, Z.pow_succ_r by lia. lia.
Qed.

Lemma iter_xO_digits m d :
  Zpos (digits2_pos (Pos.iter xO m d)) = Zpos (digits2_pos m) + Zpos d.
Proof.
  induction d as [|d IH] using Pos.peano_ind.
  - simpl. lia.
  - rewrite Pos.iter_succ. cbn [digits2_pos]. rewrite Pos2Z.inj_succ, IH. lia.
Qed.

Lemma shr_1_half mrs : 0 <= shr_m mrs -> shr_m (shr_1 mrs) = shr_m mrs / 2.
Proof.
  intros Hm. rewrite <- Z.div2_div.
  destruct mrs as [m r s]. destruct m as [|[p|p|]|p]; simpl in *; try reflexivity; lia.
Qed.

Lemma shr_1_keeps mrs : 0 <= shr_m mrs -> 0 <= shr_m (shr_1 mrs).
Proof. intros Hm. rewrite shr_1_half by done. by apply Z.div_pos. Qed.

Lemma iter_shr_1 n mrs :
  0 <= shr_m mrs ->
  shr_m (SpecFloat.iter_pos shr_1 n mrs) = shr_m mrs / 2 ^ Zpos n.
Proof.
  revert mrs. induction n as [n IH|n IH|]; intros mrs Hm; cbn [SpecFloat.iter_pos].
  - assert (0 <= shr_m (shr_1 mrs)) as H1 by (by apply shr_1_keeps).
    assert (0 <= shr_m (SpecFloat.iter_pos shr_1 n (shr_1 mrs))) as H2.
    { rewrite IH by done. apply Z.div_pos; [done|]. apply Z.pow_pos_nonneg; lia. }
    rewrite IH, IH, shr_1_half by done.
    rewrite !Z.div_div by (try apply Z.pow_pos_nonneg; lia).
    f_equal. change (Zpos n~1) with (2 * Zpos n + 1).
    replace (2 * Zpos n + 1) with (Z.succ (Zpos n + Zpos n)) by lia.
    rewrite Z.pow_succ_r, Z.pow_add_r by lia. lia.
  - assert (0 <= shr_m (SpecFloat.iter_pos shr_1 n mrs)) as H2.
    { rewrite IH by done. apply Z.div_pos; [done|]. apply Z.pow_pos_nonneg; lia. }
    rewrite IH, IH by done.
    rewrite !Z.div_div by (try apply Z.pow_pos_nonneg; lia).
    f_equal. change (Zpos n~0) with (2 * Zpos n).
    replace (2 * Zpos n) with (Zpos n + Zpos n) by lia.
    rewrite Z.pow_add_r by lia. lia.
  - rewrite shr_1_half by done. reflexivity.
Qed.

Lemma round_nearest_even_step m l :
  round_nearest_even m l = m \/ round_nearest_even m l = m + 1.
Proof.
  destruct l as [|[]]; simpl; auto. destruct (Z.even m); auto.
Qed.

End Rounding.

Section Round.

(** No shift when the mantissa has no digit too many. *)
Lemma shr_fexp_exact m e :
  fexp prec emax (Zdigits2 m + e) <= e ->
  shr_fexp prec emax m e loc_Exact = ({| shr_m := m; shr_r := false; shr_s := false |}, e).
Proof.
  intros H. unfold shr_fexp, shr. cbn [shr_record_of_loc].
  destruct (fexp prec emax (Zdigits2 m + e) - e) eqn:Hn; try reflexivity. lia.
Qed.

(** A mantissa of 53 digits, or [2^53], is brought to 53 digits without
    loss. *)
Lemma shr_fexp_renormalise m1 e1 :
  2 ^ 52 <= m1 <= 2 ^ 53 -> -1074 <= e1 ->
  exists m2 e2,
    shr_m (shr_fexp prec emax m1 e1 loc_Exact).1 = Zpos m2
    /\ (shr_fexp prec emax m1 e1 loc_Exact).2 = e2
    /\ e1 <= e2
    /\ Zpos m2 * 2 ^ (e2 + 1074) = m1 * 2 ^ (e1 + 1074).
Proof.
  intros [Hlo Hhi] He.
  destruct (Z.eq_dec m1 (2 ^ 53)) as [->|Hne].
  - exists (2 ^ 52)%positive, (e1 + 1).
    unfold shr_fexp.
    change (Zdigits2 (2 ^ 53)) with 54.
    assert (fexp prec emax (54 + e1) - e1 = 1) as -> by (unfold fexp, emin, prec, emax; lia).
    cbn [shr shr_record_of_loc SpecFloat.iter_pos fst snd].
    split; [reflexivity|]. split; [reflexivity|]. split; [lia|].
    replace (e1 + 1 + 1074) with (Z.succ (e1 + 1074)) by lia.
    rewrite Z.pow_succ_r by lia. change (2 ^ 53) with (2 ^ 52 * 2).
    change (Zpos (2 ^ 52)) with (2 ^ 52). lia.
  - destruct m1 as [|p|p]; try (exfalso; assert (0 < 2 ^ 52) by (by apply Z.pow_pos_nonneg); lia).
    exists p, e1.
    assert (Zpos (digits2_pos p) = 53) as Hd by (apply digits2_unique; change (53 - 1) with 52; lia).
    rewrite shr_fexp_exact.
    + cbn [fst snd shr_m]. split; [done|]. split; [done|]. split; [lia|done].
    + cbn [Zdigits2]. rewrite Hd. unfold fexp, emin, prec, emax. lia.
Qed.

(** Rounding a positive multiple [a * 2^e] of the least double: the
    result keeps the sign and is within [2^-52] of the value, relatively,
    unless it is infinite. *)
Lemma binary_round_aux_error s a e :
  -1074 <= e ->
  match binary_round_aux prec emax s (Zpos a) e loc_Exact with
  | S754_finite s' m' e' =>
      s' = s /\ -1074 <= e'
      /\ 2 ^ 52 * Z.abs (Zpos m' * 2 ^ (e' + 1074) - Zpos a * 2 ^ (e + 1074))
         <= Zpos a * 2 ^ (e + 1074)
  | S754_infinity _ => True
  | _ => False
  end.
Proof.
  intros He.
  pose proof (digits2_bounds a) as Hd.
  assert (0 < 2 ^ (e + 1074)) as HU by (apply Z.pow_pos_nonneg; lia).
  unfold binary_round_aux.
  destruct (Z.le_gt_cases (fexp prec emax (Zdigits2 (Zpos a) + e)) e) as [Hfit|Hshift].
  - rewrite shr_fexp_exact by done. cbn [shr_m loc_of_shr_record round_nearest_even].
    rewrite shr_fexp_exact by done. cbn [shr_m].
    destruct (e <=? emax - prec); [|done].
    split; [done|]. split; [done|]. rewrite Z.sub_diag. simpl. nia.
  - cbn [Zdigits2] in Hshift.
    set (d := Zpos (digits2_pos a)) in *.
    assert (fexp prec emax (d + e) = d + e - 53) as Hf
      by (unfold fexp, emin, prec, emax in *; lia).
    unfold shr_fexp at 1. cbn [Zdigits2]. fold d. rewrite Hf.
    replace (d + e - 53 - e) with (d - 53) by lia.
    destruct (d - 53) as [|n|n] eqn:Hn; try lia.
    cbn [shr shr_record_of_loc].
    set (mrs := SpecFloat.iter_pos shr_1 n {| shr_m := Zpos a; shr_r := false; shr_s := false |}).
    assert (shr_m mrs = Zpos a / 2 ^ Zpos n) as Hq by (apply iter_shr_1; simpl; lia).
    assert (0 < 2 ^ Zpos n) as HN by (apply Z.pow_pos_nonneg; lia).
    assert (2 ^ (d - 1) = 2 ^ 52 * 2 ^ Zpos n) as Hlow.
    { replace (d - 1) with (52 + Zpos n) by lia. by rewrite Z.pow_add_r by lia. }
    assert (2 ^ d = 2 ^ 53 * 2 ^ Zpos n) as Hhigh.
    { replace d with (53 + Zpos n) at 1 by lia. by rewrite Z.pow_add_r by lia. }
    pose proof (Z.div_mod (Zpos a) (2 ^ Zpos n) ltac:(lia)) as Hdiv.
    pose proof (Z.mod_pos_bound (Zpos a) (2 ^ Zpos n) HN) as Hmod.
    set (q := Zpos a / 2 ^ Zpos n) in *.
    set (m1 := round_nearest_even (shr_m mrs) (loc_of_shr_record mrs)).
    assert (m1 = q \/ m1 = q + 1) as Hm1.
    { unfold m1. rewrite <- Hq. apply round_nearest_even_step. }
    assert (2 ^ 52 <= q < 2 ^ 53) as Hqb by nia.
    destruct (shr_fexp_renormalise m1 (e + Zpos n)) as (m2 & e2 & Hm2 & He2 & Hle & Hval);
      [lia | lia |].
    destruct (shr_fexp prec emax m1 (e + Zpos n) loc_Exact) as [mrs2 e2'].
    cbn [fst snd] in Hm2, He2. subst e2'. rewrite Hm2.
    destruct (e2 <=? emax - prec); [|done].
    split; [done|]. split; [lia|].
    rewrite Hval.
    replace (e + Zpos n + 1074) with (e + 1074 + Zpos n) by lia.
    rewrite Z.pow_add_r by lia.
    set (U := 2 ^ (e + 1074)) in *. set (N := 2 ^ Zpos n) in *.
    assert (Z.abs (m1 * N - Zpos a) <= N) as Habs by lia.
    replace (m1 * (U * N) - Zpos a * U) with (U * (m1 * N - Zpos a)) by ring.
    rewrite Z.abs_mul, (Z.abs_eq U) by lia.
    nia.
Qed.

End Round.

Section Operations.

Lemma shl_align_spec mx ex ex' :
  Zpos (shl_align mx ex ex').1 = Zpos mx * 2 ^ (ex - (shl_align mx ex ex').2)
  /\ (shl_align mx ex ex').2 = Z.min ex ex'.
Proof.
  unfold shl_align. destruct (ex' - ex) as [|d|d] eqn:Hd; cbn [fst snd].
  - rewrite Z.sub_diag. split; lia.
  - rewrite Z.sub_diag. split; lia.
  - rewrite iter_xO_value. replace (ex - ex') with (Zpos d) by lia. split; lia.
Qed.

Lemma binary_round_error s a e :
  -1074 <= e ->
  match binary_round prec emax s a e with
  | S754_finite s' m' e' =>
      s' = s /\ -1074 <= e'
      /\ 2 ^ 52 * Z.abs (Zpos m' * 2 ^ (e' + 1074) - Zpos a * 2 ^ (e + 1074))
         <= Zpos a * 2 ^ (e + 1074)
  | S754_infinity _ => True
  | _ => False
  end.
Proof.
  intros He. unfold binary_round.
  destruct (shl_align_spec a e (fexp prec emax (Zpos (digits2_pos a) + e))) as [Hv He'].
  destruct (shl_align a e (fexp prec emax (Zpos (digits2_pos a) + e))) as [mz ez].
  cbn [fst snd] in Hv, He'.
  assert (-1074 <= ez) as Hez by (unfold fexp, emin, prec, emax in He'; lia).
  assert (Zpos mz * 2 ^ (ez + 1074) = Zpos a * 2 ^ (e + 1074)) as Hsame.
  { rewrite Hv, <- Z.mul_assoc, <- Z.pow_add_r by lia. f_equal. f_equal. lia. }
  pose proof (binary_round_aux_error s mz ez Hez) as H.
  destruct (binary_round_aux prec emax s (Zpos mz) ez loc_Exact) as [s'|s'| |s' m' e'];
    try done.
  by rewrite <- Hsame.
Qed.

Lemma units_finite s m e : units (S754_finite s m e) = cond_Zopp s (Zpos m * 2 ^ (e + 1074)).
Proof. reflexivity. Qed.

(** The exact sum of two doubles is a multiple of the least double, and
    the sum that [+] returns, when it is finite, is within [2^-52] of it,
    relatively. *)
Lemma add_error x y :
  is_double x -> is_double y ->
  is_finite (add x y) = true ->
  is_double (add x y)
  /\ is_finite x = true /\ is_finite y = true
  /\ 2 ^ 52 * Z.abs (units (add x y) - (units x + units y)) <= Z.abs (units x + units y).
Proof.
  intros Hx Hy Hfin.
  destruct x as [sx|sx| |sx mx ex], y as [sy|sy| |sy my ey];
    try (by destruct sx, sy); try (by destruct sx); try (by destruct sy); try done.
  - (* zero + finite *)
    unfold add; cbn [SFadd]. split; [done|]. split; [done|]. split; [done|].
    cbn [units]. rewrite Z.add_0_l, Z.sub_diag. cbn [Z.abs]. lia.
  - (* finite + zero *)
    unfold add; cbn [SFadd]. split; [done|]. split; [done|]. split; [done|].
    cbn [units]. rewrite Z.add_0_r, Z.sub_diag. cbn [Z.abs]. lia.
  - (* finite + finite *)
    cbn [is_double] in Hx, Hy.
    split; [|split; [done|split; [done|]]]; revert Hfin; unfold add; cbn [SFadd].
    all: destruct (shl_align_spec mx ex (Z.min ex ey)) as [Hvx Hex];
      destruct (shl_align_spec my ey (Z.min ex ey)) as [Hvy Hey];
      set (mx' := (shl_align mx ex (Z.min ex ey)).1) in *;
      set (my' := (shl_align my ey (Z.min ex ey)).1) in *;
      rewrite Hex in Hvx; rewrite Hey in Hvy;
      replace (Z.min ex (Z.min ex ey)) with (Z.min ex ey) in Hvx by lia;
      replace (Z.min ey (Z.min ex ey)) with (Z.min ex ey) in Hvy by lia;
      set (ez := Z.min ex ey) in *;
      assert (-1074 <= ez) as Hez by lia;
      set (z := cond_Zopp sx (Zpos mx') + cond_Zopp sy (Zpos my'));
      assert (units (S754_finite sx mx ex) + units (S754_finite sy my ey)
              = z * 2 ^ (ez + 1074)) as Hsum
        by (rewrite !units_finite; unfold z;
            replace (2 ^ (ex + 1074)) with (2 ^ (ex - ez) * 2 ^ (ez + 1074))
              by (rewrite <- Z.pow_add_r by lia; f_equal; lia);
            replace (2 ^ (ey + 1074)) with (2 ^ (ey - ez) * 2 ^ (ez + 1074))
              by (rewrite <- Z.pow_add_r by lia; f_equal; lia);
            rewrite !Z.mul_assoc, <- Hvx, <- Hvy;
            destruct sx, sy; cbn [cond_Zopp]; ring);
      rewrite ?Hsum;
      assert (0 < 2 ^ (ez + 1074)) as HU by (apply Z.pow_pos_nonneg; lia);
      unfold binary_normalize;
      destruct z as [|a|a] eqn:Hz.
    + done.
    + pose proof (binary_round_error false a ez Hez) as H.
      destruct (binary_round prec emax false a ez) as [s'|s'| |s' m' e']; try done.
      intros _. cbn [is_double]. tauto.
    + pose proof (binary_round_error true a ez Hez) as H.
      destruct (binary_round prec emax true a ez) as [s'|s'| |s' m' e']; try done.
      intros _. cbn [is_double]. tauto.
    + intros _. simpl. lia.
    + pose proof (binary_round_error false a ez Hez) as H.
      destruct (binary_round prec emax false a ez) as [s'|s'| |s' m' e']; try done.
      intros _. destruct H as (-> & _ & H). rewrite units_finite. cbn [cond_Zopp].
      rewrite (Z.abs_eq (Zpos a * _)) by lia. done.
    + pose proof (binary_round_error true a ez Hez) as H.
      destruct (binary_round prec emax true a ez) as [s'|s'| |s' m' e']; try done.
      intros _. destruct H as (-> & _ & H). rewrite units_finite. cbn [cond_Zopp].
      replace (- (Zpos m' * 2 ^ (e' + 1074)) - Zneg a * 2 ^ (ez + 1074))
        with (- (Zpos m' * 2 ^ (e' + 1074) - Zpos a * 2 ^ (ez + 1074))) by lia.
      rewrite Z.abs_opp.
      replace (Z.abs (Zneg a * 2 ^ (ez + 1074))) with (Zpos a * 2 ^ (ez + 1074)) by lia.
      done.
Qed.

Lemma shr_fexp_exponent m e l :
  -1074 <= (shr_fexp prec emax m e l).2 /\ e <= (shr_fexp prec emax m e l).2.
Proof.
  unfold shr_fexp, shr.
  destruct (fexp prec emax (Zdigits2 m + e) - e) eqn:Hn; cbn [snd];
    unfold fexp, emin, prec, emax in *; lia.
Qed.

Lemma binary_round_aux_double s m e l : is_double (binary_round_aux prec emax s m e l).
Proof.
  unfold binary_round_aux.
  pose proof (shr_fexp_exponent m e l) as [H1 _].
  destruct (shr_fexp prec emax m e l) as [mrs' e']. cbn [snd] in H1.
  pose proof (shr_fexp_exponent (round_nearest_even (shr_m mrs') (loc_of_shr_record mrs'))
                e' loc_Exact) as [_ H2].
  destruct (shr_fexp prec emax _ e' loc_Exact) as [mrs'' e'']. cbn [snd] in H2.
  destruct (shr_m mrs''); try done.
  destruct (e'' <=? emax - prec); [|done]. cbn [is_double]. lia.
Qed.

(** A product is a double. *)
Lemma mul_double x y : is_double (mul x y).
Proof.
  destruct x as [sx|sx| |sx mx ex], y as [sy|sy| |sy my ey]; try done.
  apply binary_round_aux_double.
Qed.

End Operations.

(** ** Total and bucket sum (C1) *)

Section LoopScheme.

Variable fmt : json -> result string.

(** The loop is the accumulation scheme at IEEE doubles, run over the
    increments of the series. *)
Lemma forEach_accumulate area precipitation dates index st n :
  forEach fmt area precipitation dates index st n
  = match increments fmt area precipitation dates index with
    | Ok incs =>
        (Ok (fold_left (accumulate_step add lit_0 falsy_num) incs st),
         (n + length dates)%nat)
    | Throw e => (Throw e, snd (forEach fmt area precipitation dates index st n))
    end.
Proof.
  revert index st n.
  induction dates as [|date rest IH]; intros index st n; simpl.
  - by rewrite Nat.add_0_r.
  - destruct st as [monthly total]. unfold callback.
    destruct (fmt date) as [month|e]; simpl; [|done].
    destruct (get_index precipitation index) as [v|e]; simpl; [|done].
    destruct (waterCollected area v) as [w|e]; simpl; [|done].
    rewrite IH.
    destruct (increments fmt area precipitation rest (S index)) as [incs|e]; simpl.
    + by rewrite Nat.add_succ_r.
    + done.
Qed.

End LoopScheme.

Section Sums.

Local Abbreviation step := (accumulate_step add lit_0 falsy_num).

(** The total after the accumulation is the sum of the increments in
    order, whatever their labels. *)
Lemma fold_total {A} (plus : A -> A -> A) (nought : A) (falsy : A -> bool)
    (incs : list (string * A)) (st : list (string * A) * A) :
  (fold_left (accumulate_step plus nought falsy) incs st).2
  = fold_left plus (map snd incs) st.2.
Proof.
  revert st. induction incs as [|[k w] incs IH]; intros [monthly total]; [done|].
  cbn [fold_left map snd]. rewrite IH. done.
Qed.

(** One step on the buckets: the bucket of the month, and the others. *)
Lemma step_bucket monthly total k w :
  bucket_get k (step (monthly, total) (k, w)).1
  = Some (add (bucket_before k monthly) w).
Proof.
  cbn [accumulate_step fst]. rewrite bucket_get_set_eq. f_equal. f_equal.
  unfold bucket_before, bucket_falsy, falsy_num.
  destruct (bucket_get k monthly) as [x|] eqn:Hx; simpl.
  - destruct (truthy x); simpl; [by rewrite Hx | by rewrite bucket_get_set_eq].
  - by rewrite bucket_get_set_eq.
Qed.

Lemma step_other monthly total k w k' :
  k' <> k -> bucket_get k' (step (monthly, total) (k, w)).1 = bucket_get k' monthly.
Proof.
  intros Hne. cbn [accumulate_step fst]. rewrite bucket_get_set_ne by done.
  unfold bucket_falsy. destruct (bucket_get k monthly) as [x|]; simpl.
  - destruct (falsy_num x); [by rewrite bucket_get_set_ne | done].
  - by rewrite bucket_get_set_ne.
Qed.

Lemma month_total_snoc k hist k0 w :
  month_total k (hist ++ [(k0, w)])
  = if String.eqb k0 k then add (month_total k hist) w else month_total k hist.
Proof.
  unfold month_total. rewrite List.filter_app. cbn [List.filter fst].
  destruct (String.eqb k0 k).
  - by rewrite map_app, fold_left_app.
  - by rewrite app_nil_r.
Qed.

Lemma month_total_absent k hist :
  ~ In k (map fst hist) -> month_total k hist = lit_0.
Proof.
  intros Hnot. unfold month_total.
  assert (List.filter (fun inc : string * num => String.eqb inc.1 k) hist = []) as ->;
    [|done].
  induction hist as [|[k1 w1] hist IH]; [done|].
  cbn [List.filter fst]. destruct (String.eqb_spec k1 k) as [->|Hk1].
  - exfalso. apply Hnot. by left.
  - apply IH. intros Hin. apply Hnot. by right.
Qed.

Lemma step_holds hist monthly total k0 w :
  buckets_hold hist monthly ->
  isNaN (month_total k0 hist) = false ->
  buckets_hold (hist ++ [(k0, w)]) (step (monthly, total) (k0, w)).1.
Proof.
  intros Hinv Hnan k.
  assert (In k (map fst (hist ++ [(k0, w)])) <-> In k (map fst hist) \/ k0 = k) as Hin.
  { rewrite map_app, in_app_iff. cbn [map fst In]. tauto. }
  destruct (String.eqb_spec k0 k) as [->|Hne].
  - rewrite step_bucket, month_total_snoc, String.eqb_refl.
    split; [|apply Hin; by right].
    specialize (Hinv k). unfold bucket_before.
    destruct (bucket_get k monthly) as [b|].
    + destruct Hinv as [Hsame _]. by apply add_bucket_same.
    + rewrite (month_total_absent k hist Hinv). by left.
  - rewrite step_other by done. specialize (Hinv k).
    rewrite month_total_snoc.
    destruct (String.eqb_spec k0 k) as [?|_]; [done|].
    destruct (bucket_get k monthly) as [b|].
    + destruct Hinv as [Hsame Hk]. split; [done|]. apply Hin. by left.
    + intros Hk. apply Hin in Hk as [Hk|Hk]; [by apply Hinv | by apply Hne].
Qed.

Lemma fold_holds incs hist st :
  buckets_hold hist st.1 ->
  (forall k pre suf, incs = pre ++ suf -> isNaN (month_total k (hist ++ pre)) = false) ->
  buckets_hold (hist ++ incs) (fold_left step incs st).1.
Proof.
  revert hist st. induction incs as [|[k0 w] incs IH]; intros hist [monthly total] Hinv Hnan.
  - by rewrite app_nil_r.
  - cbn [fold_left].
    replace (hist ++ (k0, w) :: incs) with ((hist ++ [(k0, w)]) ++ incs)
      by (by rewrite <- app_assoc).
    pose proof (step_holds hist monthly total k0 w Hinv) as Hstep.
    destruct (step (monthly, total) (k0, w)) as [monthly' total'] eqn:Hst.
    apply IH.
    + apply Hstep. specialize (Hnan k0 [] ((k0, w) :: incs) eq_refl).
      by rewrite app_nil_r in Hnan.
    + intros k pre suf ->. rewrite <- app_assoc.
      by apply (Hnan k ((k0, w) :: pre) suf).
Qed.

Lemma month_total_not_nan k incs :
  Forall (fun w => is_finite w = true) (map snd incs) ->
  isNaN (month_total k incs) = false.
Proof.
  intros Hfin. unfold month_total. apply fold_add_not_nan; [done|].
  induction incs as [|[k1 w1] incs IH]; [constructor|].
  cbn [map snd] in Hfin. apply Forall_cons in Hfin as [Hw Hfin].
  cbn [List.filter fst]. destruct (String.eqb k1 k); [|by apply IH].
  cbn [map snd]. constructor; [done | by apply IH].
Qed.

(** When all the litres are finite, every bucket ends as the sum of the
    litres of its month. *)
Lemma accumulate_holds incs :
  Forall (fun w => is_finite w = true) (map snd incs) ->
  buckets_hold incs (accumulate add lit_0 falsy_num incs).1.
Proof.
  intros Hfin. apply (fold_holds incs [] ([], lit_0)).
  - intros k. simpl. tauto.
  - intros k pre suf ->. apply month_total_not_nan.
    rewrite map_app in Hfin. by apply Forall_app in Hfin as [Hpre _].
Qed.

(** A series within one month: the bucket follows the total. *)
Lemma single_month_fold label incs b t :
  Forall (fun inc : string * num => inc.1 = label) incs ->
  same_number b t ->
  isNaN (fold_left add (map snd incs) t) = false ->
  exists b',
    fold_left step incs ([(label, b)], t)
    = ([(label, b')], fold_left add (map snd incs) t)
    /\ same_number b' (fold_left add (map snd incs) t).
Proof.
  intros Hall. revert b t.
  induction Hall as [|[k w] incs Hk Hall IH]; intros b t Hsame Hnan.
  - by exists b.
  - simpl in Hk. subst k. cbn [fold_left map snd] in *.
    assert (step ([(label, b)], t) (label, w)
            = ([(label, add (if truthy b then b else lit_0) w)], add t w)) as ->.
    { cbn [accumulate_step]. unfold bucket_falsy, falsy_num.
      cbn [bucket_get]. rewrite String.eqb_refl.
      destruct (truthy b); cbn [negb bucket_set bucket_get default];
        rewrite ?String.eqb_refl; cbn [bucket_set bucket_get default];
        rewrite ?String.eqb_refl; reflexivity. }
    apply IH; [|done].
    apply add_bucket_same; [done|].
    apply fold_add_not_nan_start in Hnan.
    by destruct t.
Qed.

Lemma single_month_accumulate label incs :
  incs <> [] ->
  Forall (fun inc : string * num => inc.1 = label) incs ->
  isNaN (accumulate add lit_0 falsy_num incs).2 = false ->
  exists b,
    (accumulate add lit_0 falsy_num incs).1 = [(label, b)]
    /\ same_number b (accumulate add lit_0 falsy_num incs).2.
Proof.
  intros Hne Hall. unfold accumulate. rewrite fold_total.
  destruct incs as [|[k w] incs]; [done|].
  apply Forall_cons in Hall as [Hk Hall]. simpl in Hk. subst k.
  cbn [fold_left map snd]. intros Hnan.
  assert (step ([], lit_0) (label, w) = ([(label, add lit_0 w)], add lit_0 w)) as ->.
  { cbn [accumulate_step]. unfold bucket_falsy. cbn [bucket_get bucket_set default].
    by rewrite String.eqb_refl. }
  destruct (single_month_fold label incs (add lit_0 w) (add lit_0 w) Hall
              (same_number_refl _) Hnan) as (b' & -> & Hsame).
  by exists b'.
Qed.

End Sums.

(** ** The keys of the bucket map *)

Section BucketKeys.

Lemma bucket_get_among {A} (m : list (string * A)) k :
  among (map fst m) k = match bucket_get k m with Some _ => true | None => false end.
Proof.
  induction m as [|[k' x] m IH]; [done|]. cbn [map fst among existsb bucket_get].
  rewrite (String.eqb_sym k k'). destruct (String.eqb k' k); [done|]. exact IH.
Qed.

Lemma bucket_set_keys {A} (m : list (string * A)) k x :
  map fst (bucket_set k x m)
  = if among (map fst m) k then map fst m else map fst m ++ [k].
Proof.
  induction m as [|[k' y] m IH]; [done|]. cbn [bucket_set map fst among existsb].
  rewrite (String.eqb_sym k k'). destruct (String.eqb k' k); [done|].
  cbn [map fst orb]. rewrite IH. fold (among (map fst m) k).
  by destruct (among (map fst m) k).
Qed.

(** A step of the accumulation adds the month to the keys when it is
    new, and leaves the keys alone otherwise. *)
Lemma step_keys {A} (plus : A -> A -> A) (nought : A) (falsy : A -> bool)
    (monthly : list (string * A)) (total : A) (k : string) (w : A) :
  map fst (accumulate_step plus nought falsy (monthly, total) (k, w)).1
  = if among (map fst monthly) k then map fst monthly else map fst monthly ++ [k].
Proof.
  cbn [accumulate_step fst]. rewrite bucket_set_keys.
  destruct (bucket_falsy falsy k monthly) eqn:Hf.
  - rewrite bucket_set_keys.
    destruct (among (map fst monthly) k) eqn:Hk; [by rewrite Hk|].
    unfold among. rewrite existsb_app. cbn [existsb].
    by rewrite String.eqb_refl, orb_true_r.
  - assert (among (map fst monthly) k = true) as ->; [|done].
    rewrite bucket_get_among. unfold bucket_falsy in Hf.
    by destruct (bucket_get k monthly).
Qed.

Lemma filter_filter_text (f g : string -> bool) (l : list string) :
  List.filter f (List.filter g l) = List.filter (fun k => g k && f k) l.
Proof.
  induction l as [|k l IH]; [done|]. cbn [List.filter].
  destruct (g k); cbn [List.filter andb]; [|exact IH].
  destruct (f k); by rewrite IH.
Qed.

Lemma filter_ext_text (f g : string -> bool) (l : list string) :
  (forall k, f k = g k) -> List.filter f l = List.filter g l.
Proof.
  intros Hfg. induction l as [|k l IH]; [done|]. cbn [List.filter].
  by rewrite Hfg, IH.
Qed.

Lemma among_true keys k k' : among keys k = true -> among keys k' = false ->
  String.eqb k' k = false.
Proof.
  intros Hk Hk'. destruct (String.eqb_spec k' k) as [->|]; [|done]. congruence.
Qed.

(** The keys after the loop: the keys before it, then the new labels in
    the order in which each is first met. *)
Lemma fold_keys {A} (plus : A -> A -> A) (nought : A) (falsy : A -> bool)
    (incs : list (string * A)) (st : list (string * A) * A) :
  map fst (fold_left (accumulate_step plus nought falsy) incs st).1
  = map fst st.1
    ++ List.filter (fun k => negb (among (map fst st.1) k)) (first_seen (map fst incs)).
Proof.
  revert st. induction incs as [|[k w] incs IH]; intros [monthly total].
  - cbn. by rewrite app_nil_r.
  - cbn [fold_left]. rewrite IH.
    destruct (accumulate_step plus nought falsy (monthly, total) (k, w)) as [monthly' total']
      eqn:Hstep.
    pose proof (step_keys plus nought falsy monthly total k w) as Hkeys.
    rewrite Hstep in Hkeys. cbn [fst] in *. rewrite Hkeys.
    cbn [map fst first_seen List.filter].
    destruct (among (map fst monthly) k) eqn:Hk; cbn [negb].
    + f_equal. rewrite filter_filter_text. apply filter_ext_text. intros k'.
      destruct (among (map fst monthly) k') eqn:Hk'; cbn [negb].
      * by rewrite andb_false_r.
      * by rewrite (among_true _ k k' Hk Hk').
    + rewrite <- app_assoc. cbn [app]. f_equal. f_equal.
      rewrite filter_filter_text. apply filter_ext_text. intros k'.
      unfold among at 1. rewrite existsb_app. cbn [existsb]. rewrite orb_false_r.
      fold (among (map fst monthly) k').
      rewrite negb_orb, andb_comm. done.
Qed.

End BucketKeys.

Section FirstSeen.

Lemma first_seen_In (l : list string) (k : string) : In k (first_seen l) <-> In k l.
Proof.
  induction l as [|k' l IH]; [done|]. cbn [first_seen In].
  rewrite filter_In, IH. split.
  - intros [?|[? _]]; [by left | by right].
  - intros [?|Hin]; [by left|].
    destruct (String.eqb_spec k k') as [->|Hne]; [by left|].
    right. split; [done|]. done.
Qed.

Lemma first_seen_NoDup (l : list string) : List.NoDup (first_seen l).
Proof.
  induction l as [|k l IH]; cbn [first_seen]; constructor.
  - rewrite filter_In. intros [_ Hk]. by rewrite String.eqb_refl in Hk.
  - by apply List.NoDup_filter.
Qed.

End FirstSeen.

(** ** The tolerance of the sums *)

Section Tolerance.

Lemma slack_nonneg n : 0 <= n -> 0 <= slack n.
Proof.
  intros Hn. unfold slack.
  assert ((2 ^ 52) ^ n <= (2 ^ 52 + 1) ^ n) by (apply Z.pow_le_mono_l; lia). lia.
Qed.

Lemma slack_succ n : 0 <= n -> slack (Z.succ n) = (2 ^ 52 + 1) * slack n + (2 ^ 52) ^ n.
Proof. intros Hn. unfold slack. rewrite !Z.pow_succ_r by done. ring. Qed.

Lemma slack_add n m :
  0 <= n -> 0 <= m ->
  slack (n + m) = slack m * (2 ^ 52 + 1) ^ n + (2 ^ 52) ^ m * slack n.
Proof. intros Hn Hm. unfold slack. rewrite !Z.pow_add_r by done. ring. Qed.

Lemma units_abs_nonneg ws : 0 <= units_abs ws.
Proof.
  unfold units_abs. induction ws as [|w ws IH]; cbn [sum_over fold_right]; [done|].
  fold (sum_over (fun w => Z.abs (units w)) ws). lia.
Qed.

Lemma units_sum_abs ws : Z.abs (units_sum ws) <= units_abs ws.
Proof.
  unfold units_sum, units_abs.
  induction ws as [|w ws IH]; cbn [sum_over fold_right]; [done|].
  fold (sum_over units ws) (sum_over (fun w => Z.abs (units w)) ws). lia.
Qed.

(** One more rounded addition in front of a sum. *)
Lemma tolerance_step (P A B x y c d R W g : Z) :
  0 < P -> 0 <= A -> 0 < B -> 0 <= R -> 0 <= x -> 0 <= d -> 0 <= c ->
  c <= W -> y <= c + d -> g <= x + d ->
  B * x <= A * (y + R) -> P * d <= c ->
  P * B * g <= ((P + 1) * A + B) * (W + R).
Proof.
  intros HP HA HB HR Hx Hd Hc HcW Hy Hg HIH Hround.
  assert (0 <= P * B) as HPB by (apply Z.mul_nonneg_nonneg; lia).
  assert (0 <= (P + 1) * A) as HQA by (apply Z.mul_nonneg_nonneg; lia).
  assert (P * B * g <= P * B * (x + d)) as H1 by (apply Z.mul_le_mono_nonneg_l; lia).
  assert (P * (B * x) <= P * (A * (y + R))) as H2 by (apply Z.mul_le_mono_nonneg_l; lia).
  assert (P * y <= P * (c + d)) as H3 by (apply Z.mul_le_mono_nonneg_l; lia).
  assert (A * (P * y + P * R) <= A * ((P + 1) * c + (P + 1) * R)) as H4
    by (apply Z.mul_le_mono_nonneg_l; lia).
  assert (B * (P * d) <= B * c) as H5 by (apply Z.mul_le_mono_nonneg_l; lia).
  assert ((P + 1) * A * (c + R) <= (P + 1) * A * (W + R)) as H6
    by (apply Z.mul_le_mono_nonneg_l; lia).
  assert (B * c <= B * (W + R)) as H7 by (apply Z.mul_le_mono_nonneg_l; lia).
  apply Z.le_trans with (P * (B * x) + B * (P * d)); [lia|].
  apply Z.le_trans with (A * (P * y + P * R) + B * c); [lia|].
  apply Z.le_trans with ((P + 1) * A * (c + R) + B * c); [lia|].
  lia.
Qed.

(** The sum that a run of additions returns, when it is finite, is
    within [(1 + 2^-52)^n - 1] of the exact sum, relatively to the sum of
    the magnitudes. *)
Lemma fold_error ws a :
  is_double a -> Forall is_double ws ->
  is_finite (fold_left add ws a) = true ->
  is_double (fold_left add ws a)
  /\ (2 ^ 52) ^ Z.of_nat (length ws)
     * Z.abs (units (fold_left add ws a) - (units a + units_sum ws))
     <= slack (Z.of_nat (length ws)) * (Z.abs (units a) + units_abs ws).
Proof.
  revert a. induction ws as [|w ws IH]; intros a Ha Hws Hfin.
  - unfold units_sum, units_abs. cbn [fold_left length sum_over fold_right]. split; [done|].
    replace (units a - (units a + 0)) with 0 by lia.
    change (Z.of_nat 0) with 0. unfold slack. rewrite !Z.pow_0_r. cbn [Z.abs]. lia.
  - apply Forall_cons in Hws as [Hw Hws]. cbn [fold_left] in *.
    pose proof (fold_add_finite_inv ws (add a w) Hfin) as [Haw _].
    destruct (add_error a w Ha Hw Haw) as (Hd & _ & _ & Hround).
    destruct (IH (add a w) Hd Hws Hfin) as [Hdouble Hbound].
    split; [done|].
    unfold units_sum, units_abs. cbn [length sum_over fold_right].
    fold (sum_over units ws) (sum_over (fun w => Z.abs (units w)) ws).
    fold (units_sum ws) (units_abs ws).
    rewrite Nat2Z.inj_succ, Z.pow_succ_r, slack_succ by lia.
    pose proof (units_abs_nonneg ws).
    pose proof (slack_nonneg (Z.of_nat (length ws)) ltac:(lia)).
    assert (0 < (2 ^ 52) ^ Z.of_nat (length ws)) by (apply Z.pow_pos_nonneg; lia).
    replace (Z.abs (units a) + (Z.abs (units w) + units_abs ws))
      with (Z.abs (units a) + Z.abs (units w) + units_abs ws) by lia.
    apply (tolerance_step (2 ^ 52) _ _
             (Z.abs (units (fold_left add ws (add a w)) - (units (add a w) + units_sum ws)))
             (Z.abs (units (add a w)))
             (Z.abs (units a + units w))
             (Z.abs (units (add a w) - (units a + units w)))); try done; lia.
Qed.

Lemma slack_mono k j e W :
  0 <= k -> 0 <= e -> 0 <= W ->
  (2 ^ 52) ^ k * e <= slack k * W ->
  (2 ^ 52) ^ (k + Z.of_nat j) * e <= slack (k + Z.of_nat j) * W.
Proof.
  intros Hk He HW Hb. induction j as [|j IH].
  - by rewrite Z.add_0_r.
  - rewrite Nat2Z.inj_succ, Z.add_succ_r, Z.pow_succ_r, slack_succ by lia.
    pose proof (slack_nonneg (k + Z.of_nat j) ltac:(lia)).
    assert (0 < (2 ^ 52) ^ (k + Z.of_nat j)) by (apply Z.pow_pos_nonneg; lia).
    nia.
Qed.

End Tolerance.

Section Partition.

Lemma sum_over_ext {A} (f g : A -> Z) (l : list A) :
  (forall x, In x l -> f x = g x) -> sum_over f l = sum_over g l.
Proof.
  induction l as [|x l IH]; intros Hfg; cbn [sum_over fold_right]; [done|].
  fold (sum_over f l) (sum_over g l).
  rewrite Hfg by (by left). rewrite IH; [done|]. intros y Hy. apply Hfg. by right.
Qed.

Lemma sum_over_add {A} (f g : A -> Z) (l : list A) :
  sum_over (fun x => f x + g x) l = sum_over f l + sum_over g l.
Proof.
  induction l as [|x l IH]; cbn [sum_over fold_right]; [done|].
  fold (sum_over (fun x => f x + g x) l) (sum_over f l) (sum_over g l). lia.
Qed.

Lemma sum_over_zero {A} (l : list A) : sum_over (fun _ => 0) l = 0.
Proof. induction l as [|x l IH]; [done|]. cbn [sum_over fold_right]. exact IH. Qed.

Lemma sum_over_absent (l : string) (c : Z) (ks : list string) :
  ~ In l ks -> sum_over (fun k => if String.eqb l k then c else 0) ks = 0.
Proof.
  induction ks as [|k ks IH]; intros Hl; cbn [sum_over fold_right]; [done|].
  fold (sum_over (fun k => if String.eqb l k then c else 0) ks).
  destruct (String.eqb_spec l k) as [->|_]; [exfalso; apply Hl; by left|].
  rewrite IH; [done|]. intros Hin. apply Hl. by right.
Qed.

(** Among distinct keys a label is met once. *)
Lemma sum_over_once (l : string) (c : Z) (ks : list string) :
  List.NoDup ks -> In l ks ->
  sum_over (fun k => if String.eqb l k then c else 0) ks = c.
Proof.
  induction ks as [|k ks IH]; intros Hnd Hl; [done|].
  apply List.NoDup_cons_iff in Hnd as [Hk Hnd].
  cbn [sum_over fold_right].
  fold (sum_over (fun k => if String.eqb l k then c else 0) ks).
  destruct (String.eqb_spec l k) as [->|Hne].
  - rewrite sum_over_absent by done. lia.
  - rewrite IH; [lia | done |]. destruct Hl as [->|]; done.
Qed.

(** A sum over the hours is the sum, over the months, of the sums over
    the hours of each month. *)
Lemma partition_sum (f : num -> Z) (ks : list string) (incs : list (string * num)) :
  List.NoDup ks ->
  Forall (fun inc => In inc.1 ks) incs ->
  sum_over f (map snd incs) = sum_over (fun k => sum_over f (month_litres k incs)) ks.
Proof.
  intros Hnd. induction incs as [|[l w] incs IH]; intros Hin.
  - unfold month_litres. cbn [map List.filter]. by rewrite sum_over_zero.
  - apply Forall_cons in Hin as [Hl Hin]. cbn [fst] in Hl.
    cbn [map snd sum_over fold_right]. fold (sum_over f (map snd incs)).
    rewrite (sum_over_ext _ (fun k => (if String.eqb l k then f w else 0)
                                      + sum_over f (month_litres k incs))).
    + rewrite sum_over_add, sum_over_once, IH by done. done.
    + intros k _. unfold month_litres. cbn [List.filter fst].
      destruct (String.eqb l k); [|done]. reflexivity.
Qed.

Lemma bucket_get_In {A} (m : list (string * A)) (k : string) (b : A) :
  List.NoDup (map fst m) -> In (k, b) m -> bucket_get k m = Some b.
Proof.
  induction m as [|[k' x] m IH]; intros Hnd Hin; [done|].
  cbn [map fst] in Hnd. apply List.NoDup_cons_iff in Hnd as [Hk Hnd].
  cbn [bucket_get]. destruct Hin as [[= -> ->]|Hin].
  - by rewrite String.eqb_refl.
  - destruct (String.eqb_spec k' k) as [->|_]; [|by apply IH].
    exfalso. apply Hk. apply in_map_iff. by exists (k, b).
Qed.

End Partition.

Section BucketSum.

Lemma same_number_units x y : same_number x y -> units x = units y.
Proof. intros [->|[Hx Hy]]; [done|]. by destruct x, y. Qed.

Lemma same_number_finite x y : same_number x y -> is_finite x = true -> is_finite y = true.
Proof. intros [->|[Hx Hy]]; [done|]. by destruct x, y. Qed.

Lemma same_number_double x y : same_number x y -> is_double y -> is_double x.
Proof. intros [->|[Hx Hy]]; [done|]. by destruct x, y. Qed.

Lemma month_litres_length k incs : (length (month_litres k incs) <= length incs)%nat.
Proof.
  unfold month_litres. induction incs as [|[l w] incs IH]; [done|].
  cbn [List.filter fst]. destruct (String.eqb l k); cbn [map length]; lia.
Qed.

Lemma month_litres_double k incs :
  Forall is_double (map snd incs) -> Forall is_double (month_litres k incs).
Proof.
  unfold month_litres. induction incs as [|[l w] incs IH]; intros Hd; [constructor|].
  cbn [map snd] in Hd. apply Forall_cons in Hd as [Hw Hd].
  cbn [List.filter fst]. destruct (String.eqb l k); [|by apply IH].
  cbn [map snd]. constructor; [done | by apply IH].
Qed.

(** Buckets that are each within the tolerance of the exact sum of their
    month: their exact sum is within the tolerance of the exact sum of
    all months. *)
Lemma buckets_sum_bound (n : Z) (F G : string -> Z) (m : list (string * num)) :
  0 <= n ->
  Forall (fun kb => (2 ^ 52) ^ n * Z.abs (units kb.2 - F kb.1) <= slack n * G kb.1
                    /\ Z.abs (F kb.1) <= G kb.1) m ->
  (2 ^ 52) ^ n * Z.abs (units_sum (map snd m) - sum_over F (map fst m))
  <= slack n * sum_over G (map fst m)
  /\ (2 ^ 52) ^ n * units_abs (map snd m) <= (2 ^ 52 + 1) ^ n * sum_over G (map fst m).
Proof.
  intros Hn Hm.
  assert (0 < (2 ^ 52) ^ n) as Hp by (apply Z.pow_pos_nonneg; lia).
  assert ((2 ^ 52 + 1) ^ n = slack n + (2 ^ 52) ^ n) as Hq by (unfold slack; lia).
  rewrite Hq. clear Hq.
  set (p := (2 ^ 52) ^ n) in *. set (s := slack n) in *.
  unfold units_sum, units_abs.
  induction m as [|[k b] m IH]; cbn [map fst snd sum_over fold_right].
  - cbn [Z.abs]. lia.
  - apply Forall_cons in Hm as [[Hb HF] Hm]. cbn [fst snd] in Hb, HF.
    destruct (IH Hm) as [IH1 IH2]. clear IH.
    fold (sum_over units (map snd m)) (sum_over (fun w => Z.abs (units w)) (map snd m))
      (sum_over F (map fst m)) (sum_over G (map fst m)) in *.
    set (SB := sum_over units (map snd m)) in *.
    set (AB := sum_over (fun w => Z.abs (units w)) (map snd m)) in *.
    set (SF := sum_over F (map fst m)) in *. set (SG := sum_over G (map fst m)) in *.
    set (e1 := Z.abs (units b - F k)) in *. set (e2 := Z.abs (SB - SF)) in *.
    assert (p * Z.abs (units b + SB - (F k + SF)) <= p * (e1 + e2)) as H1
      by (apply Z.mul_le_mono_nonneg_l; lia).
    assert (p * Z.abs (units b) <= p * (G k + e1)) as H2
      by (apply Z.mul_le_mono_nonneg_l; lia).
    split; lia.
Qed.

(** The grand total and the sum of the buckets are both within the
    tolerance of the exact sum of the litres. *)
Lemma bucket_sum_tolerance (incs : list (string * num)) :
  Forall is_double (map snd incs) ->
  is_finite (accumulate add lit_0 falsy_num incs).2 = true ->
  is_finite (sum_values add lit_0 (accumulate add lit_0 falsy_num incs).1) = true ->
  let n := Z.of_nat (length incs)
           + Z.of_nat (length (accumulate add lit_0 falsy_num incs).1) in
  is_double (accumulate add lit_0 falsy_num incs).2
  /\ is_double (sum_values add lit_0 (accumulate add lit_0 falsy_num incs).1)
  /\ (2 ^ 52) ^ n
     * Z.abs (units (accumulate add lit_0 falsy_num incs).2
              - units (sum_values add lit_0 (accumulate add lit_0 falsy_num incs).1))
     <= 2 * slack n * units_abs (map snd incs).
Proof.
  intros Hdouble Hfin HfinS.
  set (monthly := (accumulate add lit_0 falsy_num incs).1) in *.
  set (total := (accumulate add lit_0 falsy_num incs).2) in *.
  assert (total = fold_left add (map snd incs) lit_0) as Htotal
    by (unfold total, accumulate; by rewrite fold_total).
  assert (Forall (fun w => is_finite w = true) (map snd incs)) as Hfins.
  { rewrite Htotal in Hfin. by apply fold_add_finite_inv in Hfin as [_ ?]. }
  pose proof (accumulate_holds incs Hfins) as Hhold. fold monthly in Hhold.
  assert (map fst monthly = first_seen (map fst incs)) as Hkeys.
  { unfold monthly, accumulate. rewrite fold_keys. cbn [fst map app].
    apply List.forallb_filter_id. apply List.forallb_forall. by intros k _. }
  assert (List.NoDup (map fst monthly)) as Hnd by (rewrite Hkeys; apply first_seen_NoDup).
  assert (Forall (fun inc => In inc.1 (map fst monthly)) incs) as Hcover.
  { rewrite Hkeys. apply List.Forall_forall. intros inc Hinc.
    apply first_seen_In. by apply List.in_map. }
  unfold sum_values in *.
  pose proof (fold_add_finite_inv (map snd monthly) lit_0 HfinS) as [_ Hbfin].
  set (n1 := Z.of_nat (length incs)). set (m1 := Z.of_nat (length monthly)).
  assert (0 <= n1) as Hn1 by lia. assert (0 <= m1) as Hm1 by lia.
  assert (Forall (fun kb =>
            is_double kb.2
            /\ (2 ^ 52) ^ n1 * Z.abs (units kb.2 - units_sum (month_litres kb.1 incs))
               <= slack n1 * units_abs (month_litres kb.1 incs)) monthly) as Hper.
  { apply List.Forall_forall. intros [k b] Hkb. cbn [fst snd].
    pose proof (bucket_get_In monthly k b Hnd Hkb) as Hget.
    specialize (Hhold k). rewrite Hget in Hhold. destruct Hhold as [Hsame _].
    assert (is_finite b = true) as Hb.
    { rewrite List.Forall_forall in Hbfin. apply Hbfin.
      apply (List.in_map snd _ _ Hkb). }
    assert (is_finite (month_total k incs) = true) as Hmt
      by (by eapply same_number_finite).
    change (month_total k incs) with (fold_left add (month_litres k incs) lit_0) in *.
    destruct (fold_error (month_litres k incs) lit_0 I (month_litres_double k incs Hdouble) Hmt)
      as [Hd Hbound].
    split; [by eapply same_number_double|].
    rewrite (same_number_units _ _ Hsame).
    change (units lit_0) with 0 in Hbound. cbn [Z.abs] in Hbound.
    rewrite !Z.add_0_l in Hbound.
    pose proof (month_litres_length k incs) as Hlen.
    replace n1 with (Z.of_nat (length (month_litres k incs))
                     + Z.of_nat (length incs - length (month_litres k incs))) by lia.
    apply slack_mono; [lia | lia | apply units_abs_nonneg | done]. }
  destruct (fold_error (map snd incs) lit_0 I Hdouble ltac:(by rewrite <- Htotal))
    as [HdT HT].
  rewrite <- Htotal in HT, HdT. change (units lit_0) with 0 in HT. cbn [Z.abs] in HT.
  rewrite !Z.add_0_l, length_map in HT. fold n1 in HT.
  assert (Forall is_double (map snd monthly)) as Hbd.
  { apply List.Forall_forall. intros b Hb. apply List.in_map_iff in Hb as ([k b'] & <- & Hkb).
    rewrite List.Forall_forall in Hper. by destruct (Hper _ Hkb). }
  destruct (fold_error (map snd monthly) lit_0 I Hbd HfinS) as [HdS HS].
  change (units lit_0) with 0 in HS. cbn [Z.abs] in HS.
  rewrite !Z.add_0_l, length_map in HS. fold m1 in HS.
  destruct (buckets_sum_bound n1 (fun k => units_sum (month_litres k incs))
              (fun k => units_abs (month_litres k incs)) monthly Hn1) as [HB1 HB2].
  { apply List.Forall_forall. intros kb Hkb. rewrite List.Forall_forall in Hper.
    destruct (Hper _ Hkb) as [_ Hb]. split; [done | apply units_sum_abs]. }
  unfold units_sum at 2 in HB1. unfold units_abs at 1 in HB1. unfold units_abs at 2 in HB2.
  rewrite <- (partition_sum units (map fst monthly) incs Hnd Hcover) in HB1.
  rewrite <- (partition_sum (fun w => Z.abs (units w)) (map fst monthly) incs Hnd Hcover)
    in HB1, HB2.
  fold (units_sum (map snd incs)) in HB1, HT.
  fold (units_abs (map snd incs)) in HB1, HB2.
  cbv zeta. split; [done|]. split; [done|].
  fold n1 m1. rewrite Z.pow_add_r, slack_add by done.
  pose proof (units_abs_nonneg (map snd incs)) as HW.
  pose proof (units_abs_nonneg (map snd monthly)) as HAB.
  pose proof (slack_nonneg n1 Hn1) as Hs1. pose proof (slack_nonneg m1 Hm1) as Hsm.
  assert (0 < (2 ^ 52) ^ n1) as Hp1 by (apply Z.pow_pos_nonneg; lia).
  assert (0 < (2 ^ 52) ^ m1) as Hpm by (apply Z.pow_pos_nonneg; lia).
  assert (0 < (2 ^ 52 + 1) ^ n1) as Hq1 by (apply Z.pow_pos_nonneg; lia).
  set (P1 := (2 ^ 52) ^ n1) in *. set (Pm := (2 ^ 52) ^ m1) in *.
  set (s1 := slack n1) in *. set (sm := slack m1) in *.
  set (Q1 := (2 ^ 52 + 1) ^ n1) in *.
  set (W := units_abs (map snd incs)) in *. set (X := units_sum (map snd incs)) in *.
  set (SB := units_sum (map snd monthly)) in *.
  set (AB := units_abs (map snd monthly)) in *.
  set (uT := units total) in *.
  set (uS := units (fold_left add (map snd monthly) lit_0)) in *.
  set (a := Z.abs (uT - X)) in *. set (b := Z.abs (SB - X)) in *.
  set (c := Z.abs (uS - SB)) in *.
  assert (0 <= P1 * Pm) as HPP by (apply Z.mul_nonneg_nonneg; lia).
  assert (P1 * Pm * Z.abs (uT - uS) <= P1 * Pm * (a + b + c)) as H0
    by (apply Z.mul_le_mono_nonneg_l; lia).
  assert (Pm * (P1 * a) <= Pm * (s1 * W)) as H1 by (apply Z.mul_le_mono_nonneg_l; lia).
  assert (Pm * (P1 * b) <= Pm * (s1 * W)) as H2 by (apply Z.mul_le_mono_nonneg_l; lia).
  assert (P1 * (Pm * c) <= P1 * (sm * AB)) as H3 by (apply Z.mul_le_mono_nonneg_l; lia).
  assert (sm * (P1 * AB) <= sm * (Q1 * W)) as H4 by (apply Z.mul_le_mono_nonneg_l; lia).
  assert (0 <= sm * Q1 * W) as H5 by (apply Z.mul_nonneg_nonneg; [apply Z.mul_nonneg_nonneg|]; lia).
  lia.
Qed.

End BucketSum.

Section HourlyLitres.

Variable fmt : json -> result string.

(** The litres of an hour are a product: a double. *)
Lemma increments_double area precipitation dates index incs :
  increments fmt area precipitation dates index = Ok incs ->
  length incs = length dates /\ Forall is_double (map snd incs).
Proof.
  revert index incs. induction dates as [|date rest IH]; intros index incs.
  - intros [= <-]. split; [done | constructor].
  - cbn [increments].
    destruct (fmt date) as [month|e]; cbn [mbind result_bind]; [|done].
    destruct (get_index precipitation index) as [v|e]; cbn [mbind result_bind]; [|done].
    unfold waterCollected.
    destruct (ToNumber v) as [r|e]; cbn [mbind result_bind]; [|done].
    destruct (increments fmt area precipitation rest (S index)) as [incs'|e] eqn:Hrest;
      cbn [mbind result_bind]; [|done].
    intros [= <-]. destruct (IH (S index) incs' Hrest) as [Hlen Hd].
    cbn [length map snd]. split; [by rewrite Hlen|].
    constructor; [apply mul_double | done].
Qed.

End HourlyLitres.

(** C1, as amended.  When the loop completes, the grand total is the sum,
    in series order, of the litres of all hours.  When that total is
    finite, every month met has a bucket, and each bucket holds, up to the
    sign of a zero, the sum in series order of the litres of the hours of
    its month: total and bucket sum add the same litres, grouped
    differently.  They are then equal within the tolerance of the
    additions: when the sum of the bucket values, added in the order of
    the buckets, is finite as well, it differs from the total by at most
    [2 * ((1 + 2^-52)^k - 1)] times the sum of the magnitudes of the
    litres, [k] the number of hours plus the number of months (the
    values are whole numbers of units of [2^-1074], and the inequality is
    multiplied by [2^(52 k)]).  When all the hours fall in one month and
    the total is not NaN, there is one bucket, it holds the total up to
    the sign of a zero, and the total [===] the sum of the bucket
    values. *)
Theorem total_and_bucket_sum (fmt : json -> result string) (area : num) (ds : list json)
    (precipitation : jsval) (monthly : list (string * num)) (total : num) (n n' : nat) :
  aggregate fmt area (Some (JArr ds)) precipitation n = (Ok (monthly, total), n') ->
  exists incs,
    increments fmt area precipitation ds 0 = Ok incs
    /\ total = fold_left add (map snd incs) lit_0
    /\ (is_finite total = true -> buckets_hold incs monthly)
    /\ (is_finite total = true ->
        is_finite (sum_values add lit_0 monthly) = true ->
        let k := Z.of_nat (length ds) + Z.of_nat (length monthly) in
        is_double total
        /\ is_double (sum_values add lit_0 monthly)
        /\ (2 ^ 52) ^ k * Z.abs (units total - units (sum_values add lit_0 monthly))
           <= 2 * slack k * units_abs (map snd incs))
    /\ (isNaN total = false ->
        forall label, incs <> [] -> Forall (fun inc => inc.1 = label) incs ->
        exists b, monthly = [(label, b)]
                  /\ same_number b total
                  /\ strict_equal total (sum_values add lit_0 monthly) = true).
Proof.
  cbn [aggregate]. rewrite forEach_accumulate.
  destruct (increments fmt area precipitation ds 0) as [incs|e] eqn:Hincs; [|done].
  intros [= Hst _]. exists incs. split; [done|].
  assert (monthly = (accumulate add lit_0 falsy_num incs).1) as Hm
    by (unfold accumulate; by rewrite Hst).
  assert (total = (accumulate add lit_0 falsy_num incs).2) as Ht
    by (unfold accumulate; by rewrite Hst).
  assert (total = fold_left add (map snd incs) lit_0) as Hsum.
  { rewrite Ht. unfold accumulate. by rewrite fold_total. }
  split; [exact Hsum|]. split; [|split].
  - intros Hfin. rewrite Hm. apply accumulate_holds.
    rewrite Hsum in Hfin. by apply fold_add_finite_inv in Hfin as [_ Hfin].
  - intros Hfin HfinS.
    destruct (increments_double fmt area precipitation ds 0 incs Hincs) as [Hlen Hd].
    rewrite <- Hlen, Hm, Ht. apply bucket_sum_tolerance; [done | by rewrite <- Ht |].
    by rewrite <- Hm.
  - intros Hnan label Hne Hall.
    rewrite Ht in Hnan.
    destruct (single_month_accumulate label incs Hne Hall Hnan) as (b & Hb & Hsame).
    exists b. rewrite Hm, Ht. split; [done|]. split; [done|].
    rewrite Hb. unfold sum_values. cbn [map snd fold_left].
    apply strict_equal_same; [|done].
    apply same_number_sym. eapply same_number_trans; [apply add_zero_l | done].
Qed.

(** C1 as stated fails in IEEE arithmetic: for this series the total,
    about 185.80000000000004, is one unit in the last place above the sum
    of the two buckets, 185.8. *)
Lemma total_differs_from_bucket_sum :
  aggregate (Moment.label 0) (parseFloat "1000")
    (Some (JArr midnight_dates)) (Some (JArr midnight_rain)) 0
  = (Ok ([("2024-01"%string, S754_finite false 4902942250578739 (-45));
          ("2024-02"%string, S754_finite false 6537256334104985 (-47))],
         S754_finite false 6537256334104986 (-45)), 3%nat)
  /\ sum_values add lit_0
       [("2024-01"%string, S754_finite false 4902942250578739 (-45));
        ("2024-02"%string, S754_finite false 6537256334104985 (-47))]
     = S754_finite false 6537256334104985 (-45)
  /\ S754_finite false 6537256334104986 (-45) <> S754_finite false 6537256334104985 (-45).
Proof.
  split; [|split].
  - vm_compute. reflexivity.
  - vm_compute. reflexivity.
  - discriminate.
Qed.

(** ** The paths of the handler *)

Section Paths.

Variable fmt : json -> result string.

Lemma water_savings_missing E q w :
  missing q = true ->
  water_savings fmt E q w
  = ({| status := 400; payload := ErrorBody missing_parameters |}, w).
Proof. intros H. unfold water_savings. by rewrite H. Qed.

Lemma water_savings_invalid_area E q w :
  missing q = false -> invalid_area q = true ->
  water_savings fmt E q w
  = ({| status := 400; payload := ErrorBody "Invalid area value" |}, w).
Proof.
  intros Hm Ha. unfold water_savings. rewrite Hm.
  unfold invalid_area in Ha. by rewrite Ha.
Qed.

(** Past the validation the handler fetches, then processes the payload;
    whatever is thrown becomes a 500 with the message of the error. *)
Lemma water_savings_valid E q w :
  missing q = false -> invalid_area q = false ->
  water_savings fmt E q w
  = let '(fetched, w1) :=
      getWeatherData E (text (latitude q)) (text (longitude q))
        (text (startDate q)) (text (endDate q)) w in
    match fetched with
    | Throw e => ({| status := 500; payload := ErrorBody (message e) |}, w1)
    | Ok weatherData =>
        let '(r, n) := process fmt (parseFloat (text (areaSqFt q))) weatherData (iterations w1) in
        let w2 := {| cache := cache w1; calls := calls w1; console := console w1;
                     iterations := n |} in
        match r with
        | Ok res => (res, w2)
        | Throw e => ({| status := 500; payload := ErrorBody (message e) |}, w2)
        end
    end.
Proof.
  intros Hm Ha. unfold water_savings. rewrite Hm.
  unfold invalid_area in Ha. by rewrite Ha.
Qed.

(** What [process] can answer: the structural error, or the report of a
    completed aggregation. *)
Lemma process_ok area data n res n' :
  process fmt area data n = (Ok res, n') ->
  (res = invalid_structure /\ n' = n)
  \/ exists dates precipitation monthly total,
       series data = Ok (dates, precipitation)
       /\ aggregate fmt area dates precipitation n = (Ok (monthly, total), n')
       /\ res = savings monthly total.
Proof.
  unfold process.
  destruct (invalid_shape data) as [[|]|e]; [| |done].
  - intros [= <- <-]. by left.
  - destruct (series data) as [[dates precipitation]|e]; [|done].
    destruct (aggregate fmt area dates precipitation n) as [[[monthly total]|e] n0] eqn:Hagg;
      [|done].
    intros [= <- <-]. right. by exists dates, precipitation, monthly, total.
Qed.

Lemma status_of_validated E q w :
  missing q = false -> invalid_area q = false ->
  status (water_savings fmt E q w).1 = 500 \/ status (water_savings fmt E q w).1 = 200.
Proof.
  intros Hm Ha. rewrite water_savings_valid by done.
  destruct (getWeatherData _ _ _ _ _ _) as [[data|e] w1]; [|by left].
  destruct (process _ _ _ _) as [[res|e] n] eqn:Hp; [|by left].
  apply process_ok in Hp as [[-> _]|(dates & precipitation & monthly & total & _ & _ & ->)].
  - by left.
  - by right.
Qed.

End Paths.

(** ** Validation (C6) *)


(** ** Money saved (C3) *)

Section FixedPoint.












Lemma length_zeros k : String.length (zeros k) = k.
Proof. induction k as [|k IH]; simpl; [done | by rewrite IH]. Qed.

Lemma length_append_text (a b : string) :
  String.length (a ++ b) = (String.length a + String.length b)%nat.
Proof. induction a as [|x a IH]; simpl; [done | by rewrite IH]. Qed.



End FixedPoint.




(** ** The worked example (C9) *)

Section Single.

Variable fmt : json -> result string.

(** A series of one hour. *)
Lemma aggregate_single area date label r n :
  fmt date = Ok label ->
  aggregate fmt area (Some (JArr [date])) (Some (JArr [JNum r])) n
  = (let w := mul (mul area r) lit_0_0929 in
     (Ok ([(label, add lit_0 w)], add lit_0 w), S n)).
Proof.
  intros Hl. simpl. rewrite Hl. simpl. unfold bucket_falsy. simpl.
  by rewrite String.eqb_refl.
Qed.

(** A fetch into an empty cache goes upstream and stores the payload. *)
Lemma getWeatherData_fresh E latitude longitude startDate endDate data :
  upstream E = inl data ->
  getWeatherData E latitude longitude startDate endDate fresh
  = (Ok data,
     {| cache := NodeCache.set (arrival E)
                   (cacheKey latitude longitude startDate endDate) data ∅;
        calls := [(latitude, longitude, startDate, endDate)];
        console := []; iterations := 0 |}).
Proof.
  intros Hup. unfold getWeatherData, NodeCache.get. simpl.
  rewrite lookup_empty. by rewrite Hup.
Qed.

End Single.

(** The answer to the worked example. *)
Lemma example_response (fmt : json -> result string) (label : string) :
  fmt (JStr "2024-01-01T00:00") = Ok label ->
  water_savings fmt example_env example_query fresh
  = ({| status := 200;
        payload := ReportBody
          {| monthlyWaterCollected := [(label, of_Z 929)];
             totalWaterCollected := "929.00";
             moneySaved := "1.39";
             waterCostPer1000LitrePounds := WATER_COST_PER_1000_LITRES;
             waterCollectedFormula := formula_text |} |},
     {| cache := NodeCache.set (arrival example_env) (key_of example_query)
                   example_payload ∅;
        calls := [fetch_params example_query];
        console := []; iterations := 1 |}).
Proof.
  intros Hl.
  rewrite water_savings_valid by reflexivity.
  rewrite (getWeatherData_fresh example_env _ _ _ _ example_payload) by reflexivity.
  unfold process.
  change (invalid_shape example_payload) with (Ok false : result bool).
  change (series example_payload)
    with (Ok (Some (JArr [JStr "2024-01-01T00:00"]), Some (JArr [JNum (of_Z 10)]))
          : result (jsval * jsval)).
  cbv beta iota. rewrite (aggregate_single fmt _ _ label) by done.
  cbn [iterations cache calls console]. reflexivity.
Qed.

(** C9.  For 1000 sq ft and a single hourly entry of 10 mm on 1 January
    2024 the answer is 200, with one bucket of exactly 929 litres
    ([1000 * 10 * 0.0929]) under the month label of that timestamp (which
    moment prints as "2024-01" in every zone), [totalWaterCollected]
    "929.00" and [moneySaved] "1.39". *)
Theorem example_929_litres :
  (forall (fmt : json -> result string) (label : string),
      fmt (JStr "2024-01-01T00:00") = Ok label ->
      (water_savings fmt example_env example_query fresh).1
      = {| status := 200;
           payload := ReportBody
             {| monthlyWaterCollected := [(label, of_Z 929)];
                totalWaterCollected := "929.00";
                moneySaved := "1.39";
                waterCostPer1000LitrePounds := WATER_COST_PER_1000_LITRES;
                waterCollectedFormula := formula_text |} |})
  /\ (forall zone : Z,
        Moment.format zone (JStr "2024-01-01T00:00") = Some (Ok "2024-01"%string))
  /\ mul (mul (of_Z 1000) (of_Z 10)) lit_0_0929 = of_Z 929
  /\ toFixed2 (mul (div (of_Z 929) (of_Z 1000)) WATER_COST_PER_1000_LITRES) = "1.39"%string.
Proof.
  split; [|split; [|split]].
  - intros fmt label Hl. by rewrite (example_response fmt label Hl).
  - intros zone. reflexivity.
  - vm_compute. reflexivity.
  - vm_compute. reflexivity.
Qed.

(** ** Arrays of unequal length (C10) *)

Section Unequal.

Variable fmt : json -> result string.

(** Once the total is NaN, or once the loop reaches the end of the
    precipitation array, the total ends as NaN. *)
Lemma forEach_total_nan area ps ds index monthly total n :
  Forall coercible ps ->
  labelled fmt ds ->
  isNaN total = true \/ (index <= length ps < index + length ds)%nat ->
  exists monthly',
    forEach fmt area (Some (JArr ps)) ds index (monthly, total) n
    = (Ok (monthly', nan), (n + length ds)%nat).
Proof.
  intros Hps Hds. revert index monthly total n.
  induction Hds as [|date rest [label Hl] Hds IH]; intros index monthly total n Hcase.
  - destruct Hcase as [Hnan|Hlen]; [|simpl in Hlen; lia].
    destruct total; try done. exists monthly. simpl. by rewrite Nat.add_0_r.
  - cbn [forEach]. unfold callback. rewrite Hl. cbn [get_index mbind result_bind].
    destruct (ps !! index) as [p|] eqn:Hp.
    + assert (coercible p) as [r Hr].
      { eapply Forall_forall; [exact Hps|]. by eapply list_elem_of_lookup_2. }
      unfold waterCollected. rewrite Hr. cbn [mbind result_bind].
      edestruct (IH (S index)) as [monthly' ->].
      { destruct Hcase as [Hnan|Hlen].
        - left. destruct total; try done.
        - right. apply lookup_lt_Some in Hp. simpl in Hlen. lia. }
      exists monthly'. f_equal. simpl. lia.
    + unfold waterCollected. cbn [ToNumber mbind result_bind].
      rewrite mul_nan_r, mul_nan_l, !add_nan_r.
      edestruct (IH (S index)) as [monthly' ->]; [left; reflexivity|].
      exists monthly'. f_equal. simpl. lia.
Qed.

End Unequal.

Section Shape.

Lemma field_object name data v :
  field name data = Some v -> exists o, data = JObj o /\ own name o = Some v.
Proof. destruct data; try done. intros H. by eexists. Qed.

(** A payload with the two arrays passes the check of line 75, and lines
    80 and 81 read the arrays. *)
Lemma has_series_shape data ds ps :
  has_series data ds ps ->
  invalid_shape data = Ok false
  /\ series data = Ok (Some (JArr ds), Some (JArr ps)).
Proof.
  intros (hourly & Hh & Ht & Hp).
  apply field_object in Hh as (o & -> & Hh).
  apply field_object in Ht as (o' & -> & Ht).
  simpl in Hp.
  unfold invalid_shape, series. simpl. rewrite Hh. simpl. rewrite Ht, Hp. done.
Qed.

End Shape.

(** C10, as amended.  The aggregation does not depend on the two arrays
    having one length: when the payload has both arrays, the precipitation
    array is shorter than the time array, its entries are values that
    multiply without throwing, and moment returns a label for every
    timestamp, the handler answers 200, the callback has run once per
    timestamp, and [totalWaterCollected] and [moneySaved] are the text
    "NaN". *)
Theorem short_precipitation_gives_NaN (fmt : json -> result string) (E : env) (q : query)
    (w w1 : world) (data : json) (ds ps : list json) :
  missing q = false ->
  invalid_area q = false ->
  getWeatherData E (text (latitude q)) (text (longitude q))
    (text (startDate q)) (text (endDate q)) w = (Ok data, w1) ->
  has_series data ds ps ->
  (length ps < length ds)%nat ->
  Forall coercible ps ->
  labelled fmt ds ->
  exists monthly,
    water_savings fmt E q w
    = ({| status := 200;
          payload := ReportBody
            {| monthlyWaterCollected := monthly;
               totalWaterCollected := "NaN";
               moneySaved := "NaN";
               waterCostPer1000LitrePounds := WATER_COST_PER_1000_LITRES;
               waterCollectedFormula := formula_text |} |},
       {| cache := cache w1; calls := calls w1; console := console w1;
          iterations := (iterations w1 + length ds)%nat |}).
Proof.
  intros Hm Ha Hfetch Hseries Hlen Hps Hds.
  rewrite water_savings_valid, Hfetch by done.
  apply has_series_shape in Hseries as [Hshape Hs].
  unfold process. rewrite Hshape, Hs. cbn [aggregate].
  destruct (forEach_total_nan fmt (parseFloat (text (areaSqFt q))) ps ds 0 [] lit_0
              (iterations w1) Hps Hds) as [monthly ->].
  { right. lia. }
  by exists monthly.
Qed.

(** C10 as stated fails when a precipitation entry cannot be converted to
    a number, and when moment throws on a timestamp.  With an object that
    has a member [toString] as only precipitation entry, the
    multiplication throws and the answer is 500.  With an array that
    holds such an object as first timestamp, moment throws, and the answer
    is 500 although the one precipitation entry is a number. *)
Lemma unconvertible_entry_answers_500 :
  (has_series (short_payload (JObj [("toString"%string, JNull)]))
     [JStr "2024-01-01T00:00"; JStr "2024-01-01T01:00"]
     [JObj [("toString"%string, JNull)]]
   /\ (water_savings (Moment.label 0)
         (env_of (short_payload (JObj [("toString"%string, JNull)])))
         example_query fresh).1
      = {| status := 500;
           payload := ErrorBody "Cannot convert object to primitive value" |})
  /\ (has_series unreadable_time_payload
         [JArr [JObj [("toString"%string, JNull)]]; JStr "2024-01-01T01:00"]
         [JNum (of_Z 10)]
      /\ Forall coercible [JNum (of_Z 10)]
      /\ Moment.format 0 (JArr [JObj [("toString"%string, JNull)]])
         = Some (Throw not_primitive)
      /\ (water_savings (Moment.label 0) (env_of unreadable_time_payload)
            example_query fresh).1
         = {| status := 500;
              payload := ErrorBody "Cannot convert object to primitive value" |}).
Proof.
  split; [split | split; [|split; [|split]]].
  - eexists. repeat split; reflexivity.
  - rewrite water_savings_valid by reflexivity.
    rewrite (getWeatherData_fresh _ _ _ _ _
               (short_payload (JObj [("toString"%string, JNull)]))) by reflexivity.
    reflexivity.
  - eexists. repeat split; reflexivity.
  - repeat constructor. by eexists.
  - reflexivity.
  - rewrite water_savings_valid by reflexivity.
    rewrite (getWeatherData_fresh _ _ _ _ _ unreadable_time_payload) by reflexivity.
    reflexivity.
Qed.

(** ** Malformed payloads (C7) *)

Section Malformed.

(** The check of line 75 on a payload other than [null] that lacks one of
    the three members. *)
Lemma lacks_series_shape data :
  lacks_series data -> data <> JNull -> invalid_shape data = Ok true.
Proof.
  unfold lacks_series, invalid_shape. intros Hlacks Hnull.
  destruct data as [| b | x | s | l | o]; try done.
  simpl in *. destruct (own "hourly" o) as [hourly|]; [|done].
  cbn [mbind result_bind].
  destruct (ToBoolean (Some hourly)) eqn:Hh; [|done].
  cbn [negb].
  destruct hourly as [| b | x | s | l | o']; try done.
  simpl in *.
  destruct (own "time" o') as [time|]; cbn [mbind result_bind]; [|done].
  destruct (ToBoolean (Some time)); [|done].
  cbn [negb].
  destruct Hlacks as [?| ->]; done.
Qed.

End Malformed.

(** C7 at the payload [null], where the code misses.  The payload lacks
    [hourly]; line 75 reads [weatherData.hourly] without testing
    [weatherData], the read throws inside the [try] block, and the answer
    is 500 with the message of that TypeError, not "Invalid weather data
    structure". *)
Theorem null_payload_other_error :
  lacks_series JNull
  /\ (water_savings (Moment.label 0) (env_of JNull) example_query fresh).1
     = {| status := 500;
          payload := ErrorBody "Cannot read properties of null (reading 'hourly')" |}
  /\ (water_savings (Moment.label 0) (env_of JNull) example_query fresh).1
     <> invalid_structure.
Proof.
  split; [exact I|].
  rewrite water_savings_valid by reflexivity.
  rewrite (getWeatherData_fresh _ _ _ _ _ JNull) by reflexivity.
  split; [reflexivity | discriminate].
Qed.

(** ** The copies that the cache makes *)

Section Copies.

Lemma clone_truthy v : ToBoolean (Some (clone v)) = ToBoolean (Some v).
Proof. by destruct v. Qed.

(** A copy of a copy is the copy. *)
Lemma clone_idempotent : forall v, clone (clone v) = clone v.
Proof.
  fix IH 1. intros [| b | x | s | l | o]; try reflexivity.
  - cbn [clone]. f_equal.
    induction l as [|x l IHl]; [reflexivity|].
    cbn [List.map]. by rewrite (IH x), IHl.
  - cbn [clone]. f_equal.
    induction o as [|[k x] o IHo]; [reflexivity|].
    destruct (not_copied k) eqn:Hk; [exact IHo|].
    rewrite Hk. by rewrite (IH x), IHo.
Qed.

End Copies.

(** ** Upstream failures (C8) *)

Section Cache.

Import NodeCache.

Lemma get_store_subseteq t key c : (get t key c).2 ⊆ c.
Proof.
  unfold get. destruct (c !! key) as [d|]; [|done].
  destruct (expired t d); simpl; [apply delete_subseteq | done].
Qed.

Lemma get_store_other t key key' c :
  key' <> key -> (get t key c).2 !! key' = c !! key'.
Proof.
  intros Hne. unfold get. destruct (c !! key) as [d|]; [|done].
  destruct (expired t d); simpl; [by rewrite lookup_delete_ne | done].
Qed.

Lemma expired_later t t' d : t <= t' -> expired t d = true -> expired t' d = true.
Proof.
  unfold expired. intros Hle.
  destruct (NodeCache.t d =? 0); simpl; [done|].
  intros Hlt%Z.ltb_lt. apply Z.ltb_lt. lia.
Qed.

Lemma get_value t key c :
  (get t key c).1
  = match c !! key with
    | Some d => if expired t d then None else Some (clone (v d))
    | None => None
    end.
Proof.
  unfold get. destruct (c !! key) as [d|]; [|done]. by destruct (expired t d).
Qed.

Lemma get_store_same t key c :
  (get t key c).2 !! key
  = match c !! key with
    | Some d => if expired t d then None else Some d
    | None => None
    end.
Proof.
  unfold get. destruct (c !! key) as [d|] eqn:Hd; [|done].
  destruct (expired t d); simpl; [apply lookup_delete_eq | done].
Qed.

(** The deletion of an expired entry is invisible to every later
    lookup. *)
Lemma get_store_served t key c t' key' :
  t <= t' -> served t' key' (get t key c).2 = served t' key' c.
Proof.
  intros Hle. unfold served. rewrite !get_value.
  destruct (String.eqb_spec key' key) as [->|Hne].
  - rewrite get_store_same. destruct (c !! key) as [d|]; [|done].
    destruct (expired t d) eqn:Hexp; [|done].
    by rewrite (expired_later t t' d Hle Hexp).
  - by rewrite get_store_other.
Qed.

(** So is the periodic sweep. *)
Lemma checkData_served t0 c t key :
  t0 <= t -> served t key (checkData t0 c) = served t key c.
Proof.
  intros Hle. unfold served. rewrite !get_value. unfold checkData.
  destruct (c !! key) as [d|] eqn:Hd.
  - destruct (expired t0 d) eqn:Hexp.
    + rewrite (expired_later t0 t d Hle Hexp).
      assert (filter (fun kd : string * entry => expired t0 kd.2 = false) c !! key = None)
        as ->; [|done].
      apply map_lookup_filter_None. right. intros d' Hd'. simpl.
      rewrite Hd in Hd'. injection Hd' as <-. by rewrite Hexp.
    + assert (filter (fun kd : string * entry => expired t0 kd.2 = false) c !! key = Some d)
        as ->; [|done].
      by apply map_lookup_filter_Some.
  - assert (filter (fun kd : string * entry => expired t0 kd.2 = false) c !! key = None)
      as ->; [|done].
    apply map_lookup_filter_None. by left.
Qed.

End Cache.


(** C8.  When the cache has nothing usable for the request and the
    upstream request fails for good with message [msg], the fetcher throws
    that error, the endpoint answers 500 with [msg] as error, one upstream
    request has been issued, the loop has not run, and the cache holds
    nothing new: its store is the one the lookup left, a part of the old
    store that answers every later lookup as the old store did. *)
Theorem upstream_failure_answers_500 (fmt : json -> result string) (E : env) (q : query)
    (w : world) (msg : string) :
  missing q = false ->
  invalid_area q = false ->
  cache_miss E q w ->
  upstream E = inr msg ->
  exists w',
    getWeatherData E (text (latitude q)) (text (longitude q))
      (text (startDate q)) (text (endDate q)) w = (Throw (Thrown msg), w')
    /\ water_savings fmt E q w = ({| status := 500; payload := ErrorBody msg |}, w')
    /\ calls w' = fetch_params q :: calls w
    /\ iterations w' = iterations w
    /\ cache w' = (NodeCache.get (now E) (key_of q) (cache w)).2
    /\ cache w' ⊆ cache w
    /\ forall t key, now E <= t -> served t key (cache w') = served t key (cache w).
Proof.
  intros Hm Ha Hmiss Hup.
  rewrite water_savings_valid by done.
  unfold getWeatherData. unfold cache_miss, key_of in Hmiss.
  destruct (NodeCache.get (now E) _ (cache w)) as [cached c] eqn:Hget.
  simpl in Hmiss.
  assert (match cached with
          | Some d => if ToBoolean cached then Some d else None
          | None => None
          end = None) as ->.
  { destruct cached; [by rewrite Hmiss | done]. }
  rewrite Hup. eexists. split; [reflexivity|]. split; [reflexivity|].
  simpl. split; [done|]. split; [done|]. split; [done|].
  assert (c = (NodeCache.get (now E)
      (cacheKey (text (latitude q)) (text (longitude q)) (text (startDate q))
         (text (endDate q))) (cache w)).2) as -> by (by rewrite Hget).
  split.
  - apply get_store_subseteq.
  - intros t key Hle. by apply get_store_served.
Qed.

(** ** Cache hits within the time to live (C5) *)

Section Hits.

Import NodeCache.

Variable fmt : json -> result string.

Lemma not_expired_until t d : t <= NodeCache.t d -> expired t d = false.
Proof.
  intros Hle. unfold expired.
  destruct (NodeCache.t d =? 0); simpl; [done|]. apply Z.ltb_ge. lia.
Qed.

(** A live entry with a truthy value stays in the store through any
    fetch. *)
Lemma getWeatherData_keeps E latitude longitude startDate endDate w key d :
  cache w !! key = Some d ->
  expired (now E) d = false ->
  ToBoolean (Some (v d)) = true ->
  cache (getWeatherData E latitude longitude startDate endDate w).2 !! key = Some d.
Proof.
  intros Hd Hlive Htrue. unfold getWeatherData.
  destruct (String.eqb_spec (cacheKey latitude longitude startDate endDate) key)
    as [->|Hne].
  - unfold get. rewrite Hd, Hlive, clone_truthy, Htrue. done.
  - pose proof (get_store_other (now E)
                  (cacheKey latitude longitude startDate endDate) key (cache w))
      as Hother.
    destruct (get (now E) _ (cache w)) as [cached c]. simpl in Hother.
    rewrite <- Hd, <- Hother by done.
    destruct (match cached with
              | Some d0 => if ToBoolean cached then Some d0 else None
              | None => None
              end); [done|].
    destruct (upstream E); simpl; [|done].
    unfold set. by rewrite lookup_insert_ne.
Qed.

Lemma water_savings_keeps E q w key d :
  cache w !! key = Some d ->
  expired (now E) d = false ->
  ToBoolean (Some (v d)) = true ->
  cache (water_savings fmt E q w).2 !! key = Some d.
Proof.
  intros Hd Hlive Htrue.
  destruct (missing q) eqn:Hm; [by rewrite water_savings_missing|].
  destruct (invalid_area q) eqn:Ha; [by rewrite water_savings_invalid_area|].
  rewrite water_savings_valid by done.
  pose proof (getWeatherData_keeps E (text (latitude q)) (text (longitude q))
                (text (startDate q)) (text (endDate q)) w key d Hd Hlive Htrue) as Hk.
  destruct (getWeatherData _ _ _ _ _ _) as [[data|e] w1]; [|done].
  destruct (process _ _ _ _) as [[res|e] n]; done.
Qed.

Lemma checkData_keeps t (c : gmap string entry) key d :
  c !! key = Some d -> expired t d = false -> checkData t c !! key = Some d.
Proof.
  intros Hd Hlive. unfold checkData. by apply map_lookup_filter_Some.
Qed.

Lemma serve_keeps evs w key d :
  cache w !! key = Some d ->
  Forall (fun ev => time_of ev <= NodeCache.t d) evs ->
  ToBoolean (Some (v d)) = true ->
  cache (serve fmt evs w) !! key = Some d.
Proof.
  intros Hd Hevs Htrue. revert w Hd.
  induction Hevs as [|ev evs Hev Hevs IH]; intros w Hd; [done|].
  unfold serve. cbn [fold_left]. apply IH.
  destruct ev as [E q|t]; cbn [happen time_of] in *.
  - apply water_savings_keeps; [done | by apply not_expired_until | done].
  - cbn [cache]. apply checkData_keeps; [done | by apply not_expired_until].
Qed.

(** A fetch that finds a live, truthy entry under its key returns a copy
    of it and issues nothing. *)
Lemma getWeatherData_hit E latitude longitude startDate endDate w d :
  cache w !! cacheKey latitude longitude startDate endDate = Some d ->
  expired (now E) d = false ->
  ToBoolean (Some (v d)) = true ->
  getWeatherData E latitude longitude startDate endDate w
  = (Ok (clone (v d)),
     {| cache := cache w; calls := calls w;
        console := "Returning cached data"%string :: console w;
        iterations := iterations w |}).
Proof.
  intros Hd Hlive Htrue. unfold getWeatherData, get.
  by rewrite Hd, Hlive, clone_truthy, Htrue.
Qed.

(** A fetch that finds nothing usable goes upstream and stores what it
    gets. *)
Lemma getWeatherData_miss E latitude longitude startDate endDate w data :
  ToBoolean (served (now E) (cacheKey latitude longitude startDate endDate) (cache w))
  = false ->
  upstream E = inl data ->
  exists c,
    getWeatherData E latitude longitude startDate endDate w
    = (Ok data,
       {| cache := set (arrival E) (cacheKey latitude longitude startDate endDate) data c;
          calls := (latitude, longitude, startDate, endDate) :: calls w;
          console := console w; iterations := iterations w |}).
Proof.
  unfold served, getWeatherData. intros Hmiss Hup.
  destruct (get (now E) _ (cache w)) as [cached c]. simpl in Hmiss.
  exists c.
  assert (match cached with
          | Some d => if ToBoolean cached then Some d else None
          | None => None
          end = None) as ->.
  { destruct cached; [by rewrite Hmiss | done]. }
  by rewrite Hup.
Qed.

End Hits.

(** X21.  When a fetch finds nothing usable in the cache and the upstream
    answers with a truthy payload (any object or array, so any weather
    series) without a member named [__proto__], then, whatever requests are
    served and whatever sweeps of the cache happen in between up to the
    end of the 3600 seconds from the arrival of that answer, a fetch of
    the same four parameters made within those 3600 seconds returns the
    copy of the payload that the cache made, issues no upstream request
    and leaves the store as it is.  A lookup returns a copy of a stored
    entry that has not expired, never an expired one, and an entry stored
    at or after time zero is expired once 3600 seconds have passed. *)
Theorem cached_within_ttl :
  (forall (fmt : json -> result string) (E1 E2 : env)
          (latitude longitude startDate endDate : string)
          (w : world) (data : json) (evs : list event),
      ToBoolean (served (now E1) (cacheKey latitude longitude startDate endDate) (cache w))
      = false ->
      upstream E1 = inl data ->
      ToBoolean (Some data) = true ->
      ordinary data = true ->
      Forall (fun ev => time_of ev <= arrival E1 + ttl_ms) evs ->
      now E2 <= arrival E1 + ttl_ms ->
      let first := getWeatherData E1 latitude longitude startDate endDate w in
      let w2 := serve fmt evs first.2 in
      first.1 = Ok data
      /\ calls first.2 = (latitude, longitude, startDate, endDate) :: calls w
      /\ getWeatherData E2 latitude longitude startDate endDate w2
         = (Ok (clone data),
            {| cache := cache w2; calls := calls w2;
               console := "Returning cached data"%string :: console w2;
               iterations := iterations w2 |}))
  /\ (forall (t : Z) (key : string) (c : gmap string NodeCache.entry) (v : json),
      served t key c = Some v ->
      exists d, c !! key = Some d /\ clone (NodeCache.v d) = v
                /\ NodeCache.expired t d = false)
  /\ (forall (stored t : Z) (key : string) (data : json) (c : gmap string NodeCache.entry),
      0 <= stored ->
      stored + ttl_ms < t ->
      served t key (NodeCache.set stored key data c) = None).
Proof.
  split.
  - intros fmt E1 E2 latitude longitude startDate endDate w data evs
      Hmiss Hup Htrue _ Hevs Hnow first w2.
    destruct (getWeatherData_miss E1 latitude longitude startDate endDate w data Hmiss Hup)
      as [c Hfirst].
    subst first w2. rewrite Hfirst. cbn [fst snd calls].
    split; [done|]. split; [done|].
    set (d := {| NodeCache.v := clone data; NodeCache.t := arrival E1 + ttl_ms |}).
    set (w1 := {| cache := NodeCache.set (arrival E1)
                             (cacheKey latitude longitude startDate endDate) data c;
                  calls := (latitude, longitude, startDate, endDate) :: calls w;
                  console := console w; iterations := iterations w |}).
    assert (ToBoolean (Some (NodeCache.v d)) = true) as Hd_true
      by (unfold d; cbn [NodeCache.v]; by rewrite clone_truthy).
    assert (cache (serve fmt evs w1) !! cacheKey latitude longitude startDate endDate
            = Some d) as Hd.
    { apply serve_keeps; [apply lookup_insert_eq | exact Hevs | exact Hd_true]. }
    rewrite (getWeatherData_hit E2 latitude longitude startDate endDate _ d Hd).
    + unfold d. cbn [NodeCache.v]. by rewrite clone_idempotent.
    + by apply not_expired_until.
    + exact Hd_true.
  - split.
    + intros t key c v. unfold served. rewrite get_value.
      destruct (c !! key) as [d|]; [|done].
      destruct (NodeCache.expired t d) eqn:Hexp; [done|].
      intros [= <-]. by exists d.
    + intros stored t key data c Hstored Hlate.
      unfold served, NodeCache.set. rewrite get_value, lookup_insert_eq.
      unfold NodeCache.expired, ttl_ms in *. cbn [NodeCache.t].
      destruct (Z.eqb_spec (stored + NodeCache.stdTTL * 1000) 0) as [Hz|_].
      * unfold NodeCache.stdTTL in Hz. lia.
      * destruct (Z.ltb_spec (stored + NodeCache.stdTTL * 1000) t); [done | lia].
Qed.

(** C5 at an empty body, where the code misses.  The upstream answers
    200 with an empty body, so that [response.data] is the empty text;
    the fetch stores it, and one minute later, well within the 3600
    seconds, the cache returns it to the same fetch, which fails the test
    [if (cachedData)] and goes upstream again. *)
Theorem empty_body_fetched_twice :
  let first := getWeatherData empty_body_env "51.5" "-0.12" "2024-01-01" "2024-01-01" fresh in
  let second :=
    getWeatherData minute_later_env "51.5" "-0.12" "2024-01-01" "2024-01-01" first.2 in
  first.1 = Ok (JStr "")
  /\ calls first.2 = [("51.5", "-0.12", "2024-01-01", "2024-01-01")]%string
  /\ arrival empty_body_env <= now minute_later_env <= arrival empty_body_env + ttl_ms
  /\ (NodeCache.get (now minute_later_env)
        (cacheKey "51.5" "-0.12" "2024-01-01" "2024-01-01") (cache first.2)).1
     = Some (JStr "")
  /\ calls second.2
     = [("51.5", "-0.12", "2024-01-01", "2024-01-01");
        ("51.5", "-0.12", "2024-01-01", "2024-01-01")]%string.
Proof.
  cbv zeta.
  rewrite (getWeatherData_fresh empty_body_env _ _ _ _ (JStr "")) by reflexivity.
  cbn [fst snd calls].
  split; [done|]. split; [done|]. split; [by vm_compute|].
  unfold getWeatherData, NodeCache.get, NodeCache.set. cbn [cache].
  rewrite lookup_insert_eq. split; reflexivity.
Qed.

(** ** Month labels (C4) *)

Section Labels.

Import Moment.












End Labels.



(** * Further properties of [getWeatherData] and of the handler *)

(** ** The cache key *)

Section Keys.

Lemma append_assoc_text (a b c : string) : ((a ++ b) ++ c = a ++ (b ++ c))%string.
Proof.
  induction a as [|x a IH]; [done|].
  change (String x ((a ++ b) ++ c) = String x (a ++ (b ++ c)))%string.
  by rewrite IH.
Qed.

(** A comma-free head is determined by the joined text. *)
Lemma comma_split (a a' r r' : string) :
  comma_free a = true -> comma_free a' = true ->
  (a ++ "," ++ r = a' ++ "," ++ r')%string -> a = a' /\ r = r'.
Proof.
  revert a'. induction a as [|x a IH]; intros a' Ha Ha' Heq.
  - destruct a' as [|x' a']; simpl in *.
    + by injection Heq.
    + injection Heq as <- _. by rewrite Ascii.eqb_refl in Ha'.
  - destruct a' as [|x' a']; simpl in *.
    + injection Heq as -> _. by rewrite Ascii.eqb_refl in Ha.
    + injection Heq as -> Heq.
      apply andb_true_iff in Ha as [_ Ha]. apply andb_true_iff in Ha' as [_ Ha'].
      destruct (IH a' Ha Ha' Heq) as [-> ->]. done.
Qed.

End Keys.

(** X1.  The cache key determines the four parameters when the first three
    contain no comma: two fetches whose latitude, longitude and start date
    are comma-free share a key only if all four parameters are equal. *)
Theorem cacheKey_injective (latitude longitude startDate endDate : string)
    (latitude' longitude' startDate' endDate' : string) :
  comma_free latitude = true -> comma_free longitude = true ->
  comma_free startDate = true ->
  comma_free latitude' = true -> comma_free longitude' = true ->
  comma_free startDate' = true ->
  cacheKey latitude longitude startDate endDate
  = cacheKey latitude' longitude' startDate' endDate' ->
  latitude = latitude' /\ longitude = longitude'
  /\ startDate = startDate' /\ endDate = endDate'.
Proof.
  intros Ha Hb Hc Ha' Hb' Hc'. unfold cacheKey. intros Heq.
  apply comma_split in Heq as [-> Heq]; [|done..].
  apply comma_split in Heq as [-> Heq]; [|done..].
  apply comma_split in Heq as [-> ->]; [|done..].
  done.
Qed.

(** X2.  A comma moved from the latitude to the longitude leaves the key
    as it is: after a fetch for latitude [a,b] and longitude [c] has
    stored a truthy payload (without a member named [__proto__]), a fetch
    for latitude [a] and longitude [b,c] (same dates) made within 3600
    seconds is answered from the cache with the copy of that payload,
    without an upstream request. *)
Theorem comma_shift_shares_entry (E1 E2 : env) (a b c startDate endDate : string)
    (w : world) (data : json) :
  ToBoolean (served (now E1)
               (cacheKey (a ++ "," ++ b) c startDate endDate) (cache w)) = false ->
  upstream E1 = inl data ->
  ToBoolean (Some data) = true ->
  ordinary data = true ->
  now E2 <= arrival E1 + ttl_ms ->
  let first := getWeatherData E1 (a ++ "," ++ b) c startDate endDate w in
  cacheKey (a ++ "," ++ b) c startDate endDate
  = cacheKey a (b ++ "," ++ c) startDate endDate
  /\ first.1 = Ok data
  /\ getWeatherData E2 a (b ++ "," ++ c) startDate endDate first.2
     = (Ok (clone data),
        {| cache := cache first.2; calls := calls first.2;
           console := "Returning cached data"%string :: console first.2;
           iterations := iterations first.2 |}).
Proof.
  intros Hmiss Hup Htrue _ Hnow first.
  assert (cacheKey (a ++ "," ++ b) c startDate endDate
          = cacheKey a (b ++ "," ++ c) startDate endDate) as Hkey.
  { unfold cacheKey. by rewrite !append_assoc_text. }
  split; [exact Hkey|].
  destruct (getWeatherData_miss E1 (a ++ "," ++ b) c startDate endDate w data Hmiss Hup)
    as [c0 Hfirst].
  subst first. rewrite Hfirst. cbn [fst snd]. split; [done|].
  rewrite (getWeatherData_hit E2 a (b ++ "," ++ c) startDate endDate _
             {| NodeCache.v := clone data; NodeCache.t := arrival E1 + ttl_ms |}).
  - cbn [NodeCache.v]. by rewrite clone_idempotent.
  - cbn [cache]. rewrite <- Hkey. apply lookup_insert_eq.
  - by apply not_expired_until.
  - cbn [NodeCache.v]. by rewrite clone_truthy.
Qed.

(** ** What a request leaves alone *)

(** X3.  A request reads and writes the cache under its own key only:
    the entry, or the absence of one, under any other key is as it was
    before the request, whatever the answer. *)
Theorem request_leaves_other_keys (fmt : json -> result string) (E : env) (q : query)
    (w : world) (key : string) :
  key <> key_of q ->
  cache (water_savings fmt E q w).2 !! key = cache w !! key.
Proof.
  intros Hne.
  destruct (missing q) eqn:Hm; [by rewrite water_savings_missing|].
  destruct (invalid_area q) eqn:Ha; [by rewrite water_savings_invalid_area|].
  rewrite water_savings_valid by done.
  assert (cache (getWeatherData E (text (latitude q)) (text (longitude q))
                   (text (startDate q)) (text (endDate q)) w).2 !! key
          = cache w !! key) as Hfetch.
  { unfold getWeatherData. fold (key_of q).
    pose proof (get_store_other (now E) (key_of q) key (cache w) Hne) as Hother.
    destruct (NodeCache.get (now E) (key_of q) (cache w)) as [cached c].
    simpl in Hother. rewrite <- Hother.
    destruct (match cached with
              | Some d0 => if ToBoolean cached then Some d0 else None
              | None => None
              end); [done|].
    destruct (upstream E); simpl; [|done].
    unfold NodeCache.set. by rewrite lookup_insert_ne. }
  destruct (getWeatherData _ _ _ _ _ _) as [[data|e] w1]; [|done].
  destruct (process _ _ _ _) as [[res|e] n]; done.
Qed.

(** X11.  A request issues at most one upstream fetch: the log of fetches
    after the request is the log before it, or that log with the four
    parameters of the request in front; a request that fails validation
    issues none. *)
Theorem at_most_one_fetch (fmt : json -> result string) (E : env) (q : query) (w : world) :
  (calls (water_savings fmt E q w).2 = calls w
   \/ calls (water_savings fmt E q w).2 = fetch_params q :: calls w)
  /\ (status (water_savings fmt E q w).1 = 400 ->
      calls (water_savings fmt E q w).2 = calls w).
Proof.
  destruct (missing q) eqn:Hm.
  { rewrite water_savings_missing by done. split; [by left | done]. }
  destruct (invalid_area q) eqn:Ha.
  { rewrite water_savings_invalid_area by done. split; [by left | done]. }
  pose proof (status_of_validated fmt E q w Hm Ha) as Hstatus.
  split; [|intros H400; rewrite H400 in Hstatus; by destruct Hstatus].
  rewrite water_savings_valid by done.
  assert (calls (getWeatherData E (text (latitude q)) (text (longitude q))
                   (text (startDate q)) (text (endDate q)) w).2 = calls w
          \/ calls (getWeatherData E (text (latitude q)) (text (longitude q))
                      (text (startDate q)) (text (endDate q)) w).2
             = fetch_params q :: calls w) as Hfetch.
  { unfold getWeatherData.
    destruct (NodeCache.get (now E) _ (cache w)) as [cached c].
    destruct (match cached with
              | Some d0 => if ToBoolean cached then Some d0 else None
              | None => None
              end); [by left|].
    destruct (upstream E); by right. }
  destruct (getWeatherData _ _ _ _ _ _) as [[data|e] w1]; [|done].
  destruct (process _ _ _ _) as [[res|e] n]; done.
Qed.

(** X12.  Every answer has status 200, 400 or 500, and carries the report
    exactly when the status is 200: every other answer carries an error
    text. *)
Theorem status_and_body (fmt : json -> result string) (E : env) (q : query) (w : world) :
  (status (water_savings fmt E q w).1 = 200
   \/ status (water_savings fmt E q w).1 = 400
   \/ status (water_savings fmt E q w).1 = 500)
  /\ (status (water_savings fmt E q w).1 = 200
      <-> exists r, payload (water_savings fmt E q w).1 = ReportBody r).
Proof.
  destruct (missing q) eqn:Hm.
  { rewrite water_savings_missing by done. simpl. split; [by right; left|].
    split; [done | by intros [r Hr]]. }
  destruct (invalid_area q) eqn:Ha.
  { rewrite water_savings_invalid_area by done. simpl. split; [by right; left|].
    split; [done | by intros [r Hr]]. }
  rewrite water_savings_valid by done.
  destruct (getWeatherData _ _ _ _ _ _) as [[data|e] w1].
  - destruct (process _ _ _ _) as [[res|e] n] eqn:Hp.
    + apply process_ok in Hp
        as [[-> _]|(dates & precipitation & monthly & total & _ & _ & ->)]; simpl.
      * split; [by right; right|]. split; [done | by intros [r Hr]].
      * split; [by left|]. split; [by eexists | done].
    + simpl. split; [by right; right|]. split; [done | by intros [r Hr]].
  - simpl. split; [by right; right|]. split; [done | by intros [r Hr]].
Qed.

(** ** The time to live *)

Section Expiry.

Import NodeCache.

(** A fetch that finds an expired entry under its key goes upstream. *)
Lemma getWeatherData_expired E latitude longitude startDate endDate w d :
  cache w !! cacheKey latitude longitude startDate endDate = Some d ->
  expired (now E) d = true ->
  (getWeatherData E latitude longitude startDate endDate w).1
  = match upstream E with
    | inl data => Ok data
    | inr msg => Throw (Thrown msg)
    end
  /\ calls (getWeatherData E latitude longitude startDate endDate w).2
     = (latitude, longitude, startDate, endDate) :: calls w.
Proof.
  intros Hd Hexp. unfold getWeatherData, get. rewrite Hd, Hexp.
  by destruct (upstream E).
Qed.

End Expiry.

(** X4.  A cache hit does not prolong the life of the entry: when a fetch
    has stored a truthy payload at a time [arrival >= 0], then, whatever
    requests (hits among them) and sweeps happen during the 3600 seconds
    after, the first fetch of the same parameters made later than that
    goes upstream again. *)
Theorem no_sliding_expiry (fmt : json -> result string) (E1 E2 : env)
    (latitude longitude startDate endDate : string) (w : world) (data : json)
    (evs : list event) :
  ToBoolean (served (now E1) (cacheKey latitude longitude startDate endDate) (cache w))
  = false ->
  upstream E1 = inl data ->
  ToBoolean (Some data) = true ->
  0 <= arrival E1 ->
  Forall (fun ev => time_of ev <= arrival E1 + ttl_ms) evs ->
  arrival E1 + ttl_ms < now E2 ->
  let w2 := serve fmt evs (getWeatherData E1 latitude longitude startDate endDate w).2 in
  (getWeatherData E2 latitude longitude startDate endDate w2).1
  = match upstream E2 with
    | inl data2 => Ok data2
    | inr msg => Throw (Thrown msg)
    end
  /\ calls (getWeatherData E2 latitude longitude startDate endDate w2).2
     = (latitude, longitude, startDate, endDate) :: calls w2.
Proof.
  intros Hmiss Hup Htrue Harr Hevs Hlate w2.
  destruct (getWeatherData_miss E1 latitude longitude startDate endDate w data Hmiss Hup)
    as [c Hfirst].
  subst w2. rewrite Hfirst. cbn [snd].
  set (d := {| NodeCache.v := clone data; NodeCache.t := arrival E1 + ttl_ms |}).
  apply (getWeatherData_expired E2 latitude longitude startDate endDate _ d).
  - apply serve_keeps; [apply lookup_insert_eq | exact Hevs |].
    unfold d. cbn [NodeCache.v]. by rewrite clone_truthy.
  - unfold NodeCache.expired, d, ttl_ms, NodeCache.stdTTL in *. cbn [NodeCache.t].
    destruct (Z.eqb_spec (arrival E1 + 3600 * 1000) 0) as [Hz|_]; [lia|].
    simpl. apply Z.ltb_lt. lia.
Qed.

(** ** Requests answered from the cache *)

Section Answers.

Variable fmt : json -> result string.

(** The accumulators after the loop do not depend on the count of
    invocations before it. *)
Lemma forEach_result area precipitation dates index st n :
  (forEach fmt area precipitation dates index st n).1
  = match increments fmt area precipitation dates index with
    | Ok incs => Ok (fold_left (accumulate_step add lit_0 falsy_num) incs st)
    | Throw e => Throw e
    end.
Proof.
  rewrite forEach_accumulate.
  by destruct (increments fmt area precipitation dates index).
Qed.

Lemma aggregate_result area dates precipitation n :
  (aggregate fmt area dates precipitation n).1
  = (aggregate fmt area dates precipitation 0).1.
Proof.
  destruct dates as [[| | | |ds|]|]; try done.
  cbn [aggregate]. by rewrite !forEach_result.
Qed.

Lemma process_result area data n :
  (process fmt area data n).1 = (process fmt area data 0).1.
Proof.
  unfold process.
  destruct (invalid_shape data) as [[|]|e]; try done.
  destruct (series data) as [[dates precipitation]|e]; [|done].
  pose proof (aggregate_result area dates precipitation n) as Hagg.
  destruct (aggregate fmt area dates precipitation n) as [[[monthly total]|e] n1];
    destruct (aggregate fmt area dates precipitation 0) as [[[monthly0 total0]|e0] n0];
    simpl in Hagg; try done.
  - by injection Hagg as -> ->.
  - by injection Hagg as ->.
Qed.

(** The answer to a validated request is a function of the parsed area
    and of the payload that the fetch returns. *)
Lemma answer_of_payload E q w data w1 :
  missing q = false -> invalid_area q = false ->
  getWeatherData E (text (latitude q)) (text (longitude q))
    (text (startDate q)) (text (endDate q)) w = (Ok data, w1) ->
  (water_savings fmt E q w).1
  = answer_for fmt (parseFloat (text (areaSqFt q))) data
  /\ calls (water_savings fmt E q w).2 = calls w1
  /\ cache (water_savings fmt E q w).2 = cache w1.
Proof.
  intros Hm Ha Hfetch. rewrite water_savings_valid, Hfetch by done.
  unfold answer_for.
  pose proof (process_result (parseFloat (text (areaSqFt q))) data (iterations w1)) as Hp.
  destruct (process fmt _ data (iterations w1)) as [r n].
  simpl in Hp. rewrite <- Hp. by destruct r.
Qed.

End Answers.

(** X5.  The cache key leaves the area out: after a validated request has
    fetched a truthy payload (without a member named [__proto__]), a
    validated request for the same latitude, longitude and dates with any
    area, made within 3600 seconds, issues no upstream fetch, and its
    answer is the one that the copy of the payload made by the cache gives
    for its area.  When the copy is the payload itself, it is the answer
    the request would have got had it been served in place of the first
    one. *)
Theorem other_area_from_cache (fmt : json -> result string) (E1 E2 : env) (q1 q2 : query)
    (w : world) (data : json) (evs : list event) :
  missing q1 = false -> invalid_area q1 = false ->
  missing q2 = false -> invalid_area q2 = false ->
  fetch_params q2 = fetch_params q1 ->
  cache_miss E1 q1 w ->
  upstream E1 = inl data ->
  ToBoolean (Some data) = true ->
  ordinary data = true ->
  Forall (fun ev => time_of ev <= arrival E1 + ttl_ms) evs ->
  now E2 <= arrival E1 + ttl_ms ->
  let w2 := serve fmt evs (water_savings fmt E1 q1 w).2 in
  (water_savings fmt E2 q2 w2).1
  = answer_for fmt (parseFloat (text (areaSqFt q2))) (clone data)
  /\ (water_savings fmt E1 q2 w).1
     = answer_for fmt (parseFloat (text (areaSqFt q2))) data
  /\ calls (water_savings fmt E2 q2 w2).2 = calls w2.
Proof.
  intros Hm1 Ha1 Hm2 Ha2 Hparams Hmiss Hup Htrue _ Hevs Hnow w2.
  unfold fetch_params in Hparams. injection Hparams as Hlat Hlon Hsd Hed.
  unfold cache_miss, key_of in Hmiss. fold (served (now E1)
    (cacheKey (text (latitude q1)) (text (longitude q1)) (text (startDate q1))
       (text (endDate q1))) (cache w)) in Hmiss.
  destruct (getWeatherData_miss E1 (text (latitude q1)) (text (longitude q1))
              (text (startDate q1)) (text (endDate q1)) w data Hmiss Hup) as [c Hfirst].
  destruct (answer_of_payload fmt E1 q1 w data _ Hm1 Ha1 Hfirst) as (_ & _ & Hcache1).
  assert (getWeatherData E1 (text (latitude q2)) (text (longitude q2))
            (text (startDate q2)) (text (endDate q2)) w
          = getWeatherData E1 (text (latitude q1)) (text (longitude q1))
              (text (startDate q1)) (text (endDate q1)) w) as Hsame
    by (by rewrite Hlat, Hlon, Hsd, Hed).
  rewrite Hfirst in Hsame.
  destruct (answer_of_payload fmt E1 q2 w data _ Hm2 Ha2 Hsame) as (-> & _ & _).
  set (d := {| NodeCache.v := clone data; NodeCache.t := arrival E1 + ttl_ms |}).
  assert (ToBoolean (Some (NodeCache.v d)) = true) as Hd_true
    by (unfold d; cbn [NodeCache.v]; by rewrite clone_truthy).
  assert (cache w2 !! cacheKey (text (latitude q2)) (text (longitude q2))
                        (text (startDate q2)) (text (endDate q2)) = Some d) as Hd.
  { subst w2. apply serve_keeps; [|exact Hevs | exact Hd_true].
    rewrite Hcache1. cbn [cache]. rewrite Hlat, Hlon, Hsd, Hed.
    apply lookup_insert_eq. }
  pose proof (getWeatherData_hit E2 (text (latitude q2)) (text (longitude q2))
                (text (startDate q2)) (text (endDate q2)) w2 d Hd
                (not_expired_until (now E2) d Hnow) Hd_true) as Hhit.
  unfold d in Hhit. cbn [NodeCache.v] in Hhit. rewrite clone_idempotent in Hhit.
  destruct (answer_of_payload fmt E2 q2 w2 (clone data) _ Hm2 Ha2 Hhit) as (-> & -> & _).
  done.
Qed.

(** ** Shapes of the two arrays *)

Section Members.

Variable fmt : json -> result string.

(** A payload whose two members are truthy passes the check of line 75. *)
Lemma has_members_shape data dates precipitation :
  has_members data dates precipitation ->
  ToBoolean (Some dates) = true ->
  ToBoolean (Some precipitation) = true ->
  invalid_shape data = Ok false
  /\ series data = Ok (Some dates, Some precipitation).
Proof.
  intros (hourly & Hh & Ht & Hp) Hdates Hprec.
  apply field_object in Hh as (o & -> & Hh).
  apply field_object in Ht as (o' & -> & Ht).
  cbn [field] in Hp.
  unfold invalid_shape, series. cbn [get_prop mbind result_bind]. rewrite Hh.
  cbn [get_prop mbind result_bind ToBoolean negb]. rewrite Ht, Hp.
  cbn [mbind result_bind]. rewrite Hdates. cbn [negb]. by rewrite Hprec.
Qed.

End Members.

(** X6.  An empty [time] array is not an error: with any truthy
    [precipitation] the answer is 200 with no bucket, [totalWaterCollected]
    "0.00" and [moneySaved] "0.00", and the callback never runs. *)
Theorem empty_series_answers_zero (fmt : json -> result string) (E : env) (q : query)
    (w w1 : world) (data precipitation : json) :
  missing q = false ->
  invalid_area q = false ->
  getWeatherData E (text (latitude q)) (text (longitude q))
    (text (startDate q)) (text (endDate q)) w = (Ok data, w1) ->
  has_members data (JArr []) precipitation ->
  ToBoolean (Some precipitation) = true ->
  water_savings fmt E q w
  = ({| status := 200;
        payload := ReportBody
          {| monthlyWaterCollected := [];
             totalWaterCollected := "0.00";
             moneySaved := "0.00";
             waterCostPer1000LitrePounds := WATER_COST_PER_1000_LITRES;
             waterCollectedFormula := formula_text |} |}, w1).
Proof.
  intros Hm Ha Hfetch Hmembers Hprec.
  rewrite water_savings_valid, Hfetch by done.
  destruct (has_members_shape data (JArr []) precipitation Hmembers eq_refl Hprec)
    as [Hshape Hseries].
  unfold process. rewrite Hshape, Hseries. cbn [aggregate forEach].
  by destruct w1.
Qed.

(** X7.  A truthy [time] that is not an array (a string, a number, an
    object) passes the structural check and fails at the loop: the answer
    is 500 with the error "dates.forEach is not a function", and the
    callback never runs. *)
Theorem time_not_array_answers_500 (fmt : json -> result string) (E : env) (q : query)
    (w w1 : world) (data dates precipitation : json) :
  missing q = false ->
  invalid_area q = false ->
  getWeatherData E (text (latitude q)) (text (longitude q))
    (text (startDate q)) (text (endDate q)) w = (Ok data, w1) ->
  has_members data dates precipitation ->
  ToBoolean (Some dates) = true ->
  is_array dates = false ->
  ToBoolean (Some precipitation) = true ->
  water_savings fmt E q w
  = ({| status := 500; payload := ErrorBody "dates.forEach is not a function" |}, w1).
Proof.
  intros Hm Ha Hfetch Hmembers Hdates Harr Hprec.
  rewrite water_savings_valid, Hfetch by done.
  destruct (has_members_shape data dates precipitation Hmembers Hdates Hprec)
    as [Hshape Hseries].
  unfold process. rewrite Hshape, Hseries.
  destruct w1. by destruct dates.
Qed.

Section Entries.

Variable fmt : json -> result string.

(** The loop reads the precipitation array at the positions of the
    timestamps only, and each entry only as a number. *)
Lemma forEach_agree area ps ps' dates index st n :
  (forall i, (index <= i < index + length dates)%nat ->
             ToNumber (ps !! i) = ToNumber (ps' !! i)) ->
  forEach fmt area (Some (JArr ps)) dates index st n
  = forEach fmt area (Some (JArr ps')) dates index st n.
Proof.
  revert index st n. induction dates as [|date rest IH]; intros index st n Hagree; [done|].
  cbn [forEach]. destruct st as [monthly total].
  unfold callback. destruct (fmt date) as [month|e]; cbn [mbind result_bind]; [|done].
  cbn [get_index mbind result_bind]. unfold waterCollected.
  rewrite (Hagree index) by (simpl; lia).
  destruct (ToNumber (ps' !! index)) as [r|e]; cbn [mbind result_bind]; [|done].
  apply IH. intros i Hi. apply Hagree. simpl. lia.
Qed.

End Entries.

(** X8.  Precipitation entries beyond the last timestamp are never read:
    the accumulators after the loop are those for the precipitation array
    cut to the length of the time array. *)
Theorem surplus_rain_ignored (fmt : json -> result string) (area : num) (ds ps : list json)
    (n : nat) :
  aggregate fmt area (Some (JArr ds)) (Some (JArr ps)) n
  = aggregate fmt area (Some (JArr ds)) (Some (JArr (take (length ds) ps))) n.
Proof.
  cbn [aggregate]. apply forEach_agree.
  intros i Hi. by rewrite lookup_take_lt by lia.
Qed.

(** X9.  A [null] precipitation entry counts as no rain: the accumulators
    after the loop are those for the array with every [null] replaced by
    the number zero. *)
Theorem null_rain_is_zero (fmt : json -> result string) (area : num) (ds ps : list json)
    (n : nat) :
  aggregate fmt area (Some (JArr ds)) (Some (JArr ps)) n
  = aggregate fmt area (Some (JArr ds)) (Some (JArr (null_as_zero <$> ps))) n.
Proof.
  cbn [aggregate]. apply forEach_agree.
  intros i _. rewrite list_lookup_fmap.
  destruct (ps !! i) as [p|]; [|done]. by destruct p.
Qed.

(** ** The keys of the buckets of a series *)

Section KeysOfSeries.

Variable fmt : json -> result string.

Lemma increments_labels area precipitation dates index incs :
  increments fmt area precipitation dates index = Ok incs ->
  labels_of fmt dates = Ok (map fst incs).
Proof.
  revert index incs. induction dates as [|date rest IH]; intros index incs.
  - by intros [= <-].
  - cbn [increments labels_of].
    destruct (fmt date) as [month|e]; cbn [mbind result_bind]; [|done].
    destruct (get_index precipitation index) as [v|e]; cbn [mbind result_bind]; [|done].
    destruct (waterCollected area v) as [w|e]; cbn [mbind result_bind]; [|done].
    destruct (increments fmt area precipitation rest (S index)) as [incs'|e] eqn:Hrest;
      cbn [mbind result_bind]; [|done].
    intros [= <-]. rewrite (IH (S index) incs' Hrest). reflexivity.
Qed.

End KeysOfSeries.

(** X10.  When the loop completes, moment has returned a label for every
    timestamp, and the keys of [monthlyWaterCollected] are these month
    labels, each once, in the order in which each label is first met in
    the series. *)
Theorem bucket_keys_in_encounter_order (fmt : json -> result string) (area : num)
    (ds : list json) (precipitation : jsval) (monthly : list (string * num))
    (total : num) (n n' : nat) :
  aggregate fmt area (Some (JArr ds)) precipitation n = (Ok (monthly, total), n') ->
  exists labels,
    labels_of fmt ds = Ok labels
    /\ map fst monthly = first_seen labels
    /\ List.NoDup (map fst monthly)
    /\ forall k, In k (map fst monthly) <-> In k labels.
Proof.
  cbn [aggregate]. rewrite forEach_accumulate.
  destruct (increments fmt area precipitation ds 0) as [incs|e] eqn:Hincs; [|done].
  intros [= Hst _].
  exists (map fst incs).
  split; [exact (increments_labels fmt area precipitation ds 0 incs Hincs)|].
  assert (map fst monthly = first_seen (map fst incs)) as ->.
  { set (st := ([], lit_0) : list (string * num) * num) in Hst.
    replace monthly
      with (fold_left (accumulate_step add lit_0 falsy_num) incs st).1
      by (by rewrite Hst).
    rewrite fold_keys. cbn [st fst map app among existsb negb].
    induction (first_seen (map fst incs)) as [|k l IH]; [done|].
    cbn [List.filter]. by rewrite IH. }
  split; [done|]. split; [apply first_seen_NoDup|]. intros k. apply first_seen_In.
Qed.

(** ** When a series is answered with 200 *)

Section Conversion.

Variable fmt : json -> result string.

Lemma single_member_error (x : json) (e : js_error) :
  match x with JNull => Ok zero | _ => text_number x end = Throw e ->
  text_number x = Throw e.
Proof. by destruct x. Qed.

(** The one error of a conversion to a number. *)
Lemma text_number_error : forall v e, text_number v = Throw e -> e = not_primitive.
Proof.
  fix IH 1. intros v e. destruct v as [| b | x | s | l | o].
  - discriminate.
  - discriminate.
  - discriminate.
  - discriminate.
  - destruct l as [|x [|y l]]; cbn [text_number].
    + discriminate.
    + intros H. exact (IH x e (single_member_error x e H)).
    + destruct (existsb ToString_throws (x :: y :: l)); [|discriminate].
      intros H. injection H as <-. reflexivity.
  - cbn [text_number]. destruct (has_own "toString" o); [|discriminate].
    intros H. injection H as <-. reflexivity.
Qed.

Lemma ToNumber_error v e : ToNumber v = Throw e -> e = not_primitive.
Proof.
  destruct v as [[| b | x | s | l | o]|]; try done.
  - apply text_number_error.
  - cbn [ToNumber]. destruct (has_own "toString" o); [by intros [= <-] | done].
Qed.

(** The increments exist exactly when moment labels every timestamp and
    every entry read converts. *)
Lemma increments_ok area ps dates index :
  (exists incs, increments fmt area (Some (JArr ps)) dates index = Ok incs)
  <-> labelled fmt dates
      /\ forall i, (index <= i < index + length dates)%nat ->
                   exists r, ToNumber (ps !! i) = Ok r.
Proof.
  revert index. induction dates as [|date rest IH]; intros index.
  - split; [|by eexists]. intros _. split; [constructor|].
    intros i Hi. simpl in Hi. lia.
  - cbn [increments]. unfold waterCollected. split.
    + intros [incs Hincs].
      destruct (fmt date) as [month|e] eqn:Hl; cbn [mbind result_bind] in Hincs; [|done].
      cbn [get_index mbind result_bind] in Hincs.
      destruct (ToNumber (ps !! index)) as [r|e] eqn:Hr; cbn [mbind result_bind] in Hincs;
        [|done].
      destruct (increments fmt area (Some (JArr ps)) rest (S index)) as [incs'|e] eqn:Hrest;
        cbn [mbind result_bind] in Hincs; [|done].
      destruct (proj1 (IH (S index))) as [Hlab Hall]; [by eexists|].
      split; [constructor; [by eexists | done]|].
      intros i Hi.
      destruct (decide (i = index)) as [->|Hne]; [by eexists|].
      apply Hall. simpl in Hi. lia.
    + intros [Hlab Hall].
      apply Forall_cons in Hlab as [[month ->] Hlab]. cbn [get_index mbind result_bind].
      destruct (Hall index ltac:(simpl; lia)) as [r ->]. cbn [mbind result_bind].
      destruct (proj2 (IH (S index))) as [incs' ->].
      { split; [done|]. intros i Hi. apply Hall. simpl. lia. }
      by eexists.
Qed.

Lemma increments_error area ps dates index e :
  increments fmt area (Some (JArr ps)) dates index = Throw e ->
  e = not_primitive \/ exists d, In d dates /\ fmt d = Throw e.
Proof.
  revert index. induction dates as [|date rest IH]; intros index; [done|].
  cbn [increments]. unfold waterCollected.
  destruct (fmt date) as [month|e'] eqn:Hl; cbn [mbind result_bind].
  - cbn [get_index mbind result_bind].
    destruct (ToNumber (ps !! index)) as [r|e'] eqn:Hr; cbn [mbind result_bind].
    + destruct (increments fmt area (Some (JArr ps)) rest (S index)) as [incs'|e'] eqn:Hrest;
        cbn [mbind result_bind]; [done|].
      intros [= <-]. destruct (IH (S index) Hrest) as [?|(d & Hd & Hthrow)]; [by left|].
      right. exists d. split; [by right | done].
    + intros [= <-]. left. by eapply ToNumber_error.
  - intros [= <-]. right. exists date. split; [by left | done].
Qed.

End Conversion.

(** X13.  For a payload with both arrays the answer is 200 exactly when
    moment returns a label for every timestamp and every precipitation
    entry at the position of a timestamp can be read as a number;
    otherwise it is 500, with the error "Cannot convert object to
    primitive value" or with the message of an error that moment threw on
    a timestamp. *)
Theorem series_answer (fmt : json -> result string) (E : env) (q : query)
    (w w1 : world) (data : json) (ds ps : list json) :
  missing q = false ->
  invalid_area q = false ->
  getWeatherData E (text (latitude q)) (text (longitude q))
    (text (startDate q)) (text (endDate q)) w = (Ok data, w1) ->
  has_series data ds ps ->
  (status (water_savings fmt E q w).1 = 200
   <-> labelled fmt ds
       /\ forall i, (i < length ds)%nat -> exists r, ToNumber (ps !! i) = Ok r)
  /\ (status (water_savings fmt E q w).1 <> 200 ->
      exists msg,
        (water_savings fmt E q w).1 = {| status := 500; payload := ErrorBody msg |}
        /\ (msg = "Cannot convert object to primitive value"%string
            \/ exists d e, In d ds /\ fmt d = Throw e /\ msg = message e)).
Proof.
  intros Hm Ha Hfetch Hseries.
  rewrite water_savings_valid, Hfetch by done.
  apply has_series_shape in Hseries as [Hshape Hs].
  unfold process. rewrite Hshape, Hs. cbn [aggregate].
  rewrite forEach_accumulate.
  pose proof (increments_ok fmt (parseFloat (text (areaSqFt q))) ps ds 0) as Hok.
  pose proof (increments_error fmt (parseFloat (text (areaSqFt q))) ps ds 0) as Herr.
  destruct (increments fmt (parseFloat (text (areaSqFt q))) (Some (JArr ps)) ds 0)
    as [incs|e].
  - destruct (fold_left _ incs _) as [monthly total]. cbn [fst status].
    split; [|done]. split; [|done].
    intros _. destruct (proj1 Hok) as [Hlab Hall]; [by eexists|].
    split; [done|]. intros i Hi. apply Hall. lia.
  - cbn [fst status]. split.
    + split; [done|]. intros [Hlab Hall].
      destruct (proj2 Hok) as [incs Hincs]; [|done].
      split; [done|]. intros i Hi. apply Hall. lia.
    + intros _. exists (message e). split; [done|].
      destruct (Herr e eq_refl) as [->|(d & Hd & Hthrow)]; [by left|].
      right. by exists d, e.
Qed.

(** ** The retry policy *)


(** ** Failures are not cached *)

Section NoNegativeCache.

Import NodeCache.

(** A lookup that found nothing usable leaves a store in which the same
    key has nothing usable at any time. *)
Lemma miss_stays_miss t t' key c :
  ToBoolean (served t key c) = false ->
  ToBoolean (served t' key (get t key c).2) = false.
Proof.
  unfold served. rewrite !get_value, get_store_same.
  destruct (c !! key) as [d|]; [|done].
  destruct (expired t d); [done|].
  intros Hfalsy. by destruct (expired t' d).
Qed.

End NoNegativeCache.

(** X18.  A failed fetch is not remembered: after a validated request
    whose upstream fetch failed for good, the next fetch of the same
    parameters, at any time, goes upstream again and returns what the
    upstream then answers. *)
Theorem failure_not_cached (fmt : json -> result string) (E1 E2 : env) (q : query)
    (w : world) (msg : string) (data : json) :
  missing q = false ->
  invalid_area q = false ->
  cache_miss E1 q w ->
  upstream E1 = inr msg ->
  upstream E2 = inl data ->
  let w1 := (water_savings fmt E1 q w).2 in
  (getWeatherData E2 (text (latitude q)) (text (longitude q))
     (text (startDate q)) (text (endDate q)) w1).1 = Ok data
  /\ calls (getWeatherData E2 (text (latitude q)) (text (longitude q))
              (text (startDate q)) (text (endDate q)) w1).2
     = fetch_params q :: fetch_params q :: calls w.
Proof.
  intros Hm Ha Hmiss Hup1 Hup2 w1.
  assert (cache w1 = (NodeCache.get (now E1) (key_of q) (cache w)).2
          /\ calls w1 = fetch_params q :: calls w) as [Hcache Hcalls].
  { subst w1. rewrite water_savings_valid by done.
    unfold getWeatherData. fold (key_of q).
    unfold cache_miss in Hmiss.
    destruct (NodeCache.get (now E1) (key_of q) (cache w)) as [cached c].
    simpl in Hmiss.
    assert (match cached with
            | Some d => if ToBoolean cached then Some d else None
            | None => None
            end = None) as ->.
    { destruct cached; [by rewrite Hmiss | done]. }
    by rewrite Hup1. }
  assert (ToBoolean (served (now E2)
            (cacheKey (text (latitude q)) (text (longitude q)) (text (startDate q))
               (text (endDate q))) (cache w1)) = false) as Hmiss2.
  { rewrite Hcache. by apply miss_stays_miss. }
  destruct (getWeatherData_miss E2 _ _ _ _ w1 data Hmiss2 Hup2) as [c Hsecond].
  rewrite Hsecond. cbn [fst snd calls]. by rewrite Hcalls.
Qed.

(** ** Totals and labels *)

Section Totals.

Lemma increments_litres fmt fmt' area precipitation dates index incs :
  increments fmt area precipitation dates index = Ok incs ->
  labelled fmt' dates ->
  exists incs', increments fmt' area precipitation dates index = Ok incs'
                /\ map snd incs' = map snd incs.
Proof.
  intros Hincs Hlab. revert index incs Hincs.
  induction Hlab as [|date rest [month' Hl'] Hlab IH]; intros index incs.
  - intros [= <-]. by exists [].
  - cbn [increments]. rewrite Hl'.
    destruct (fmt date) as [month|e]; cbn [mbind result_bind]; [|done].
    destruct (get_index precipitation index) as [v|e]; cbn [mbind result_bind]; [|done].
    destruct (waterCollected area v) as [w|e]; cbn [mbind result_bind]; [|done].
    destruct (increments fmt area precipitation rest (S index)) as [incs0|e] eqn:Hrest;
      cbn [mbind result_bind]; [|done].
    intros [= <-]. destruct (IH (S index) incs0 Hrest) as (incs' & -> & Hsnd).
    cbn [mbind result_bind]. eexists. split; [done|]. cbn [map snd]. by rewrite Hsnd.
Qed.

End Totals.

(** X17.  The grand total does not depend on the month labels: with any
    other label function that returns a label for every timestamp
    (another server zone, say) the loop completes as well, after as many
    invocations and with the same total, which is the sum in order of the
    litres of all hours. *)
Theorem total_independent_of_labels (fmt fmt' : json -> result string) (area : num)
    (ds : list json) (precipitation : jsval) (monthly : list (string * num))
    (total : num) (n n' : nat) :
  aggregate fmt area (Some (JArr ds)) precipitation n = (Ok (monthly, total), n') ->
  labelled fmt' ds ->
  (exists monthly',
      aggregate fmt' area (Some (JArr ds)) precipitation n = (Ok (monthly', total), n'))
  /\ exists incs,
       increments fmt area precipitation ds 0 = Ok incs
       /\ total = fold_left add (map snd incs) lit_0.
Proof.
  cbn [aggregate]. rewrite (forEach_accumulate fmt), (forEach_accumulate fmt').
  destruct (increments fmt area precipitation ds 0) as [incs|e] eqn:Hincs; [|done].
  intros [= Hst <-] Hlab.
  destruct (increments_litres fmt fmt' area precipitation ds 0 incs Hincs Hlab)
    as (incs' & -> & Hsnd).
  assert (total = fold_left add (map snd incs) lit_0) as Htotal.
  { pose proof (fold_total add lit_0 falsy_num incs ([], lit_0)) as Hfold.
    rewrite Hst in Hfold. exact Hfold. }
  split; [|by exists incs].
  pose proof (fold_total add lit_0 falsy_num incs' ([], lit_0)) as Hfold'.
  destruct (fold_left (accumulate_step add lit_0 falsy_num) incs' ([], lit_0))
    as [monthly' total'].
  cbn [snd] in Hfold'. exists monthly'. rewrite Hfold', Hsnd, <- Htotal. done.
Qed.

(** ** Timestamps with an offset *)


(** ** The retry budget *)

Section Budget.

Lemma request_agree (f g : nat -> attempt) (left k : nat) :
  (forall i, (k <= i <= k + left)%nat -> f i = g i) ->
  request f k left = request g k left.
Proof.
  revert k. induction left as [|left IH]; intros k Hfg; simpl.
  - rewrite <- (Hfg k) by lia. done.
  - rewrite <- (Hfg k) by lia. destruct (f k) as [data|retryable msg]; [done|].
    destruct retryable; [|done]. apply IH. intros i Hi. apply Hfg. lia.
Qed.

End Budget.

(** X15.  [axios.get] makes at most six attempts: its outcome is decided
    by the first six attempts alone, whatever a seventh or later attempt
    would have answered. *)
Theorem upstream_reads_six_attempts (E E' : env) :
  (forall i, (i <= retries)%nat -> attempts E i = attempts E' i) ->
  upstream E = upstream E'.
Proof.
  intros Hsame. unfold upstream. apply request_agree.
  intros i Hi. apply Hsame. lia.
Qed.


(** ** The invocations of the callback *)

Section Visits.

Variable fmt : json -> result string.

(** The loop from position [index] on: how far it gets. *)
Lemma forEach_visits area precipitation dates index st n :
  match (forEach fmt area precipitation dates index st n).1 with
  | Ok _ => (forEach fmt area precipitation dates index st n).2 = (n + length dates)%nat
  | Throw e =>
      exists i date, dates !! i = Some date
        /\ (forEach fmt area precipitation dates index st n).2 = (n + S i)%nat
        /\ (forall j d, (j < i)%nat -> dates !! j = Some d ->
              exists l v w, fmt d = Ok l
                            /\ get_index precipitation (index + j) = Ok v
                            /\ waterCollected area v = Ok w)
        /\ (fmt date = Throw e
            \/ (exists l, fmt date = Ok l)
               /\ (get_index precipitation (index + i) = Throw e
                   \/ exists v, get_index precipitation (index + i) = Ok v
                                /\ waterCollected area v = Throw e))
  end.
Proof.
  revert index st n.
  induction dates as [|date rest IH]; intros index st n.
  - simpl. lia.
  - cbn [forEach].
    destruct (callback fmt area precipitation st date index) as [st'|e] eqn:Hcb.
    + assert (exists l v w, fmt date = Ok l
                            /\ get_index precipitation index = Ok v
                            /\ waterCollected area v = Ok w) as Hhere.
      { destruct st as [monthly total]. unfold callback in Hcb.
        destruct (fmt date) as [l|e]; simpl in Hcb; [|done].
        destruct (get_index precipitation index) as [v|e]; simpl in Hcb; [|done].
        destruct (waterCollected area v) as [w|e] eqn:Hw; simpl in Hcb; [|done].
        by exists l, v, w. }
      specialize (IH (S index) st' (S n)).
      destruct (forEach fmt area precipitation rest (S index) st' (S n)) as [[st2|e] n2];
        simpl in *.
      * lia.
      * destruct IH as (i & d & Hd & Hn & Hbefore & Hat).
        exists (S i), d. split; [done|]. split; [lia|]. split.
        -- intros [|j] d' Hj Hd'.
           ++ simpl in Hd'. injection Hd' as <-. by rewrite Nat.add_0_r.
           ++ replace (index + S j)%nat with (S index + j)%nat by lia.
              apply Hbefore; [lia | done].
        -- by replace (index + S i)%nat with (S index + i)%nat by lia.
    + simpl. exists 0%nat, date. split; [done|]. split; [lia|].
      split; [intros j d Hj; lia|].
      rewrite Nat.add_0_r.
      destruct st as [monthly total]. unfold callback in Hcb.
      destruct (fmt date) as [l|e'] eqn:Hl; simpl in Hcb.
      * right. split; [by eexists|].
        destruct (get_index precipitation index) as [v|e']; simpl in Hcb.
        -- destruct (waterCollected area v) as [w|e'] eqn:Hw; simpl in Hcb; [done|].
           right. exists v. split; [done|]. by injection Hcb as ->.
        -- left. by injection Hcb as ->.
      * left. by injection Hcb as ->.
Qed.

End Visits.

(** X20.  The callback runs once for each timestamp, in order, and the
    loop ends at the first hour that throws: a loop that completes has
    made as many invocations as there are timestamps; a loop that throws
    has made [i + 1] of them, where hour [i] is the first one at which
    moment throws on the timestamp, or the precipitation entry cannot be
    read or converted, and it throws the error of that hour. *)
Theorem loop_stops_at_first_error (fmt : json -> result string) (area : num)
    (ds : list json) (precipitation : jsval) (n : nat) :
  match (aggregate fmt area (Some (JArr ds)) precipitation n).1 with
  | Ok _ => (aggregate fmt area (Some (JArr ds)) precipitation n).2 = (n + length ds)%nat
  | Throw e =>
      exists i date, ds !! i = Some date
        /\ (aggregate fmt area (Some (JArr ds)) precipitation n).2 = (n + S i)%nat
        /\ (forall j d, (j < i)%nat -> ds !! j = Some d ->
              exists l v w, fmt d = Ok l
                            /\ get_index precipitation j = Ok v
                            /\ waterCollected area v = Ok w)
        /\ (fmt date = Throw e
            \/ (exists l, fmt date = Ok l)
               /\ (get_index precipitation i = Throw e
                   \/ exists v, get_index precipitation i = Ok v
                                /\ waterCollected area v = Throw e))
  end.
Proof.
  cbn [aggregate].
  exact (forEach_visits fmt area precipitation ds 0 ([], lit_0) n).
Qed.

(** ** Payloads without the series *)

(** X22.  For every fetched payload other than [null] that lacks
    [hourly], [hourly.time] or [hourly.precipitation], the endpoint
    answers 500 with the error "Invalid weather data structure", and the
    aggregation loop does not run: the world is the one that the fetch
    left. *)
Theorem malformed_payload_answers_500 (fmt : json -> result string) (E : env) (q : query)
    (w w1 : world) (data : json) :
  missing q = false ->
  invalid_area q = false ->
  getWeatherData E (text (latitude q)) (text (longitude q))
    (text (startDate q)) (text (endDate q)) w = (Ok data, w1) ->
  lacks_series data ->
  data <> JNull ->
  water_savings fmt E q w
  = ({| status := 500; payload := ErrorBody "Invalid weather data structure" |}, w1).
Proof.
  intros Hm Ha Hfetch Hlacks Hnull.
  rewrite water_savings_valid, Hfetch by done.
  destruct w1 as [c1 k1 o1 n1]. simpl.
  unfold process. by rewrite lacks_series_shape.
Qed.

(** ** Instances *)

(** C1 at the three hours around midnight of 1 February 2024. *)
Lemma total_and_bucket_sum_witness :
  exists incs,
    increments (Moment.label 0) (parseFloat "1000") (Some (JArr midnight_rain))
      midnight_dates 0 = Ok incs
    /\ S754_finite false 6537256334104986 (-45) = fold_left add (map snd incs) lit_0
    /\ (is_finite (S754_finite false 6537256334104986 (-45)) = true ->
        buckets_hold incs
          [("2024-01"%string, S754_finite false 4902942250578739 (-45));
           ("2024-02"%string, S754_finite false 6537256334104985 (-47))])
    /\ (is_finite (S754_finite false 6537256334104986 (-45)) = true ->
        is_finite (sum_values add lit_0
                     [("2024-01"%string, S754_finite false 4902942250578739 (-45));
                      ("2024-02"%string, S754_finite false 6537256334104985 (-47))])
        = true ->
        let k := Z.of_nat (length midnight_dates)
                 + Z.of_nat (length
                     [("2024-01"%string, S754_finite false 4902942250578739 (-45));
                      ("2024-02"%string, S754_finite false 6537256334104985 (-47))]) in
        is_double (S754_finite false 6537256334104986 (-45))
        /\ is_double (sum_values add lit_0
                        [("2024-01"%string, S754_finite false 4902942250578739 (-45));
                         ("2024-02"%string, S754_finite false 6537256334104985 (-47))])
        /\ (2 ^ 52) ^ k
           * Z.abs (units (S754_finite false 6537256334104986 (-45))
                    - units (sum_values add lit_0
                               [("2024-01"%string, S754_finite false 4902942250578739 (-45));
                                ("2024-02"%string,
                                 S754_finite false 6537256334104985 (-47))]))
           <= 2 * slack k * units_abs (map snd incs))
    /\ (isNaN (S754_finite false 6537256334104986 (-45)) = false ->
        forall label, incs <> [] -> Forall (fun inc => inc.1 = label) incs ->
        exists b,
          [("2024-01"%string, S754_finite false 4902942250578739 (-45));
           ("2024-02"%string, S754_finite false 6537256334104985 (-47))] = [(label, b)]
          /\ same_number b (S754_finite false 6537256334104986 (-45))
          /\ strict_equal (S754_finite false 6537256334104986 (-45))
               (sum_values add lit_0
                  [("2024-01"%string, S754_finite false 4902942250578739 (-45));
                   ("2024-02"%string, S754_finite false 6537256334104985 (-47))])
             = true).
Proof.
  apply (total_and_bucket_sum (Moment.label 0) (parseFloat "1000") midnight_dates
           (Some (JArr midnight_rain))
           [("2024-01"%string, S754_finite false 4902942250578739 (-45));
            ("2024-02"%string, S754_finite false 6537256334104985 (-47))]
           (S754_finite false 6537256334104986 (-45)) 0%nat 3%nat).
  vm_compute. reflexivity.
Defined.

(** C2 at a negative reading: minus ten millimetres over 1000 sq ft enter
    the total and the January bucket as minus 929 litres. *)
Lemma callback_adds_litres_witness :
  exists monthly',
    callback (Moment.label 0) (of_Z 1000) (Some (JArr [JNum (of_Z (-10))]))
      ([], lit_0) (JStr "2024-01-01T00:00") 0
    = Ok (monthly', of_Z (-929))
    /\ bucket_get "2024-01" monthly' = Some (of_Z (-929)).
Proof.
  destruct (callback_adds_litres (Moment.label 0) (of_Z 1000) [JNum (of_Z (-10))]
              [] lit_0 (JStr "2024-01-01T00:00") 0%nat "2024-01" (of_Z (-10))
              eq_refl eq_refl) as (_ & _ & monthly' & Hcall & Hget & _).
  exists monthly'. split.
  - rewrite Hcall. f_equal.
  - rewrite Hget. reflexivity.
Defined.




(** C8 at a network error into an empty cache. *)
Lemma upstream_failure_answers_500_witness :
  exists w',
    getWeatherData failing_env (text (latitude example_query))
      (text (longitude example_query)) (text (startDate example_query))
      (text (endDate example_query)) fresh = (Throw (Thrown "Network Error"), w')
    /\ water_savings (Moment.label 0) failing_env example_query fresh
       = ({| status := 500; payload := ErrorBody "Network Error" |}, w')
    /\ calls w' = fetch_params example_query :: calls fresh
    /\ iterations w' = iterations fresh
    /\ cache w' = (NodeCache.get (now failing_env) (key_of example_query) (cache fresh)).2
    /\ cache w' ⊆ cache fresh
    /\ forall t key, now failing_env <= t ->
                     served t key (cache w') = served t key (cache fresh).
Proof.
  apply (upstream_failure_answers_500 (Moment.label 0) failing_env example_query fresh
           "Network Error").
  - reflexivity.
  - reflexivity.
  - vm_compute. reflexivity.
  - reflexivity.
Defined.

(** C9 with the label of moment on a server in UTC. *)
Lemma example_929_litres_witness :
  (water_savings (Moment.label 0) example_env example_query fresh).1
  = {| status := 200;
       payload := ReportBody
         {| monthlyWaterCollected := [("2024-01"%string, of_Z 929)];
            totalWaterCollected := "929.00";
            moneySaved := "1.39";
            waterCostPer1000LitrePounds := WATER_COST_PER_1000_LITRES;
            waterCollectedFormula := formula_text |} |}.
Proof. exact (proj1 example_929_litres (Moment.label 0) "2024-01"%string eq_refl). Defined.

(** C10 at two timestamps and one reading of 10 mm. *)
Lemma short_precipitation_gives_NaN_witness :
  exists monthly,
    water_savings (Moment.label 0) (env_of (short_payload (JNum (of_Z 10))))
      example_query fresh
    = ({| status := 200;
          payload := ReportBody
            {| monthlyWaterCollected := monthly;
               totalWaterCollected := "NaN";
               moneySaved := "NaN";
               waterCostPer1000LitrePounds := WATER_COST_PER_1000_LITRES;
               waterCollectedFormula := formula_text |} |},
       {| cache := cache (fetched (env_of (short_payload (JNum (of_Z 10))))
                            (short_payload (JNum (of_Z 10))));
          calls := [fetch_params example_query]; console := [];
          iterations := 2 |}).
Proof.
  apply (short_precipitation_gives_NaN (Moment.label 0)
           (env_of (short_payload (JNum (of_Z 10)))) example_query fresh
           (fetched (env_of (short_payload (JNum (of_Z 10))))
              (short_payload (JNum (of_Z 10))))
           (short_payload (JNum (of_Z 10)))
           [JStr "2024-01-01T00:00"; JStr "2024-01-01T01:00"] [JNum (of_Z 10)]).
  - reflexivity.
  - reflexivity.
  - reflexivity.
  - eexists. repeat split; reflexivity.
  - simpl. lia.
  - repeat constructor. eexists. reflexivity.
  - repeat constructor; eexists; reflexivity.
Defined.

(** * Instances of the further properties *)

(** X1 at the parameters of the worked example. *)
Lemma cacheKey_injective_witness :
  ("51.5" = "51.5" /\ "-0.12" = "-0.12" /\ "2024-01-01" = "2024-01-01"
   /\ "2024-01-31" = "2024-01-31")%string.
Proof.
  apply (cacheKey_injective "51.5" "-0.12" "2024-01-01" "2024-01-31"
           "51.5" "-0.12" "2024-01-01" "2024-01-31"); reflexivity.
Defined.

(** X2 at a latitude written with a decimal comma: [51,5] and [-0.12]
    against [51] and [5,-0.12]. *)
Lemma comma_shift_shares_entry_witness :
  let first := getWeatherData example_env ("51" ++ "," ++ "5") "-0.12"
                 "2024-01-01" "2024-01-01" fresh in
  cacheKey ("51" ++ "," ++ "5") "-0.12" "2024-01-01" "2024-01-01"
  = cacheKey "51" ("5" ++ "," ++ "-0.12") "2024-01-01" "2024-01-01"
  /\ first.1 = Ok example_payload
  /\ getWeatherData two_minutes_later_env "51" ("5" ++ "," ++ "-0.12")
       "2024-01-01" "2024-01-01" first.2
     = (Ok example_payload,
        {| cache := cache first.2; calls := calls first.2;
           console := "Returning cached data"%string :: console first.2;
           iterations := iterations first.2 |}).
Proof.
  apply (comma_shift_shares_entry example_env two_minutes_later_env "51" "5" "-0.12"
           "2024-01-01" "2024-01-01" fresh example_payload).
  - vm_compute. reflexivity.
  - reflexivity.
  - reflexivity.
  - reflexivity.
  - vm_compute. discriminate.
Defined.

(** X3 at the worked example and the key of another place. *)
Lemma request_leaves_other_keys_witness :
  cache (water_savings (Moment.label 0) example_env example_query fresh).2
    !! "48.85,2.35,2024-01-01,2024-01-01"%string
  = cache fresh !! "48.85,2.35,2024-01-01,2024-01-01"%string.
Proof.
  apply (request_leaves_other_keys (Moment.label 0) example_env example_query fresh
           "48.85,2.35,2024-01-01,2024-01-01").
  vm_compute. discriminate.
Defined.

(** X4 at the worked example: a hit one minute after the fetch, a sweep,
    and the same fetch one millisecond after the hour. *)
Lemma no_sliding_expiry_witness :
  let w2 :=
    serve (Moment.label 0)
      [Served {| now := 1704067260000; attempts := fun _ => Failure false "unused";
                 arrival := 1704067260000 |} example_query;
       Sweep 1704067300000]
      (getWeatherData example_env "51.5" "-0.12" "2024-01-01" "2024-01-01" fresh).2 in
  (getWeatherData after_expiry_env "51.5" "-0.12" "2024-01-01" "2024-01-01" w2).1
  = match upstream after_expiry_env with
    | inl data2 => Ok data2
    | inr msg => Throw (Thrown msg)
    end
  /\ calls (getWeatherData after_expiry_env "51.5" "-0.12" "2024-01-01" "2024-01-01" w2).2
     = ("51.5", "-0.12", "2024-01-01", "2024-01-01")%string :: calls w2.
Proof.
  apply (no_sliding_expiry (Moment.label 0) example_env after_expiry_env
           "51.5" "-0.12" "2024-01-01" "2024-01-01" fresh example_payload
           [Served {| now := 1704067260000; attempts := fun _ => Failure false "unused";
                      arrival := 1704067260000 |} example_query;
            Sweep 1704067300000]).
  - vm_compute. reflexivity.
  - reflexivity.
  - reflexivity.
  - vm_compute. discriminate.
  - repeat constructor; vm_compute; discriminate.
  - vm_compute. reflexivity.
Defined.

(** X5 at a payload whose precipitation entry is an object with a member
    [toString], asked again for 2000 sq ft two minutes later: the copy in
    the cache has lost the member, and the second answer is computed from
    the copy, 200 with NaN where the payload itself is answered with
    500. *)
Lemma other_area_from_cache_witness :
  let w2 := serve (Moment.label 0) []
              (water_savings (Moment.label 0) (env_of unprintable_payload)
                 example_query fresh).2 in
  (water_savings (Moment.label 0) two_minutes_later_env double_area_query w2).1
  = {| status := 200;
       payload := ReportBody
         {| monthlyWaterCollected := [("2024-01"%string, nan)];
            totalWaterCollected := "NaN";
            moneySaved := "NaN";
            waterCostPer1000LitrePounds := WATER_COST_PER_1000_LITRES;
            waterCollectedFormula := formula_text |} |}
  /\ (water_savings (Moment.label 0) (env_of unprintable_payload) double_area_query fresh).1
     = {| status := 500;
          payload := ErrorBody "Cannot convert object to primitive value" |}
  /\ calls (water_savings (Moment.label 0) two_minutes_later_env double_area_query w2).2
     = calls w2.
Proof.
  apply (other_area_from_cache (Moment.label 0) (env_of unprintable_payload)
           two_minutes_later_env example_query double_area_query fresh
           unprintable_payload []).
  - reflexivity.
  - reflexivity.
  - reflexivity.
  - reflexivity.
  - reflexivity.
  - vm_compute. reflexivity.
  - reflexivity.
  - reflexivity.
  - reflexivity.
  - constructor.
  - vm_compute. discriminate.
Defined.

(** X6 at a payload with two empty arrays. *)
Lemma empty_series_answers_zero_witness :
  water_savings (Moment.label 0) (env_of (payload_of (JArr []) (JArr [])))
    example_query fresh
  = ({| status := 200;
        payload := ReportBody
          {| monthlyWaterCollected := [];
             totalWaterCollected := "0.00";
             moneySaved := "0.00";
             waterCostPer1000LitrePounds := WATER_COST_PER_1000_LITRES;
             waterCollectedFormula := formula_text |} |},
     fetched (env_of (payload_of (JArr []) (JArr []))) (payload_of (JArr []) (JArr []))).
Proof.
  apply (empty_series_answers_zero (Moment.label 0)
           (env_of (payload_of (JArr []) (JArr []))) example_query fresh
           (fetched (env_of (payload_of (JArr []) (JArr [])))
              (payload_of (JArr []) (JArr [])))
           (payload_of (JArr []) (JArr [])) (JArr [])).
  - reflexivity.
  - reflexivity.
  - reflexivity.
  - eexists. repeat split; reflexivity.
  - reflexivity.
Defined.

(** X7 at a payload whose [time] is one timestamp, not an array of
    them. *)
Lemma time_not_array_answers_500_witness :
  water_savings (Moment.label 0)
    (env_of (payload_of (JStr "2024-01-01T00:00") (JArr [JNum (of_Z 10)])))
    example_query fresh
  = ({| status := 500; payload := ErrorBody "dates.forEach is not a function" |},
     fetched (env_of (payload_of (JStr "2024-01-01T00:00") (JArr [JNum (of_Z 10)])))
       (payload_of (JStr "2024-01-01T00:00") (JArr [JNum (of_Z 10)]))).
Proof.
  apply (time_not_array_answers_500 (Moment.label 0)
           (env_of (payload_of (JStr "2024-01-01T00:00") (JArr [JNum (of_Z 10)])))
           example_query fresh
           (fetched (env_of (payload_of (JStr "2024-01-01T00:00") (JArr [JNum (of_Z 10)])))
              (payload_of (JStr "2024-01-01T00:00") (JArr [JNum (of_Z 10)])))
           (payload_of (JStr "2024-01-01T00:00") (JArr [JNum (of_Z 10)]))
           (JStr "2024-01-01T00:00") (JArr [JNum (of_Z 10)])).
  - reflexivity.
  - reflexivity.
  - reflexivity.
  - eexists. repeat split; reflexivity.
  - reflexivity.
  - reflexivity.
  - reflexivity.
Defined.

(** X10 at the three hours around midnight of 1 February 2024. *)
Lemma bucket_keys_in_encounter_order_witness :
  let monthly :=
    buckets_of (aggregate (Moment.label 0) (of_Z 1000) (Some (JArr midnight_dates))
                  (Some (JArr midnight_rain)) 0).1 in
  exists labels,
    labels_of (Moment.label 0) midnight_dates = Ok labels
    /\ map fst monthly = first_seen labels
    /\ List.NoDup (map fst monthly)
    /\ forall k, In k (map fst monthly) <-> In k labels.
Proof.
  apply (bucket_keys_in_encounter_order (Moment.label 0) (of_Z 1000) midnight_dates
           (Some (JArr midnight_rain))
           (buckets_of (aggregate (Moment.label 0) (of_Z 1000) (Some (JArr midnight_dates))
                          (Some (JArr midnight_rain)) 0).1)
           (total_of (aggregate (Moment.label 0) (of_Z 1000) (Some (JArr midnight_dates))
                        (Some (JArr midnight_rain)) 0).1)
           0%nat 3%nat).
  vm_compute. reflexivity.
Defined.

(** X13 at the worked example. *)
Lemma series_answer_witness :
  (status (water_savings (Moment.label 0) example_env example_query fresh).1 = 200
   <-> labelled (Moment.label 0) [JStr "2024-01-01T00:00"]
       /\ forall i, (i < length [JStr "2024-01-01T00:00"])%nat ->
                    exists r, ToNumber ([JNum (of_Z 10)] !! i) = Ok r)
  /\ (status (water_savings (Moment.label 0) example_env example_query fresh).1 <> 200 ->
      exists msg,
        (water_savings (Moment.label 0) example_env example_query fresh).1
        = {| status := 500; payload := ErrorBody msg |}
        /\ (msg = "Cannot convert object to primitive value"%string
            \/ exists d e, In d [JStr "2024-01-01T00:00"]
                           /\ Moment.label 0 d = Throw e /\ msg = message e)).
Proof.
  apply (series_answer (Moment.label 0) example_env example_query fresh
           (fetched example_env example_payload) example_payload
           [JStr "2024-01-01T00:00"] [JNum (of_Z 10)]).
  - reflexivity.
  - reflexivity.
  - reflexivity.
  - eexists. repeat split; reflexivity.
Defined.

(** X15 at an upstream that answers the third attempt: what a seventh
    attempt would meet does not matter. *)
Lemma upstream_reads_six_attempts_witness :
  upstream recovering_env
  = upstream {| now := now recovering_env;
                attempts := fun i => if (i <? 6)%nat then attempts recovering_env i
                                     else Failure false "never asked";
                arrival := arrival recovering_env |}.
Proof.
  apply (upstream_reads_six_attempts recovering_env
           {| now := now recovering_env;
              attempts := fun i => if (i <? 6)%nat then attempts recovering_env i
                                   else Failure false "never asked";
              arrival := arrival recovering_env |}).
  intros i Hi. unfold retries in Hi.
  do 6 (destruct i as [|i]; [reflexivity|]). lia.
Defined.


(** X17 at the three hours around midnight, labelled in UTC and one hour
    east of it. *)
Lemma total_independent_of_labels_witness :
  let r := aggregate (Moment.label 0) (of_Z 1000) (Some (JArr midnight_dates))
             (Some (JArr midnight_rain)) 0 in
  (exists monthly',
      aggregate (Moment.label 60) (of_Z 1000) (Some (JArr midnight_dates))
        (Some (JArr midnight_rain)) 0 = (Ok (monthly', total_of r.1), 3%nat))
  /\ exists incs,
       increments (Moment.label 0) (of_Z 1000) (Some (JArr midnight_rain))
         midnight_dates 0 = Ok incs
       /\ total_of r.1 = fold_left add (map snd incs) lit_0.
Proof.
  apply (total_independent_of_labels (Moment.label 0) (Moment.label 60) (of_Z 1000)
           midnight_dates (Some (JArr midnight_rain))
           (buckets_of (aggregate (Moment.label 0) (of_Z 1000) (Some (JArr midnight_dates))
                          (Some (JArr midnight_rain)) 0).1)
           (total_of (aggregate (Moment.label 0) (of_Z 1000) (Some (JArr midnight_dates))
                        (Some (JArr midnight_rain)) 0).1)
           0%nat 3%nat).
  - vm_compute. reflexivity.
  - repeat constructor; eexists; reflexivity.
Defined.

(** X18 at a network error followed by the worked example. *)
Lemma failure_not_cached_witness :
  let w1 := (water_savings (Moment.label 0) failing_env example_query fresh).2 in
  (getWeatherData example_env (text (latitude example_query))
     (text (longitude example_query)) (text (startDate example_query))
     (text (endDate example_query)) w1).1 = Ok example_payload
  /\ calls (getWeatherData example_env (text (latitude example_query))
              (text (longitude example_query)) (text (startDate example_query))
              (text (endDate example_query)) w1).2
     = fetch_params example_query :: fetch_params example_query :: calls fresh.
Proof.
  apply (failure_not_cached (Moment.label 0) failing_env example_env example_query
           fresh "Network Error" example_payload).
  - reflexivity.
  - reflexivity.
  - vm_compute. reflexivity.
  - reflexivity.
  - reflexivity.
Defined.

(** X21 at a payload with a member [toString]: the same request one
    minute later, a sweep of the cache, and the same fetch two minutes
    after the first, which returns the copy. *)
Lemma cached_within_ttl_witness :
  let first := getWeatherData (env_of unprintable_payload)
                 "51.5" "-0.12" "2024-01-01" "2024-01-01" fresh in
  let w2 :=
    serve (Moment.label 0)
      [Served {| now := 1704067260000; attempts := fun _ => Failure false "unused";
                 arrival := 1704067260000 |} example_query;
       Sweep 1704067300000] first.2 in
  first.1 = Ok unprintable_payload
  /\ calls first.2 = [("51.5", "-0.12", "2024-01-01", "2024-01-01")]%string
  /\ getWeatherData two_minutes_later_env "51.5" "-0.12" "2024-01-01" "2024-01-01" w2
     = (Ok (payload_of (JArr [JStr "2024-01-01T00:00"]) (JArr [JObj []])),
        {| cache := cache w2; calls := calls w2;
           console := "Returning cached data"%string :: console w2;
           iterations := iterations w2 |}).
Proof.
  apply (proj1 cached_within_ttl (Moment.label 0) (env_of unprintable_payload)
           two_minutes_later_env
           "51.5" "-0.12" "2024-01-01" "2024-01-01" fresh unprintable_payload
           [Served {| now := 1704067260000; attempts := fun _ => Failure false "unused";
                      arrival := 1704067260000 |} example_query;
            Sweep 1704067300000]).
  - vm_compute. reflexivity.
  - reflexivity.
  - reflexivity.
  - reflexivity.
  - repeat constructor; vm_compute; discriminate.
  - vm_compute. discriminate.
Defined.

(** X22 at a payload without [hourly]. *)
Lemma malformed_payload_answers_500_witness :
  water_savings (Moment.label 0) (env_of (JObj [])) example_query fresh
  = ({| status := 500; payload := ErrorBody "Invalid weather data structure" |},
     fetched (env_of (JObj [])) (JObj [])).
Proof.
  apply (malformed_payload_answers_500 (Moment.label 0) (env_of (JObj [])) example_query
           fresh (fetched (env_of (JObj [])) (JObj [])) (JObj [])).
  - reflexivity.
  - reflexivity.
  - reflexivity.
  - exact I.
  - discriminate.
Defined.
